(** * RedirFS path registry (rfs_path.c): shallow embedding and properties

    The file embeds the path-registration code of [rfs_path.c]:
    the registry list [rfs_path_list], the [struct rfs_path] objects with
    their reference counts, the include/exclude registration of filters,
    and the rename hook [rfs_fsrename].

    Kernel objects live in a heap indexed by addresses; a function of the
    source becomes a computation in a state monad whose failure value is
    a kernel fault (NULL dereference, use after free, BUG_ON).  The
    collaborators that [rfs_path.c] only calls (root aggregate, per-entry
    cache, allocator) are an interface, [Host]; every call of a
    collaborator that may change its state is appended to a trace.

    What is left out: [rfs_path_mutex] and the rename mutex (a call of
    the public interface runs alone, which is what the two locks
    enforce); the reference counts of chains, mounts, entries and
    collaborator records (chains are values here).  The [int] fields
    [id] and [paths_nr] wrap at 32 bits; the [atomic_t] count of a path
    is not bounded.

    redirfs_get_filename does not touch the registry: it is a function
    of the name space it walks and of the buffer it fills;
    rfs_path_get_info reads the registry and calls it for every path of
    a filter.

    Layout: the embedding, a host modelled from the spec, the vocabulary
    of the properties, then the lemmas and theorems. *)

From stdpp Require Import gmap list strings pretty.
From Stdlib Require Import ZArith Lia Sorted Ascii.

Set Default Proof Using "Type".

(** ** Handles and constants *)

Abbreviation vfsmount := nat.
Abbreviation dentry := nat.
Abbreviation inode := nat.
Abbreviation rfs_flt := nat.
Abbreviation rfs_root := nat.
Abbreviation addr := positive.

Definition EINVAL : Z := 22.
Definition ENOMEM : Z := 12.
Definition EEXIST : Z := 17.
Definition EBUSY : Z := 16.
Definition ENOENT : Z := 2.
Definition ENODATA : Z := 61.
Definition ENAMETOOLONG : Z := 36.

Definition INT_MAX : Z := 2147483647.

(** [int] arithmetic: the value kept after an increment or decrement of
    a 32-bit signed field. *)
Definition wrap_int (z : Z) : Z := ((z + 2 ^ 31) mod 2 ^ 32 - 2 ^ 31)%Z.

(** Modelled from the spec: the two registration modes are distinct
    non-zero flag values (the header defining them is not part of the
    sources). *)
Definition REDIRFS_PATH_INCLUDE : Z := 1.
Definition REDIRFS_PATH_EXCLUDE : Z := 2.

(** A pointer to a [struct rfs_path]: NULL, an [ERR_PTR] or an address. *)
Inductive ptr : Type :=
| NULL
| ERR (e : Z)
| PTR (a : addr).

(** ** Filter chains

    A chain pointer is [None] for NULL (the empty chain) and [Some l]
    for a chain object holding the filters [l] in priority order. *)

Abbreviation rfs_chain := (option (list nat)).

Fixpoint flt_index (l : list rfs_flt) (f : rfs_flt) (i : Z) : Z :=
  match l with
  | [] => (-1)%Z
  | g :: l' => if Nat.eqb g f then i else flt_index l' f (i + 1)%Z
  end.

(** Modelled from the spec: rfs_chain_find (rfs_chain.c is not part of
    the sources) returns the index of the filter, or -1 when the filter
    is absent or the chain is the distinguished empty value. *)
Definition rfs_chain_find (c : rfs_chain) (f : rfs_flt) : Z :=
  match c with
  | None => (-1)%Z
  | Some l => flt_index l f 0%Z
  end.

Definition chain_of_list (l : list rfs_flt) : rfs_chain :=
  match l with
  | [] => None
  | _ => Some l
  end.

Definition chain_list (c : rfs_chain) : list rfs_flt :=
  match c with
  | None => []
  | Some l => l
  end.

Fixpoint flt_remove (l : list rfs_flt) (f : rfs_flt) : list rfs_flt :=
  match l with
  | [] => []
  | g :: l' => if Nat.eqb g f then l' else g :: flt_remove l' f
  end.

Fixpoint flt_diff (a b : list rfs_flt) : list rfs_flt :=
  match a with
  | [] => []
  | g :: a' =>
      if Z.eqb (flt_index b g 0%Z) (-1)%Z then g :: flt_diff a' b
      else flt_diff a' b
  end.

(** ** Records read from the collaborators *)

(** The [rinfo] of an inode, dentry or root record: the resolved chain
    in force and the root that owns it. *)
Record rfs_info : Type := mk_info {
  ri_rchain : rfs_chain;
  ri_rroot : option rfs_root
}.

(** The fields of [struct rfs_root] that rfs_path.c reads. *)
Record rfs_root_obj : Type := mk_root {
  rr_dentry : dentry;
  rr_rinfo : rfs_info;
  rr_rinch : rfs_chain;
  rr_rexch : rfs_chain;
  rr_rpaths : list addr;
  rr_paths_nr : Z
}.

Inductive walk_cb : Type :=
| cb_rem_flt
| cb_add_flt.

(** Calls into the collaborators that may change their state. *)
Inductive call : Type :=
| RootAdd (d : dentry)
| RootAddRpath (r : rfs_root) (a : addr)
| RootRemRpath (r : rfs_root) (a : addr)
| RootPut (r : option rfs_root)
| RootAddInclude (r : option rfs_root) (f : rfs_flt)
| RootAddExclude (r : option rfs_root) (f : rfs_flt)
| RootRemInclude (r : option rfs_root) (f : rfs_flt)
| RootRemExclude (r : option rfs_root) (f : rfs_flt)
| DcacheWalkAddDir (d : dentry)
| RootRemFlt (r : rfs_root) (f : rfs_flt)
| RootAddFlt (r : rfs_root) (f : rfs_flt)
| RootWalk (cb : walk_cb) (f : rfs_flt)
| InfoRem (d : dentry) (ri : rfs_info) (f : rfs_flt)
| InfoAdd (d : dentry) (ri : rfs_info) (f : rfs_flt)
| InfoSet (d : dentry) (ri : rfs_info) (f : rfs_flt)
| InfoReset (d : dentry) (ri : rfs_info).

(** The collaborators of rfs_path.c over their own state [W].
    [host_call] runs a call and gives its [int] result (ignored for the
    [void] functions); [host_root_add] is rfs_root_add, which returns a
    root or an error; [kzalloc] says whether the next allocation
    succeeds.  Reference counts of collaborator records are not
    tracked: lookups are reads. *)
Class Host (W : Type) : Type := {
  d_inode : dentry -> inode;
  s_root : dentry -> dentry;
  kzalloc : W -> bool * W;
  rfs_inode_find : W -> inode -> option rfs_info;
  rfs_dentry_find : W -> dentry -> option rfs_info;
  root_obj : W -> rfs_root -> rfs_root_obj;
  host_root_add : dentry -> W -> (Z + rfs_root) * W;
  host_call : call -> W -> Z * W
}.

(** ** Path objects and the registry state *)

Record rfs_path : Type := mk_path {
  rp_id : Z;
  rp_mnt : vfsmount;
  rp_dentry : dentry;
  rp_rinch : rfs_chain;
  rp_rexch : rfs_chain;
  rp_rroot : option rfs_root;
  rp_count : Z
}.

Definition set_id (o : rfs_path) (i : Z) : rfs_path :=
  mk_path i (rp_mnt o) (rp_dentry o) (rp_rinch o) (rp_rexch o) (rp_rroot o) (rp_count o).
Definition set_rinch (o : rfs_path) (c : rfs_chain) : rfs_path :=
  mk_path (rp_id o) (rp_mnt o) (rp_dentry o) c (rp_rexch o) (rp_rroot o) (rp_count o).
Definition set_rexch (o : rfs_path) (c : rfs_chain) : rfs_path :=
  mk_path (rp_id o) (rp_mnt o) (rp_dentry o) (rp_rinch o) c (rp_rroot o) (rp_count o).
Definition set_rroot (o : rfs_path) (r : option rfs_root) : rfs_path :=
  mk_path (rp_id o) (rp_mnt o) (rp_dentry o) (rp_rinch o) (rp_rexch o) r (rp_count o).
Definition set_count (o : rfs_path) (n : Z) : rfs_path :=
  mk_path (rp_id o) (rp_mnt o) (rp_dentry o) (rp_rinch o) (rp_rexch o) (rp_rroot o) n.

Record redirfs_path_info : Type := mk_path_info {
  pi_dentry : option dentry;
  pi_mnt : option vfsmount;
  pi_flags : Z
}.

Section Registry.

Context {W : Type} `{HostW : Host W}.

(** [heap]: the live [struct rfs_path] objects; [rfs_path_list]: the
    registry list, in list order; [flt_nr]: the [paths_nr] field of the
    filters (0 for a filter never touched); [world]: the collaborators'
    state; [trace]: the collaborator calls made so far. *)
Record state : Type := mk_state {
  heap : gmap positive rfs_path;
  rfs_path_list : list addr;
  flt_nr : gmap nat Z;
  world : W;
  trace : list call
}.

Definition set_heap (s : state) (h : gmap positive rfs_path) : state :=
  mk_state h (rfs_path_list s) (flt_nr s) (world s) (trace s).
Definition set_list (s : state) (l : list addr) : state :=
  mk_state (heap s) l (flt_nr s) (world s) (trace s).
Definition set_flt_nr (s : state) (m : gmap nat Z) : state :=
  mk_state (heap s) (rfs_path_list s) m (world s) (trace s).
Definition set_world (s : state) (w : W) : state :=
  mk_state (heap s) (rfs_path_list s) (flt_nr s) w (trace s).
Definition log_call (s : state) (c : call) : state :=
  mk_state (heap s) (rfs_path_list s) (flt_nr s) (world s) (trace s ++ [c]).

Definition paths_nr (s : state) (f : rfs_flt) : Z := default 0%Z (flt_nr s !! f).

(** ** The monad: state passing, [None] is a kernel fault *)

Definition M (A : Type) : Type := state -> option (A * state).

Definition ret {A} (x : A) : M A := fun s => Some (x, s).
Definition bind {A B} (m : M A) (k : A -> M B) : M B :=
  fun s => match m s with
           | None => None
           | Some (x, s') => k x s'
           end.
Definition fault {A} : M A := fun _ => None.
Definition gets {A} (f : state -> A) : M A := fun s => Some (f s, s).
Definition modify (f : state -> state) : M unit := fun s => Some (tt, f s).

End Registry.

Notation "'let*' x ':=' c1 'in' c2" := (bind c1 (fun x => c2))
  (at level 10, x name, c1 at level 100, c2 at level 200).

Section Code.

Context {W : Type} `{HostW : Host W}.

Abbreviation M := (@M W).

(** *** Heap access *)

Definition deref (a : addr) : M rfs_path :=
  fun s => match heap s !! a with
           | None => None
           | Some o => Some (o, s)
           end.

Definition store (a : addr) (o : rfs_path) : M unit :=
  modify (fun s => set_heap s (<[a := o]> (heap s))).

Definition kfree (a : addr) : M unit :=
  modify (fun s => set_heap s (delete a (heap s))).

Definition update (a : addr) (f : rfs_path -> rfs_path) : M unit :=
  let* o := deref a in store a (f o).

(** *** Collaborator calls *)

Definition alloc : M bool :=
  fun s => let (ok, w) := kzalloc (world s) in Some (ok, set_world s w).

Definition ext (c : call) : M Z :=
  fun s => let (rv, w) := host_call c (world s) in
           Some (rv, set_world (log_call s c) w).

Definition rfs_root_add (d : dentry) : M (Z + rfs_root) :=
  fun s => let (r, w) := host_root_add d (world s) in
           Some (r, set_world (log_call s (RootAdd d)) w).

(** *** Filter chain algebra *)

(** Modelled from the spec: rfs_chain_add (rfs_chain.c is not part of
    the sources) appends the filter at the tail of a new chain and fails
    with OutOfMemory when the allocation fails. *)
Definition rfs_chain_add (c : rfs_chain) (f : rfs_flt) : M (Z + rfs_chain) :=
  let* ok := alloc in
  if ok : bool then ret (inr (Some (chain_list c ++ [f])))
  else ret (inl (- ENOMEM)%Z).

(** Modelled from the spec: rfs_chain_rem fails with NotFound when the
    filter is absent; the new chain is the distinguished empty value
    when the removed filter was the last one; building the new chain
    may fail with OutOfMemory. *)
Definition rfs_chain_rem (c : rfs_chain) (f : rfs_flt) : M (Z + rfs_chain) :=
  if Z.eqb (rfs_chain_find c f) (-1)%Z then ret (inl (- ENOENT)%Z)
  else
    let* ok := alloc in
    if ok : bool then ret (inr (chain_of_list (flt_remove (chain_list c) f)))
    else ret (inl (- ENOMEM)%Z).

(** Modelled from the spec: rfs_chain_diff gives the members of the
    first chain that are not in the second, in the order of the first;
    the empty result is the distinguished empty value. *)
Definition rfs_chain_diff (a b : rfs_chain) : M (Z + rfs_chain) :=
  let* ok := alloc in
  if ok : bool then ret (inr (chain_of_list (flt_diff (chain_list a) (chain_list b))))
  else ret (inl (- ENOMEM)%Z).

(** *** struct rfs_path: allocation and reference counting *)

Definition rfs_path_alloc (mnt : vfsmount) (d : dentry) : M ptr :=
  let* ok := alloc in
  if ok : bool then
    let* a := gets (fun s => fresh (dom (heap s))) in
    let* _ := store a (mk_path 0 mnt d None None None 1) in
    ret (PTR a)
  else ret (ERR (- ENOMEM)%Z).

(** IS_ERR: the top 4095 values of the address space.  An [ERR_PTR]
    outside this range is taken for an address, and using it faults. *)
Definition IS_ERR_VALUE (e : Z) : bool := Z.leb (-4095) e && Z.ltb e 0.

Definition rfs_path_get (p : ptr) : M ptr :=
  match p with
  | PTR a =>
      let* o := deref a in
      if Z.eqb (rp_count o) 0 then fault
      else let* _ := store a (set_count o (rp_count o + 1)%Z) in ret (PTR a)
  | ERR e => if IS_ERR_VALUE e || Z.eqb e 0 then ret NULL else fault
  | NULL => ret NULL
  end.

Definition rfs_path_put (p : ptr) : M unit :=
  match p with
  | PTR a =>
      let* o := deref a in
      if Z.eqb (rp_count o) 0 then fault
      else if Z.eqb (rp_count o - 1) 0 then kfree a
      else store a (set_count o (rp_count o - 1)%Z)
  | ERR e => if IS_ERR_VALUE e || Z.eqb e 0 then ret tt else fault
  | NULL => ret tt
  end.

(** *** Registry list *)

Fixpoint path_find_scan (l : list addr) (mnt : vfsmount) (d : dentry) : M ptr :=
  match l with
  | [] => ret NULL
  | a :: l' =>
      let* o := deref a in
      if negb (Nat.eqb (rp_mnt o) mnt) then path_find_scan l' mnt d
      else if negb (Nat.eqb (rp_dentry o) d) then path_find_scan l' mnt d
      else rfs_path_get (PTR a)
  end.

Definition rfs_path_find (mnt : vfsmount) (d : dentry) : M ptr :=
  let* l := gets rfs_path_list in path_find_scan l mnt d.

Fixpoint path_find_id_scan (l : list addr) (i : Z) : M ptr :=
  match l with
  | [] => ret NULL
  | a :: l' =>
      let* o := deref a in
      if negb (Z.eqb (rp_id o) i) then path_find_id_scan l' i
      else rfs_path_get (PTR a)
  end.

Definition rfs_path_find_id (i : Z) : M ptr :=
  let* l := gets rfs_path_list in path_find_id_scan l i.

(** Modelled from the spec: rfs_root_add_rpath (rfs_root.c is not part
    of the sources) links the path into the root's membership list,
    which holds one reference on the path. *)
Definition rfs_root_add_rpath (r : rfs_root) (a : addr) : M unit :=
  let* _ := ext (RootAddRpath r a) in
  let* _ := rfs_path_get (PTR a) in
  ret tt.

(** Modelled from the spec: rfs_root_rem_rpath unlinks the path from the
    membership list of its root and releases the list's reference; a
    NULL root has no membership list to read. *)
Definition rfs_root_rem_rpath (r : option rfs_root) (a : addr) : M unit :=
  match r with
  | None => fault
  | Some r => let* _ := ext (RootRemRpath r a) in rfs_path_put (PTR a)
  end.

(** [inl e] is the pointer [ERR_PTR(e)]; [ERR_PTR(0)] is NULL, which
    IS_ERR does not catch and rfs_root_add_rpath dereferences. *)
Definition rfs_path_add_rroot (a : addr) : M Z :=
  let* o := deref a in
  let* r := rfs_root_add (rp_dentry o) in
  match r with
  | inl e => if Z.eqb e 0 then fault else ret e
  | inr rroot =>
      let* _ := rfs_root_add_rpath rroot a in
      let* _ := update a (fun o => set_rroot o (Some rroot)) in
      ret 0%Z
  end.

Definition rfs_path_rem_rroot (a : addr) : M unit :=
  let* o := deref a in
  let* _ := rfs_root_rem_rpath (rp_rroot o) a in
  let* _ := ext (RootPut (rp_rroot o)) in
  update a (fun o => set_rroot o None).

Definition rfs_path_list_add (a : addr) : M unit :=
  let* _ := modify (fun s => set_list s (rfs_path_list s ++ [a])) in
  let* _ := rfs_path_get (PTR a) in
  ret tt.

Definition list_del (a : addr) (l : list addr) : list addr :=
  filter (fun b => b ≠ a) l.

Definition rfs_path_list_rem (a : addr) : M unit :=
  let* _ := modify (fun s => set_list s (list_del a (rfs_path_list s))) in
  rfs_path_put (PTR a).

(** The [list_for_each_entry] of rfs_path_get_id: one pass over the
    registry list, [i] stepping past an entry only when that entry
    carries the id [i]. *)
Fixpoint get_id_scan (l : list addr) (i : Z) : M Z :=
  match l with
  | [] => ret i
  | a :: l' =>
      let* o := deref a in
      if Z.eqb (rp_id o) i then get_id_scan l' (wrap_int (i + 1))
      else get_id_scan l' i
  end.

(** The [while] body ends in [return i], so the loop runs at most
    once. *)
Definition rfs_path_get_id : M Z :=
  if Z.ltb 0 INT_MAX then
    let* l := gets rfs_path_list in get_id_scan l 0%Z
  else ret (-1)%Z.

Definition rfs_path_add (mnt : vfsmount) (d : dentry) : M ptr :=
  let* rpath := rfs_path_find mnt d in
  match rpath with
  | PTR _ => ret rpath
  | _ =>
      let* i := rfs_path_get_id in
      if Z.ltb i 0 then ret (ERR (- EBUSY)%Z)
      else
        let* rpath := rfs_path_alloc mnt d in
        match rpath with
        | PTR a =>
            let* _ := update a (fun o => set_id o i) in
            let* rv := rfs_path_add_rroot a in
            if negb (Z.eqb rv 0) then
              let* _ := rfs_path_put (PTR a) in ret (ERR rv)
            else
              let* _ := rfs_path_list_add a in ret (PTR a)
        | _ => ret rpath
        end
  end.

Definition chain_null (c : rfs_chain) : bool :=
  match c with
  | None => true
  | Some _ => false
  end.

Definition rfs_path_rem (a : addr) : M unit :=
  let* o := deref a in
  if negb (chain_null (rp_rinch o)) || negb (chain_null (rp_rexch o)) then ret tt
  else
    let* _ := rfs_path_rem_rroot a in
    rfs_path_list_rem a.

Definition rfs_path_add_dirs (d : dentry) : M Z :=
  let* rinode := gets (fun s => rfs_inode_find (world s) (d_inode d)) in
  match rinode with
  | Some _ => ret 0%Z
  | None => ext (DcacheWalkAddDir d)
  end.

(** *** Registration of a filter on a path *)

Definition flt_nr_inc (f : rfs_flt) : M unit :=
  modify (fun s => set_flt_nr s (<[f := wrap_int (paths_nr s f + 1)]> (flt_nr s))).

Definition flt_nr_dec (f : rfs_flt) : M unit :=
  modify (fun s => set_flt_nr s (<[f := wrap_int (paths_nr s f - 1)]> (flt_nr s))).

Definition rfs_path_add_include (a : addr) (f : rfs_flt) : M Z :=
  let* o := deref a in
  if negb (Z.eqb (rfs_chain_find (rp_rinch o) f) (-1)) then ret 0%Z
  else if negb (Z.eqb (rfs_chain_find (rp_rexch o) f) (-1)) then ret (- EEXIST)%Z
  else
    let* rv := rfs_path_add_dirs (s_root (rp_dentry o)) in
    if negb (Z.eqb rv 0) then ret rv
    else
      let* rinch := rfs_chain_add (rp_rinch o) f in
      match rinch with
      | inl e => ret e
      | inr rinch =>
          let* rv := ext (RootAddInclude (rp_rroot o) f) in
          if negb (Z.eqb rv 0) then ret rv
          else
            let* _ := update a (fun o => set_rinch o rinch) in
            let* _ := flt_nr_inc f in
            ret 0%Z
      end.

Definition rfs_path_add_exclude (a : addr) (f : rfs_flt) : M Z :=
  let* o := deref a in
  if negb (Z.eqb (rfs_chain_find (rp_rexch o) f) (-1)) then ret 0%Z
  else if negb (Z.eqb (rfs_chain_find (rp_rinch o) f) (-1)) then ret (- EEXIST)%Z
  else
    let* rexch := rfs_chain_add (rp_rexch o) f in
    match rexch with
    | inl e => ret e
    | inr rexch =>
        let* rv := ext (RootAddExclude (rp_rroot o) f) in
        if negb (Z.eqb rv 0) then ret rv
        else
          let* _ := update a (fun o => set_rexch o rexch) in
          let* _ := flt_nr_inc f in
          ret 0%Z
    end.

Definition rfs_path_rem_include (a : addr) (f : rfs_flt) : M Z :=
  let* o := deref a in
  if Z.eqb (rfs_chain_find (rp_rinch o) f) (-1) then ret 0%Z
  else
    let* rinch := rfs_chain_rem (rp_rinch o) f in
    match rinch with
    | inl e => ret e
    | inr rinch =>
        let* rv := ext (RootRemInclude (rp_rroot o) f) in
        if negb (Z.eqb rv 0) then ret rv
        else
          let* _ := update a (fun o => set_rinch o rinch) in
          let* _ := flt_nr_dec f in
          ret 0%Z
    end.

Definition rfs_path_rem_exclude (a : addr) (f : rfs_flt) : M Z :=
  let* o := deref a in
  if Z.eqb (rfs_chain_find (rp_rexch o) f) (-1) then ret 0%Z
  else
    let* rexch := rfs_chain_rem (rp_rexch o) f in
    match rexch with
    | inl e => ret e
    | inr rexch =>
        let* rv := ext (RootRemExclude (rp_rroot o) f) in
        if negb (Z.eqb rv 0) then ret rv
        else
          let* _ := update a (fun o => set_rexch o rexch) in
          let* _ := flt_nr_dec f in
          ret 0%Z
    end.

(** *** Public registration interface *)

Definition redirfs_add_path (filter : option rfs_flt)
    (info : option redirfs_path_info) : M ptr :=
  match filter, info with
  | Some f, Some info =>
      match pi_mnt info, pi_dentry info with
      | Some mnt, Some d =>
          if Z.eqb (pi_flags info) 0 then ret (ERR (- EINVAL)%Z)
          else
            let* rpath := rfs_path_add mnt d in
            match rpath with
            | PTR a =>
                let* rv :=
                  if Z.eqb (pi_flags info) REDIRFS_PATH_INCLUDE then
                    rfs_path_add_include a f
                  else if Z.eqb (pi_flags info) REDIRFS_PATH_EXCLUDE then
                    rfs_path_add_exclude a f
                  else ret (- EINVAL)%Z in
                let* _ := rfs_path_rem a in
                if negb (Z.eqb rv 0) then
                  let* _ := rfs_path_put (PTR a) in ret (ERR rv)
                else ret (PTR a)
            | ERR e => if IS_ERR_VALUE e then ret rpath else fault
            | NULL => fault
            end
      | _, _ => ret (ERR (- EINVAL)%Z)
      end
  | _, _ => ret (ERR (- EINVAL)%Z)
  end.

(** [path] is dereferenced as it is given: an [ERR_PTR] is not an
    object. *)
Definition redirfs_rem_path (filter : option rfs_flt) (path : ptr) : M Z :=
  match filter, path with
  | None, _ => ret (- EINVAL)%Z
  | _, NULL => ret (- EINVAL)%Z
  | _, ERR e => if Z.eqb e 0 then ret (- EINVAL)%Z else fault
  | Some f, PTR a =>
      let* o := deref a in
      let* rv :=
        if negb (Z.eqb (rfs_chain_find (rp_rinch o) f) (-1)) then
          rfs_path_rem_include a f
        else if negb (Z.eqb (rfs_chain_find (rp_rexch o) f) (-1)) then
          rfs_path_rem_exclude a f
        else ret (- EINVAL)%Z in
      let* _ := rfs_path_rem a in
      ret rv
  end.

Definition redirfs_get_id_path (path : ptr) : M Z :=
  match path with
  | PTR a => let* o := deref a in ret (rp_id o)
  | ERR e => if IS_ERR_VALUE e || Z.eqb e 0 then ret (- EINVAL)%Z else fault
  | NULL => ret (- EINVAL)%Z
  end.

Definition redirfs_get_path_id (i : Z) : M ptr := rfs_path_find_id i.

Definition redirfs_get_path (path : ptr) : M ptr := rfs_path_get path.

Definition redirfs_put_path (path : ptr) : M unit := rfs_path_put path.

(** The loops that fill the NULL-terminated array [paths]: the filled
    entries, in order. *)
Fixpoint get_paths_scan (l : list addr) (f : rfs_flt) : M (list addr) :=
  match l with
  | [] => ret []
  | a :: l' =>
      let* o := deref a in
      if negb (Z.eqb (rfs_chain_find (rp_rinch o) f) (-1))
         || negb (Z.eqb (rfs_chain_find (rp_rexch o) f) (-1)) then
        let* _ := rfs_path_get (PTR a) in
        let* rest := get_paths_scan l' f in
        ret (a :: rest)
      else get_paths_scan l' f
  end.

Fixpoint get_paths_root_scan (l : list addr) (rroot : rfs_root_obj)
    (f : rfs_flt) : M (list addr) :=
  match l with
  | [] => ret []
  | a :: l' =>
      if negb (Z.eqb (rfs_chain_find (rr_rinch rroot) f) (-1))
         || negb (Z.eqb (rfs_chain_find (rr_rexch rroot) f) (-1)) then
        let* _ := rfs_path_get (PTR a) in
        let* rest := get_paths_root_scan l' rroot f in
        ret (a :: rest)
      else get_paths_root_scan l' rroot f
  end.

(** The array has [nr + 1] slots; the entries and the closing NULL must
    fit. *)
Definition array_fits (nr : Z) (paths : list addr) : bool :=
  Z.leb (Z.of_nat (length paths) + 1) (nr + 1).

Definition redirfs_get_paths_root (filter : option rfs_flt)
    (root : option rfs_root) : M (Z + list addr) :=
  match filter, root with
  | Some f, Some r =>
      let* nr := gets (fun s => rr_paths_nr (root_obj (world s) r)) in
      let* ok := alloc in
      if ok : bool then
        let* rroot := gets (fun s => root_obj (world s) r) in
        let* paths := get_paths_root_scan (rr_rpaths rroot) rroot f in
        if array_fits nr paths then ret (inr paths)
        else fault
      else ret (inl (- ENOMEM)%Z)
  | _, _ => ret (inl (- EINVAL)%Z)
  end.

Definition redirfs_get_paths (filter : option rfs_flt) : M (Z + list addr) :=
  match filter with
  | Some f =>
      let* nr := gets (fun s => paths_nr s f) in
      let* ok := alloc in
      if ok : bool then
        let* l := gets rfs_path_list in
        let* paths := get_paths_scan l f in
        if array_fits nr paths then ret (inr paths)
        else fault
      else ret (inl (- ENOMEM)%Z)
  | None => ret (inl (- EINVAL)%Z)
  end.

Fixpoint put_paths_loop (paths : list addr) : M unit :=
  match paths with
  | [] => ret tt
  | a :: l => let* _ := redirfs_put_path (PTR a) in put_paths_loop l
  end.

Definition redirfs_put_paths (paths : option (list addr)) : M unit :=
  match paths with
  | None => ret tt
  | Some l => put_paths_loop l
  end.

(** [info->flags] is 0, as kzalloc left it, when neither chain holds the
    filter.  [path] is dereferenced as it is given, after the
    allocation.  The references that mntget and dget take on the mount
    and the entry are not tracked. *)
Definition redirfs_get_path_info (filter : option rfs_flt) (path : ptr)
    : M (Z + redirfs_path_info) :=
  match filter, path with
  | None, _ => ret (inl (- EINVAL)%Z)
  | _, NULL => ret (inl (- EINVAL)%Z)
  | _, ERR e =>
      if Z.eqb e 0 then ret (inl (- EINVAL)%Z)
      else
        let* ok := alloc in
        if ok : bool then fault else ret (inl (- ENOMEM)%Z)
  | Some f, PTR a =>
      let* ok := alloc in
      if ok : bool then
        let* rpath := deref a in
        let flags :=
          if negb (Z.eqb (rfs_chain_find (rp_rinch rpath) f) (-1)) then
            REDIRFS_PATH_INCLUDE
          else if negb (Z.eqb (rfs_chain_find (rp_rexch rpath) f) (-1)) then
            REDIRFS_PATH_EXCLUDE
          else 0%Z in
        if Z.eqb flags 0 then ret (inl (- ENODATA)%Z)
        else ret (inr (mk_path_info (Some (rp_dentry rpath)) (Some (rp_mnt rpath)) flags))
      else ret (inl (- ENOMEM)%Z)
  end.

(** The [while] loop of redirfs_rem_paths.  [rv] is the local variable
    of that name: [None] while it has not been assigned. *)
Fixpoint rem_paths_loop (f : rfs_flt) (paths : list addr) (rv : option Z)
    : M (option Z) :=
  match paths with
  | [] => ret rv
  | a :: l =>
      let* r := redirfs_rem_path (Some f) (PTR a) in
      if negb (Z.eqb r 0) then ret (Some r)
      else rem_paths_loop f l (Some r)
  end.

(** The result is the value of [rv] at [return rv]: [None] when the
    function returns the variable without having assigned it. *)
Definition redirfs_rem_paths (filter : option rfs_flt) : M (option Z) :=
  match filter with
  | None => ret (Some (- EINVAL)%Z)
  | Some f =>
      let* paths := redirfs_get_paths filter in
      match paths with
      | inl e => ret (Some e)
      | inr l =>
          let* rv := rem_paths_loop f l None in
          let* _ := redirfs_put_paths (Some l) in
          ret rv
      end
  end.

(** *** Rename *)

(** [rroot->rinfo->rchain] and [rroot->dentry], read when the code reads
    them. *)
Definition root_rchain (r : rfs_root) : M rfs_chain :=
  gets (fun s => ri_rchain (rr_rinfo (root_obj (world s) r))).

Definition root_dentry (r : rfs_root) : M dentry :=
  gets (fun s => rr_dentry (root_obj (world s) r)).

Definition root_rinfo (r : rfs_root) : M rfs_info :=
  gets (fun s => rr_rinfo (root_obj (world s) r)).

(** Modelled from the spec: rfs_info_alloc (rfs_info.c is not part of
    the sources) allocates the record pairing a root with a resolved
    chain, and fails with OutOfMemory when the allocation fails. *)
Definition rfs_info_alloc (r : rfs_root) (c : rfs_chain) : M (Z + rfs_info) :=
  let* ok := alloc in
  if ok : bool then ret (inr (mk_info c (Some r)))
  else ret (inl (- ENOMEM)%Z).

Fixpoint fsrename_rem_rroot_loop (rroot : rfs_root) (l : list rfs_flt) : M Z :=
  match l with
  | [] => ret 0%Z
  | f :: l' =>
      let* rv := ext (RootRemFlt rroot f) in
      if negb (Z.eqb rv 0) then ret rv
      else
        let* rv := ext (RootWalk cb_rem_flt f) in
        if negb (Z.eqb rv 0) then ret rv
        else fsrename_rem_rroot_loop rroot l'
  end.

Definition rfs_fsrename_rem_rroot (rroot : rfs_root) (rchain : rfs_chain) : M Z :=
  match rchain with
  | None => ret 0%Z
  | Some l => fsrename_rem_rroot_loop rroot l
  end.

Fixpoint fsrename_rem_dentry_loop (rroot : rfs_root) (d : dentry)
    (rchrem : rfs_chain) (l : list rfs_flt) : M Z :=
  match l with
  | [] => ret 0%Z
  | f :: l' =>
      let* rchnew := rfs_chain_rem rchrem f in
      match rchnew with
      | inl e => ret e
      | inr rchnew =>
          let* rinfo := rfs_info_alloc rroot rchnew in
          match rinfo with
          | inl e => ret e
          | inr rinfo =>
              let* rv := ext (InfoRem d rinfo f) in
              if negb (Z.eqb rv 0) then ret rv
              else fsrename_rem_dentry_loop rroot d rchnew l'
          end
      end
  end.

Definition rfs_fsrename_rem_dentry (rroot : rfs_root) (rchain : rfs_chain)
    (d : dentry) : M Z :=
  match rchain with
  | None => ret 0%Z
  | Some l =>
      let* rchrem := root_rchain rroot in
      fsrename_rem_dentry_loop rroot d rchrem l
  end.

Definition rfs_fsrename_rem (rroot_src rroot_dst : option rfs_root)
    (d : dentry) : M Z :=
  match rroot_src with
  | None => ret 0%Z
  | Some src =>
      let* rchain :=
        match rroot_dst with
        | None => let* c := root_rchain src in ret (inr c)
        | Some dst =>
            let* a := root_rchain src in
            let* b := root_rchain dst in
            rfs_chain_diff a b
        end in
      match rchain with
      | inl e => ret e
      | inr rchain =>
          let* sd := root_dentry src in
          if Nat.eqb sd d then rfs_fsrename_rem_rroot src rchain
          else rfs_fsrename_rem_dentry src rchain d
      end
  end.

Fixpoint fsrename_add_rroot_loop (rroot : rfs_root) (l : list rfs_flt) : M Z :=
  match l with
  | [] => ret 0%Z
  | f :: l' =>
      let* rv := ext (RootAddFlt rroot f) in
      if negb (Z.eqb rv 0) then ret rv
      else
        let* rv := ext (RootWalk cb_add_flt f) in
        if negb (Z.eqb rv 0) then ret rv
        else fsrename_add_rroot_loop rroot l'
  end.

Definition rfs_fsrename_add_rroot (rroot : rfs_root) (rchain : rfs_chain) : M Z :=
  match rchain with
  | None => ret 0%Z
  | Some l => fsrename_add_rroot_loop rroot l
  end.

Fixpoint fsrename_add_dentry_loop (rroot : rfs_root) (d : dentry)
    (rchadd : rfs_chain) (l : list rfs_flt) : M Z :=
  match l with
  | [] =>
      let* ri := root_rinfo rroot in
      ext (InfoReset d ri)
  | f :: l' =>
      let* rchnew := rfs_chain_add rchadd f in
      match rchnew with
      | inl e => ret e
      | inr rchnew =>
          let* rinfo := rfs_info_alloc rroot rchnew in
          match rinfo with
          | inl e => ret e
          | inr rinfo =>
              let* rv := ext (InfoAdd d rinfo f) in
              if negb (Z.eqb rv 0) then ret rv
              else fsrename_add_dentry_loop rroot d rchnew l'
          end
      end
  end.

Definition rfs_fsrename_add_dentry (rroot : rfs_root) (rchain : rfs_chain)
    (d : dentry) : M Z :=
  match rchain with
  | None =>
      let* ri := root_rinfo rroot in
      ext (InfoReset d ri)
  | Some l =>
      let* rdentry := gets (fun s => rfs_dentry_find (world s) d) in
      let rchadd :=
        match rdentry with
        | Some rd => ri_rchain rd
        | None => None
        end in
      fsrename_add_dentry_loop rroot d rchadd l
  end.

Definition rfs_fsrename_add (rroot_src rroot_dst : option rfs_root)
    (d : dentry) : M Z :=
  match rroot_dst with
  | None => ret 0%Z
  | Some dst =>
      let* rchain :=
        match rroot_src with
        | None => let* c := root_rchain dst in ret (inr c)
        | Some src =>
            let* a := root_rchain dst in
            let* b := root_rchain src in
            rfs_chain_diff a b
        end in
      match rchain with
      | inl e => ret e
      | inr rchain =>
          match rroot_src with
          | Some src =>
              let* sd := root_dentry src in
              if Nat.eqb sd d then rfs_fsrename_add_rroot src rchain
              else rfs_fsrename_add_dentry dst rchain d
          | None => rfs_fsrename_add_dentry dst rchain d
          end
      end
  end.

Fixpoint fsrename_set_loop (rroot_dst : rfs_root) (d : dentry)
    (rchain_src rchain_dst : rfs_chain) (l : list rfs_flt) : M Z :=
  match l with
  | [] => ret 0%Z
  | f :: l' =>
      if Z.eqb (rfs_chain_find rchain_dst f) (-1) then
        fsrename_set_loop rroot_dst d rchain_src rchain_dst l'
      else
        let* rinfo := rfs_info_alloc rroot_dst rchain_src in
        match rinfo with
        | inl e => ret e
        | inr rinfo =>
            let* rv := ext (InfoSet d rinfo f) in
            if negb (Z.eqb rv 0) then ret rv
            else fsrename_set_loop rroot_dst d rchain_src rchain_dst l'
        end
  end.

(** [rchain_src->rflts_nr] is read without a test: a record whose chain
    is NULL faults. *)
Definition rfs_fsrename_set (rroot_src rroot_dst : option rfs_root)
    (d : dentry) : M Z :=
  match rroot_src, rroot_dst with
  | Some src, Some dst =>
      let* sd := root_dentry src in
      if Nat.eqb sd d then ret 0%Z
      else
        let* rdentry := gets (fun s => rfs_dentry_find (world s) d) in
        match rdentry with
        | None => ret 0%Z
        | Some rd =>
            let* rchain_dst := root_rchain dst in
            match ri_rchain rd with
            | None => fault
            | Some l => fsrename_set_loop dst d (ri_rchain rd) rchain_dst l
            end
        end
  | _, _ => ret 0%Z
  end.

(** [if (rinfo->rchain) rroot = rfs_root_get(rinfo->rroot)], the
    root staying NULL otherwise. *)
Definition chain_root (ri : rfs_info) : option rfs_root :=
  if chain_null (ri_rchain ri) then None else ri_rroot ri.

Definition root_eqb (a b : option rfs_root) : bool :=
  match a, b with
  | None, None => true
  | Some x, Some y => Nat.eqb x y
  | _, _ => false
  end.

(** [rinode->rinfo] is read without a test: a missing record of
    [new_dir] faults.  [new_dentry] is not used. *)
Definition rfs_fsrename (old_dir : inode) (old_dentry : dentry)
    (new_dir : inode) (new_dentry : dentry) : M Z :=
  if Nat.eqb old_dir new_dir then ret 0%Z
  else
    let* rinode := gets (fun s => rfs_inode_find (world s) new_dir) in
    let* rdentry := gets (fun s => rfs_dentry_find (world s) old_dentry) in
    match rinode with
    | None => fault
    | Some ri =>
        let rroot_dst := chain_root ri in
        let rroot_src :=
          match rdentry with
          | Some rd => chain_root rd
          | None => None
          end in
        if root_eqb rroot_src rroot_dst then ret 0%Z
        else
          let* rv := rfs_fsrename_rem rroot_src rroot_dst old_dentry in
          if negb (Z.eqb rv 0) then ret rv
          else
            let* rv := rfs_fsrename_set rroot_src rroot_dst old_dentry in
            if negb (Z.eqb rv 0) then ret rv
            else rfs_fsrename_add rroot_src rroot_dst old_dentry
    end.

End Code.

(** ** File names

    redirfs_get_filename writes the name of an entry into a buffer,
    from the end of the buffer backwards: it walks from the entry up to
    the root of its mount and on through the mounts above.  What it
    reads of the kernel's name space: the parent and the name of an
    entry, the root entry of a mount, and follow_up, which steps from
    the root of a mount to the entry the mount sits on, in the mount
    above, and fails at the top.  A name is shorter than 2^32 bytes
    ([d_name.len] is an unsigned int). *)
Record namespace : Type := mk_namespace {
  d_parent : dentry -> dentry;
  d_name : dentry -> list ascii;
  mnt_root : vfsmount -> dentry;
  follow_up : vfsmount -> dentry -> option (vfsmount * dentry)
}.

(** The outcome of a run: a result, an access outside the buffer, or
    the walk cut off by the bound on its steps. *)
Inductive run (A : Type) : Type :=
| Done (x : A)
| Crash
| Cut.

Arguments Done {A} x.
Arguments Crash {A}.
Arguments Cut {A}.

(** [src] stored at offset [i] of the buffer (memcpy, and [*p = c] for
    one character): [None] when the bytes do not lie inside the
    buffer. *)
Definition write_at (buf : list ascii) (i : Z) (src : list ascii)
    : option (list ascii) :=
  if Z.leb 0 i && Z.leb (i + Z.of_nat (length src)) (Z.of_nat (length buf)) then
    Some (take (Z.to_nat i) buf ++ src ++ drop (Z.to_nat i + length src) buf)
  else None.

Definition read_at (buf : list ascii) (i : Z) : option ascii :=
  if Z.leb 0 i then buf !! Z.to_nat i else None.

(** memmove(buf, buf + i, n). *)
Definition move_front (buf : list ascii) (i n : Z) : option (list ascii) :=
  if Z.leb 0 i && Z.leb 0 n && Z.leb (i + n) (Z.of_nat (length buf)) then
    Some (take (Z.to_nat n) (drop (Z.to_nat i) buf) ++ drop (Z.to_nat n) buf)
  else None.

(** The buffer, the offset [end - buf] and the variable [size]. *)
Record name_cursor : Type := mk_cursor {
  nc_buf : list ascii;
  nc_end : Z;
  nc_size : Z
}.

(** The code from the label [again] to the failure of follow_up: one
    step is one round of the [while] loop or one [goto again].  The
    result is 0 and the cursor at the end of the walk, or -ENAMETOOLONG
    and the cursor at the return. *)
Fixpoint filename_walk (ns : namespace) (n : nat) (mnt : vfsmount) (d : dentry)
    (c : name_cursor) : run (Z * name_cursor) :=
  match n with
  | O => Cut
  | S n =>
      if negb (Nat.eqb d (mnt_root ns mnt)) then
        let len := Z.of_nat (length (d_name ns d)) in
        let size := wrap_int (nc_size c - (len + 1)) in
        if Z.ltb size 0 then
          Done ((- ENAMETOOLONG)%Z, mk_cursor (nc_buf c) (nc_end c) size)
        else
          match write_at (nc_buf c) (nc_end c - len) (d_name ns d) with
          | None => Crash
          | Some buf =>
              match write_at buf (nc_end c - len - 1) ["/"%char] with
              | None => Crash
              | Some buf =>
                  filename_walk ns n mnt (d_parent ns d)
                    (mk_cursor buf (nc_end c - len - 1) size)
              end
          end
      else
        match follow_up ns mnt d with
        | Some (mnt', d') => filename_walk ns n mnt' d' c
        | None => Done (0%Z, c)
        end
  end.

(** [n] bounds the steps of the walk.  [size] is an [int]; it is at
    least 1 where it is decremented.  The result is the value returned
    and the buffer as the call leaves it. *)
Definition redirfs_get_filename (ns : namespace) (n : nat) (mnt : vfsmount)
    (d : dentry) (buf : list ascii) (size : Z) : run (Z * list ascii) :=
  let len := size in
  if Z.ltb size 2 then Done ((- ENAMETOOLONG)%Z, buf)
  else
    match write_at buf (size - 1) [zero] with
    | None => Crash
    | Some buf =>
        match filename_walk ns n mnt d (mk_cursor buf (size - 1) (size - 1)) with
        | Done (rv, c) =>
            if negb (Z.eqb rv 0) then Done (rv, nc_buf c)
            else
              match read_at (nc_buf c) (nc_end c) with
              | None => Crash
              | Some ch =>
                  let last :=
                    if negb (Ascii.eqb ch "/"%char) then
                      match write_at (nc_buf c) (nc_end c - 1) ["/"%char] with
                      | Some buf =>
                          Some (mk_cursor buf (nc_end c - 1) (nc_size c - 1))
                      | None => None
                      end
                    else Some c in
                  match last with
                  | None => Crash
                  | Some c =>
                      match move_front (nc_buf c) (nc_end c) (len - nc_size c) with
                      | None => Crash
                      | Some buf => Done (0%Z, buf)
                      end
                  end
              end
        | Crash => Crash
        | Cut => Cut
        end
    end.

(** The walk of redirfs_get_filename from the entry [d] of the mount
    [mnt]: the names of the components it meets, listed from the top of
    the name space down to [d], and the number of its steps. *)
Inductive components (ns : namespace)
    : vfsmount -> dentry -> list (list ascii) -> nat -> Prop :=
| at_top mnt d :
    d = mnt_root ns mnt -> follow_up ns mnt d = None ->
    components ns mnt d [] 1
| at_mount_root mnt d mnt' d' names k :
    d = mnt_root ns mnt -> follow_up ns mnt d = Some (mnt', d') ->
    components ns mnt' d' names k ->
    components ns mnt d names (S k)
| below_root mnt d names k :
    d <> mnt_root ns mnt ->
    components ns mnt (d_parent ns d) names k ->
    components ns mnt d (names ++ [d_name ns d]) (S k).

(** Every component behind a slash. *)
Fixpoint slash_join (names : list (list ascii)) : list ascii :=
  match names with
  | [] => []
  | nm :: names => "/"%char :: nm ++ slash_join names
  end.

(** The file name of the components: a single slash at the top. *)
Definition path_of (names : list (list ascii)) : list ascii :=
  match names with
  | [] => ["/"%char]
  | _ => slash_join names
  end.

(** ** The listing of the paths of a filter *)

Definition PAGE_SIZE : Z := 4096.

(** The characters of the C string at the start of a buffer; [None]
    when the buffer holds no terminator. *)
Fixpoint c_string (buf : list ascii) : option (list ascii) :=
  match buf with
  | [] => None
  | c :: buf => if Ascii.eqb c zero then Some [] else cons c <$> c_string buf
  end.

(** The text of the format "%c:%d:%s". *)
Definition info_text (type : ascii) (id : Z) (name : list ascii) : list ascii :=
  type :: ":"%char :: String.list_ascii_of_string (pretty id) ++ ":"%char :: name.

(** snprintf(buf + off, n, ...) for the text [txt]: at most [n - 1]
    characters and a terminator are stored, and the result is the
    length of [txt]; for an [n] that is negative as an [int] the kernel
    stores nothing and returns 0. *)
Definition snprintf_at (buf : list ascii) (off n : Z) (txt : list ascii)
    : option (list ascii * Z) :=
  if Z.ltb n 0 then Some (buf, 0%Z)
  else if Z.eqb n 0 then Some (buf, Z.of_nat (length txt))
  else
    match write_at buf off (take (Z.to_nat (n - 1)) txt ++ [zero]) with
    | Some buf => Some (buf, Z.of_nat (length txt))
    | None => None
    end.

Section Info.

Context {W : Type} `{HostW : Host W}.

(** The [list_for_each_entry] of rfs_path_get_info over the paths [l]
    still to visit: [page] is the page that holds the file name, [buf]
    the buffer of the caller and [len] the variable of that name.  The
    result is the value returned and the buffer of the caller. *)
Fixpoint get_info_loop (ns : namespace) (n : nat) (rflt : rfs_flt)
    (l : list addr) (page buf : list ascii) (size len : Z)
    : M (run (Z * list ascii)) :=
  match l with
  | [] => ret (Done (len, buf))
  | a :: l' =>
      let* rpath := deref a in
      let type :=
        if negb (Z.eqb (rfs_chain_find (rp_rinch rpath) rflt) (-1)) then
          Some "i"%char
        else if negb (Z.eqb (rfs_chain_find (rp_rexch rpath) rflt) (-1)) then
          Some "e"%char
        else None in
      match type with
      | None => get_info_loop ns n rflt l' page buf size len
      | Some type =>
          match redirfs_get_filename ns n (rp_mnt rpath) (rp_dentry rpath)
                  page PAGE_SIZE return @M W (run (Z * list ascii)) with
          | Done (rv, page) =>
              if negb (Z.eqb rv 0) then ret (Done (rv, buf))
              else
                match c_string page with
                | None => ret Crash
                | Some name =>
                    match snprintf_at buf len (size - len)
                            (info_text type (rp_id rpath) name) with
                    | None => ret Crash
                    | Some (buf, written) =>
                        let len := wrap_int (len + (written + 1)) in
                        if Z.leb size len then ret (Done (size, buf))
                        else get_info_loop ns n rflt l' page buf size len
                    end
                end
          | Crash => ret Crash
          | Cut => ret Cut
          end
      end
  end.

(** [n] bounds the steps of each walk of redirfs_get_filename. *)
Definition rfs_path_get_info (ns : namespace) (n : nat) (rflt : rfs_flt)
    (buf : list ascii) (size : Z) : M (run (Z * list ascii)) :=
  let* ok := alloc in
  if ok : bool then
    let* l := gets rfs_path_list in
    get_info_loop ns n rflt l (replicate (Z.to_nat PAGE_SIZE) zero) buf size 0
  else ret (Done ((- ENOMEM)%Z, buf)).

End Info.

(** ** A host modelled from the spec

    Modelled from the spec: the RootAggregate (rfs_root.c is not part of
    the sources) groups the paths registered on one entry, keeps a
    merged include chain and a merged exclude chain for the whole root
    and the list of its paths.  A root is found or created per entry;
    here the root of an entry carries the entry's number.  The caches
    are two tables; [script] holds the results of the coming fallible
    calls and [allocs] the outcomes of the coming allocations (success
    once exhausted). *)
Module SpecHost.

Record world_t : Type := mk_world {
  roots : gmap nat rfs_root_obj;
  inodes : list (inode * rfs_info);
  dentries : list (dentry * rfs_info);
  script : list Z;
  allocs : list bool
}.

Definition empty_world : world_t := mk_world ∅ [] [] [] [].

Definition lookup_root (w : world_t) (r : rfs_root) : rfs_root_obj :=
  default (mk_root r (mk_info None (Some r)) None None [] 0) (roots w !! r).

Fixpoint assoc {A} (l : list (nat * A)) (k : nat) : option A :=
  match l with
  | [] => None
  | (k', v) :: l' => if Nat.eqb k' k then Some v else assoc l' k
  end.

Definition set_roots (w : world_t) (m : gmap nat rfs_root_obj) : world_t :=
  mk_world m (inodes w) (dentries w) (script w) (allocs w).

Definition upd_root (w : world_t) (r : rfs_root)
    (g : rfs_root_obj -> rfs_root_obj) : world_t :=
  set_roots w (<[r := g (lookup_root w r)]> (roots w)).

Definition pop_script (w : world_t) : Z * world_t :=
  match script w with
  | [] => (0%Z, w)
  | rv :: l => (rv, mk_world (roots w) (inodes w) (dentries w) l (allocs w))
  end.

Definition pop_alloc (w : world_t) : bool * world_t :=
  match allocs w with
  | [] => (true, w)
  | ok :: l => (ok, mk_world (roots w) (inodes w) (dentries w) (script w) l)
  end.

Definition chain_merge (c : rfs_chain) (f : rfs_flt) : rfs_chain :=
  if Z.eqb (rfs_chain_find c f) (-1) then Some (chain_list c ++ [f]) else c.

Definition chain_drop (c : rfs_chain) (f : rfs_flt) : rfs_chain :=
  chain_of_list (flt_remove (chain_list c) f).


Fixpoint assoc_del {A} (l : list (nat * A)) (k : nat) : list (nat * A) :=
  match l with
  | [] => []
  | (k', v) :: l' => if Nat.eqb k' k then assoc_del l' k else (k', v) :: assoc_del l' k
  end.

(** The record of an entry holds the chain in force at the entry; an
    entry without a chain has no record. *)
Definition set_dentry (w : world_t) (d : dentry) (ri : rfs_info) : world_t :=
  mk_world (roots w) (inodes w)
    (if chain_null (ri_rchain ri) then assoc_del (dentries w) d
     else (d, ri) :: assoc_del (dentries w) d)
    (script w) (allocs w).

(** The resolved chain of a root is the chain in force at the entry of
    the root. *)
Definition resolve_root (w : world_t) (r : rfs_root) : world_t :=
  set_dentry w (rr_dentry (lookup_root w r)) (rr_rinfo (lookup_root w r)).

Definition fallible (w : world_t) (k : world_t -> world_t) : Z * world_t :=
  let (rv, w') := pop_script w in
  if Z.eqb rv 0 then (0%Z, k w') else (rv, w').

Definition run_call (c : call) (w : world_t) : Z * world_t :=
  match c with
  | RootAddRpath r a =>
      (0%Z, upd_root w r (fun o =>
         mk_root (rr_dentry o) (rr_rinfo o) (rr_rinch o) (rr_rexch o)
                 (rr_rpaths o ++ [a]) (rr_paths_nr o + 1)))
  | RootRemRpath r a =>
      (0%Z, upd_root w r (fun o =>
         mk_root (rr_dentry o) (rr_rinfo o) (rr_rinch o) (rr_rexch o)
                 (filter (fun b => b ≠ a) (rr_rpaths o)) (rr_paths_nr o - 1)))
  | RootPut _ => (0%Z, w)
  | RootAddInclude (Some r) f =>
      fallible w (fun w => resolve_root (upd_root w r (fun o =>
         mk_root (rr_dentry o)
                 (mk_info (chain_merge (ri_rchain (rr_rinfo o)) f) (ri_rroot (rr_rinfo o)))
                 (chain_merge (rr_rinch o) f)
                 (rr_rexch o) (rr_rpaths o) (rr_paths_nr o))) r)
  | RootAddExclude (Some r) f =>
      fallible w (fun w => upd_root w r (fun o =>
         mk_root (rr_dentry o) (rr_rinfo o) (rr_rinch o)
                 (chain_merge (rr_rexch o) f) (rr_rpaths o) (rr_paths_nr o)))
  | RootRemInclude (Some r) f =>
      fallible w (fun w => resolve_root (upd_root w r (fun o =>
         mk_root (rr_dentry o)
                 (mk_info (chain_drop (ri_rchain (rr_rinfo o)) f) (ri_rroot (rr_rinfo o)))
                 (chain_drop (rr_rinch o) f)
                 (rr_rexch o) (rr_rpaths o) (rr_paths_nr o))) r)
  | RootRemExclude (Some r) f =>
      fallible w (fun w => upd_root w r (fun o =>
         mk_root (rr_dentry o) (rr_rinfo o) (rr_rinch o)
                 (chain_drop (rr_rexch o) f) (rr_rpaths o) (rr_paths_nr o)))
  | RootRemFlt r f =>
      fallible w (fun w => resolve_root (upd_root w r (fun o =>
         mk_root (rr_dentry o)
                 (mk_info (chain_drop (ri_rchain (rr_rinfo o)) f) (ri_rroot (rr_rinfo o)))
                 (rr_rinch o) (rr_rexch o) (rr_rpaths o) (rr_paths_nr o))) r)
  | RootAddFlt r f =>
      fallible w (fun w => resolve_root (upd_root w r (fun o =>
         mk_root (rr_dentry o)
                 (mk_info (chain_merge (ri_rchain (rr_rinfo o)) f) (ri_rroot (rr_rinfo o)))
                 (rr_rinch o) (rr_rexch o) (rr_rpaths o) (rr_paths_nr o))) r)
  | InfoRem d ri _ | InfoAdd d ri _ | InfoSet d ri _ | InfoReset d ri =>
      fallible w (fun w => set_dentry w d ri)
  | _ => fallible w (fun w => w)
  end.

Definition run_root_add (d : dentry) (w : world_t) : (Z + rfs_root) * world_t :=
  let (rv, w') := pop_script w in
  if Z.eqb rv 0 then (inr d, upd_root w' d (fun o => o)) else (inl rv, w').

#[export] Instance spec_host : Host world_t := {|
  d_inode := fun d => d;
  s_root := fun _ => 0;
  kzalloc := pop_alloc;
  rfs_inode_find := fun w i => assoc (inodes w) i;
  rfs_dentry_find := fun w d => assoc (dentries w) d;
  root_obj := lookup_root;
  host_root_add := run_root_add;
  host_call := run_call
|}.

End SpecHost.

(** * Vocabulary of the properties *)

(** [rfs_chain_find(c, f) != -1], the membership test of the source. *)
Definition member (c : rfs_chain) (f : rfs_flt) : bool :=
  negb (Z.eqb (rfs_chain_find c f) (-1)).

Section Vocabulary.

Context {W : Type} `{HostW : Host W}.

Implicit Types (s : @state W) (a b : addr) (o : rfs_path) (f : rfs_flt).

(** The registry part of two states is the same: the collaborators'
    state and the trace may differ. *)
Definition reg_eq s s' : Prop :=
  heap s' = heap s /\ rfs_path_list s' = rfs_path_list s /\ flt_nr s' = flt_nr s.

(** A computation that leaves the registry alone. *)
Definition reg_pure {A} (m : @M W A) : Prop :=
  forall s r s', m s = Some (r, s') -> reg_eq s s'.

(** No registered path has the key ([mnt], [d]). *)
Definition no_path_for s (mnt : vfsmount) (d : dentry) : Prop :=
  forall a o, a ∈ rfs_path_list s -> heap s !! a = Some o ->
    ~ (rp_mnt o = mnt /\ rp_dentry o = d).

(** The chains that a successful rfs_chain_add and rfs_chain_rem
    return. *)
Definition add_flt (c : rfs_chain) f : rfs_chain := Some (chain_list c ++ [f]).

Definition rem_flt (c : rfs_chain) f : rfs_chain :=
  chain_of_list (flt_remove (chain_list c) f).

(** The counters after [paths_nr] of [f] was assigned [n]. *)
Definition nr_set s f (n : Z) : gmap nat Z := <[f := wrap_int n]> (flt_nr s).

(** The include chain or the exclude chain of the path holds [f]. *)
Definition cites o f : bool := member (rp_rinch o) f || member (rp_rexch o) f.

Definition cites_at (h : gmap positive rfs_path) a f : bool :=
  match h !! a with
  | Some o => cites o f
  | None => false
  end.

(** The registered paths that cite [f], in list order, and their number. *)
Definition citing_paths (h : gmap positive rfs_path) (l : list addr) f : list addr :=
  filter (fun a => cites_at h a f = true) l.

Definition citing (h : gmap positive rfs_path) (l : list addr) f : nat :=
  length (citing_paths h l f).

(** No chain holds a filter twice, and no filter is in both chains. *)
Definition path_ok o : Prop :=
  NoDup (chain_list (rp_rinch o)) /\ NoDup (chain_list (rp_rexch o)) /\
  forall f, ~ (f ∈ chain_list (rp_rinch o) /\ f ∈ chain_list (rp_rexch o)).

(** The invariant of heap, registry list and filter counters that holds
    at every point of a registration: the list has no address twice and
    at most [INT_MAX] entries; listed objects are alive; live objects
    are well formed with a positive count; listed paths have distinct
    (mount, entry) keys; an object off the list has empty chains and no
    root; the counter of a filter is the number of listed paths citing
    it. *)
Record base_inv (h : gmap positive rfs_path) (l : list addr)
    (n : gmap nat Z) : Prop := mk_base_inv {
  bi_nodup : NoDup l;
  bi_bound : (Z.of_nat (length l) <= INT_MAX)%Z;
  bi_live : forall a, a ∈ l -> is_Some (h !! a);
  bi_ok : forall a o, h !! a = Some o -> path_ok o /\ (0 < rp_count o)%Z;
  bi_keys : forall a b oa ob, a ∈ l -> b ∈ l ->
    h !! a = Some oa -> h !! b = Some ob ->
    rp_mnt oa = rp_mnt ob -> rp_dentry oa = rp_dentry ob -> a = b;
  bi_unlisted : forall a o, h !! a = Some o -> a ∉ l ->
    rp_rinch o = None /\ rp_rexch o = None /\ rp_rroot o = None;
  bi_nr : forall f, default 0%Z (n !! f) = Z.of_nat (citing h l f)
}.

(** Between two calls, a listed path has a chain that is not NULL. *)
Definition listed_nonempty (h : gmap positive rfs_path) (l : list addr) : Prop :=
  forall a o, a ∈ l -> h !! a = Some o ->
    rp_rinch o <> None \/ rp_rexch o <> None.

Definition inv s : Prop :=
  base_inv (heap s) (rfs_path_list s) (flt_nr s) /\
  listed_nonempty (heap s) (rfs_path_list s).

(** Two versions of an object that differ at most in id and count. *)
Definition same_view o o' : Prop :=
  rp_mnt o' = rp_mnt o /\ rp_dentry o' = rp_dentry o /\
  rp_rinch o' = rp_rinch o /\ rp_rexch o' = rp_rexch o /\
  rp_rroot o' = rp_rroot o.

(** [o'] is [o] after [f] was appended to one of its chains, and after
    [f] was removed from the chain that holds it. *)
Definition chain_added o o' f : Prop :=
  o' = set_rinch o (add_flt (rp_rinch o) f) \/
  o' = set_rexch o (add_flt (rp_rexch o) f).

Definition chain_removed o o' f : Prop :=
  (member (rp_rinch o) f = true /\ o' = set_rinch o (rem_flt (rp_rinch o) f)) \/
  (member (rp_rinch o) f = false /\ member (rp_rexch o) f = true /\
   o' = set_rexch o (rem_flt (rp_rexch o) f)).

(** A [struct redirfs_path_info] with mount and entry set. *)
Definition add_info (mnt : vfsmount) (d : dentry) (flags : Z) :
    option redirfs_path_info :=
  Some (mk_path_info (Some d) (Some mnt) flags).

(** A release that does not free an object still on the list: the
    caller releases a reference it holds, not one of the registry's. *)
Definition may_put s (p : ptr) : Prop :=
  forall a o, p = PTR a -> a ∈ rfs_path_list s -> heap s !! a = Some o ->
    (1 < rp_count o)%Z.

(** Every listed address of [l] carries a reference beyond the
    registry's. *)
Definition held s (l : list addr) : Prop :=
  forall a, a ∈ l -> may_put s (PTR a).

(** The registry before any registration, over any state of the
    collaborators. *)
Definition init_state (w : W) : @state W := mk_state ∅ [] ∅ w [].

(** One call of the public interface.  A new path is only created
    while the registry holds fewer than [INT_MAX] paths; a caller only
    releases a reference it holds ([may_put]).  redirfs_put_paths is
    redirfs_put_path on each entry of the array. *)
Inductive step : @state W -> @state W -> Prop :=
| step_add_path filter info r s s' :
    (Z.of_nat (length (rfs_path_list s)) < INT_MAX)%Z ->
    redirfs_add_path filter info s = Some (r, s') -> step s s'
| step_rem_path filter path rv s s' :
    redirfs_rem_path filter path s = Some (rv, s') -> step s s'
| step_rem_paths filter rv s s' :
    redirfs_rem_paths filter s = Some (rv, s') -> step s s'
| step_get_path path r s s' :
    redirfs_get_path path s = Some (r, s') -> step s s'
| step_put_path path u s s' :
    may_put s path ->
    redirfs_put_path path s = Some (u, s') -> step s s'
| step_get_path_id i r s s' :
    redirfs_get_path_id i s = Some (r, s') -> step s s'
| step_get_paths filter r s s' :
    redirfs_get_paths filter s = Some (r, s') -> step s s'
| step_get_paths_root filter root r s s' :
    redirfs_get_paths_root filter root s = Some (r, s') -> step s s'
| step_fsrename od oe nd ne rv s s' :
    rfs_fsrename od oe nd ne s = Some (rv, s') -> step s s'.

Definition reachable (s : @state W) : Prop :=
  exists w, rtc step (init_state w) s.

(** The calls of the remove phase, of the set phase and of the add
    phase. *)
Definition is_detach (c : call) : bool :=
  match c with
  | RootRemFlt _ _ | RootWalk cb_rem_flt _ | InfoRem _ _ _ => true
  | _ => false
  end.

Definition is_set (c : call) : bool :=
  match c with
  | InfoSet _ _ _ => true
  | _ => false
  end.

Definition is_attach (c : call) : bool :=
  match c with
  | RootAddFlt _ _ | RootWalk cb_add_flt _ | InfoAdd _ _ _ | InfoReset _ _ => true
  | _ => false
  end.

(** The filters detached, in order: one per rfs_root_rem_flt or
    rfs_info_rem call. *)
Fixpoint detached (t : list call) : list rfs_flt :=
  match t with
  | [] => []
  | RootRemFlt _ f :: t' => f :: detached t'
  | InfoRem _ _ f :: t' => f :: detached t'
  | _ :: t' => detached t'
  end.

(** The filters attached, in order: one per rfs_root_add_flt or
    rfs_info_add call. *)
Fixpoint attached (t : list call) : list rfs_flt :=
  match t with
  | [] => []
  | RootAddFlt _ f :: t' => f :: attached t'
  | InfoAdd _ _ f :: t' => f :: attached t'
  | _ :: t' => attached t'
  end.

(** [rroot->rinfo->rchain] as a list. *)
Definition rchain_of (w : W) (r : rfs_root) : list rfs_flt :=
  chain_list (ri_rchain (rr_rinfo (root_obj w r))).

(** The filters the remove phase has to detach: the chain of the source
    root without the filters of the destination root. *)
Definition rem_filters (w : W) (src dst : option rfs_root) : list rfs_flt :=
  match src, dst with
  | None, _ => []
  | Some r, None => rchain_of w r
  | Some r, Some r' => flt_diff (rchain_of w r) (rchain_of w r')
  end.

(** The filters the add phase has to attach: the chain of the
    destination root without the filters of the source root. *)
Definition add_filters (w : W) (src dst : option rfs_root) : list rfs_flt :=
  match dst, src with
  | None, _ => []
  | Some r', None => rchain_of w r'
  | Some r', Some r => flt_diff (rchain_of w r') (rchain_of w r)
  end.

(** The calls the set phase has to make at the moved entry [d]: none
    unless both roots exist, the entry is not the entry of the source
    root and the entry has a record; else one rfs_info_set per filter
    of the chain of that record that the chain of the destination root
    holds too, in the order of the record's chain, each with a record
    pairing the destination root with the chain of the entry. *)
Definition set_calls (w : W) (src dst : option rfs_root) (d : dentry) : list call :=
  match src, dst with
  | Some r, Some r' =>
      if Nat.eqb (rr_dentry (root_obj w r)) d then []
      else
        match rfs_dentry_find w d with
        | None => []
        | Some rd =>
            (fun f => InfoSet d (mk_info (ri_rchain rd) (Some r')) f) <$>
              filter (fun f => member (ri_rchain (rr_rinfo (root_obj w r'))) f = true)
                     (chain_list (ri_rchain rd))
        end
  | _, _ => []
  end.

(** The set phase reads through the chain of the record of the moved
    entry: it faults where the phase gets as far as that record and the
    record carries no chain. *)
Definition set_faults (w : W) (src dst : option rfs_root) (d : dentry) : bool :=
  match src, dst with
  | Some r, Some _ =>
      negb (Nat.eqb (rr_dentry (root_obj w r)) d) &&
      match rfs_dentry_find w d with
      | Some rd => chain_null (ri_rchain rd)
      | None => false
      end
  | _, _ => false
  end.

(** A computation that returns on every state. *)
Definition returns {A} (m : @M W A) : Prop := forall s, is_Some (m s).

(** The root of the cache record of the moved entry. *)
Definition entry_root (w : W) (d : dentry) : option rfs_root :=
  match rfs_dentry_find w d with
  | Some rd => chain_root rd
  | None => None
  end.

(** The root of the identity-cache record of a parent directory, read
    the way rfs_fsrename reads the record of the new parent. *)
Definition parent_root (w : W) (dir : inode) : option rfs_root :=
  match rfs_inode_find w dir with
  | Some ri => chain_root ri
  | None => None
  end.

(** A run that appends the calls [t] to the trace. *)
Definition appends s s' (t : list call) : Prop := trace s' = trace s ++ t.

(** The outcome of a phase over the filters [l]: the calls made are of
    the class [cls], the filters handled are a prefix of [l], and all
    of [l] when the phase succeeds. *)
Definition phase_ok (cls : call -> bool) (done_of : list call -> list rfs_flt)
    (l : list rfs_flt) (rv : Z) (t : list call) : Prop :=
  Forall (fun c => cls c = true) t /\
  done_of t `prefix_of` l /\
  (rv = 0%Z -> done_of t = l).

(** A chain pointer that is set points to a chain with a filter: no
    path object carries a chain without filters. *)
Definition chains_set (h : gmap positive rfs_path) : Prop :=
  forall a o, h !! a = Some o -> rp_rinch o <> Some [] /\ rp_rexch o <> Some [].

(** The object at [b] after every path of [paths] got [delta] more
    references. *)
Definition with_refs (paths : list addr) (delta : Z) b o : rfs_path :=
  if decide (b ∈ paths) then set_count o (rp_count o + delta) else o.

(** The ids of the paths of [l], in the order of [l]. *)
Definition path_ids (h : gmap positive rfs_path) (l : list addr) : list Z :=
  omap (fun a => rp_id <$> h !! a) l.

End Vocabulary.

(** The records that rfs_path_get_info writes for the paths of [l]: for
    every path that cites the filter, [i] or [e] for the chain that
    holds the filter, the id and the file name, which the walk of at
    most [n] steps finds and which fits into a page. *)
Inductive info_records (ns : namespace) (n : nat) (f : rfs_flt)
    (h : gmap positive rfs_path) : list addr -> list (list ascii) -> Prop :=
| records_nil : info_records ns n f h [] []
| records_skip a o l recs :
    h !! a = Some o -> cites o f = false ->
    info_records ns n f h l recs ->
    info_records ns n f h (a :: l) recs
| records_cons a o l recs names k :
    h !! a = Some o -> cites o f = true ->
    components ns (rp_mnt o) (rp_dentry o) names k -> (k <= n)%nat ->
    Forall (fun nm => zero ∉ nm) names ->
    (Z.of_nat (length (path_of names)) + 1 <= PAGE_SIZE)%Z ->
    info_records ns n f h l recs ->
    info_records ns n f h (a :: l)
      (info_text (if member (rp_rinch o) f then "i"%char else "e"%char)
         (rp_id o) (path_of names) :: recs).

(** Every record followed by its terminator. *)
Fixpoint join_records (recs : list (list ascii)) : list ascii :=
  match recs with
  | [] => []
  | r :: recs => r ++ zero :: join_records recs
  end.

(** ** States and runs on the host modelled from the spec *)

Import SpecHost.

(** The empty registry over the empty host. *)
Definition s0 : @state world_t := init_state empty_world.

(** redirfs_add_path in mode Include. *)
Definition include (f : rfs_flt) (mnt : vfsmount) (d : dentry) : @M world_t ptr :=
  redirfs_add_path (Some f) (add_info mnt d REDIRFS_PATH_INCLUDE).

(** Two paths registered, the first removed, a third registered: the
    registry list then carries the ids 1 and 0, in this order. *)
Definition ids_1_0 : @M world_t (ptr * ptr) :=
  let* p1 := include 7 1 10 in
  let* p2 := include 7 1 11 in
  let* _ := redirfs_rem_path (Some 7) p1 in
  let* p3 := include 7 1 12 in
  ret (p2, p3).

(** The ids of the registered paths, in list order. *)
Definition ids_of (s : @state world_t) : list (option Z) :=
  map (fun a => rp_id <$> heap s !! a) (rfs_path_list s).

(** The include chain and the exclude chain of a path object. *)
Definition chains_of (p : ptr) : @M world_t (option (list nat) * option (list nat)) :=
  match p with
  | PTR a => let* o := deref a in ret (rp_rinch o, rp_rexch o)
  | _ => fault
  end.

(** The ids on the list, the result of rfs_path_get_id there, the id
    given to a fourth path, and the ids on the list afterwards. *)
Definition get_id_scenario : @M world_t (list (option Z) * Z * Z * list (option Z)) :=
  let* _ := ids_1_0 in
  let* ids := gets ids_of in
  let* i := rfs_path_get_id in
  let* p4 := include 7 1 13 in
  let* i4 := redirfs_get_id_path p4 in
  let* ids' := gets ids_of in
  ret (ids, i, i4, ids').

(** A fourth path registered and removed again, then looked up by the
    id it had. *)
Definition round_trip_scenario
    : @M world_t (ptr * Z * Z * (option (list nat) * option (list nat)) * list addr * ptr) :=
  let* _ := ids_1_0 in
  let* p4 := include 7 1 13 in
  let* i4 := redirfs_get_id_path p4 in
  let* rv := redirfs_rem_path (Some 7) p4 in
  let* cs := chains_of p4 in
  let* l := gets rfs_path_list in
  let* q := redirfs_get_path_id i4 in
  ret (p4, i4, rv, cs, l, q).

(** Filter 7 on one mount of entry 10 and filter 8 on another mount of
    it, then the paths of filter 7 under the root of entry 10. *)
Definition paths_root_scenario
    : @M world_t ((Z + list addr) * (option (list nat) * option (list nat))) :=
  let* _ := include 7 1 10 in
  let* p2 := include 8 2 10 in
  let* r := redirfs_get_paths_root (Some 7) (Some 10) in
  let* cs := chains_of p2 in
  ret (r, cs).

(** The records of two parent directories, neither carrying a chain. *)
Definition w_dirs : world_t :=
  mk_world ∅ [(1, mk_info None None); (2, mk_info None None)] [] [] [].

(** Filter 7 registered on entry 5, whose parent directory 1 carries
    no chain. *)
Definition registered_entry : option (ptr * @state world_t) :=
  include 7 1 5 (init_state w_dirs).

(** The state after filter 7 was registered as Exclude on (1, 10). *)
Definition s_excl : @state world_t :=
  Eval vm_compute in
    match redirfs_add_path (Some 7) (add_info 1 10 REDIRFS_PATH_EXCLUDE) s0 with
    | Some (_, s) => s
    | None => s0
    end.

(** The path object of that registration. *)
Definition o_excl : rfs_path := mk_path 0 1 10 None (Some [7]) (Some 10) 3.

(** A host on which rfs_root_add and the walk of the first registration
    succeed and rfs_root_add_include fails with -ENOMEM. *)
Definition s_fail : @state world_t :=
  init_state (mk_world ∅ [] [] [0%Z; 0%Z; (-12)%Z] []).

(** The state after the failed registration. *)
Definition s_failed : @state world_t :=
  Eval vm_compute in
    match redirfs_add_path (Some 7) (add_info 1 10 REDIRFS_PATH_INCLUDE) s_fail with
    | Some (_, s) => s
    | None => s_fail
    end.

(** Entry 5 under root 4 (chain [7]) moves below a parent under root 9
    (chain [8]). *)
Definition w_move : world_t :=
  mk_world
    (<[4 := mk_root 4 (mk_info (Some [7]) (Some 4)) (Some [7]) None [] 0]>
       (<[9 := mk_root 9 (mk_info (Some [8]) (Some 9)) (Some [8]) None [] 0]> ∅))
    [(2, mk_info (Some [8]) (Some 9))]
    [(5, mk_info (Some [7]) (Some 4))]
    [] [].

Definition s_move : @state world_t := init_state w_move.

(** The state after the rename of entry 5 from parent 1 to parent 2. *)
Definition s_moved : @state world_t :=
  Eval vm_compute in
    match rfs_fsrename 1 5 2 6 s_move with
    | Some (_, s) => s
    | None => s_move
    end.

(** The record of the new parent. *)
Definition ri_move : rfs_info := mk_info (Some [8]) (Some 9).

(** Entry 5 under root 4 (chain [7; 8]) moves below a parent under
    root 9 (chain [8; 9]): filter 8 is in force on both sides. *)
Definition w_shared : world_t :=
  mk_world
    (<[4 := mk_root 4 (mk_info (Some [7; 8]) (Some 4)) (Some [7; 8]) None [] 0]>
       (<[9 := mk_root 9 (mk_info (Some [8; 9]) (Some 9)) (Some [8; 9]) None [] 0]> ∅))
    [(2, mk_info (Some [8; 9]) (Some 9))]
    [(5, mk_info (Some [7; 8]) (Some 4))]
    [] [].

Definition s_shared : @state world_t := init_state w_shared.

Definition s_shared_moved : @state world_t :=
  Eval vm_compute in
    match rfs_fsrename 1 5 2 6 s_shared with
    | Some (_, s) => s
    | None => s_shared
    end.

Definition ri_shared : rfs_info := mk_info (Some [8; 9]) (Some 9).

(** Entry 5 lies below parent 1, which is under root 4 (chain [7]), and
    is a root of its own (chain [7; 8]: filter 8 is registered on the
    entry); it moves below parent 2, which carries no chain. *)
Definition w_cross : world_t :=
  mk_world
    (<[4 := mk_root 4 (mk_info (Some [7]) (Some 4)) (Some [7]) None [] 0]>
       (<[5 := mk_root 5 (mk_info (Some [7; 8]) (Some 5)) (Some [8]) None [] 0]> ∅))
    [(1, mk_info (Some [7]) (Some 4)); (2, mk_info None None)]
    [(5, mk_info (Some [7; 8]) (Some 5))]
    [] [].

Definition s_cross : @state world_t := init_state w_cross.

Definition s_cross_moved : @state world_t :=
  Eval vm_compute in
    match rfs_fsrename 1 5 2 6 s_cross with
    | Some (_, s) => s
    | None => s_cross
    end.

(** The state after redirfs_add_path with the mode value 3 on the empty
    registry. *)
Definition s_unknown : @state world_t :=
  Eval vm_compute in
    match redirfs_add_path (Some 7) (add_info 1 10 3) s0 with
    | Some (_, s) => s
    | None => s0
    end.

(** The state after filter 7 was removed again from the path of
    [s_excl]. *)
Definition s_rem : @state world_t :=
  Eval vm_compute in
    match redirfs_rem_path (Some 7) (PTR 1) s_excl with
    | Some (_, s) => s
    | None => s_excl
    end.

(** The state after redirfs_get_paths for filter 7 on [s_excl]. *)
Definition s_got : @state world_t :=
  Eval vm_compute in
    match redirfs_get_paths (Some 7) s_excl with
    | Some (_, s) => s
    | None => s_excl
    end.

(** The state after redirfs_rem_paths for filter 7 on [s_excl]. *)
Definition s_cleared : @state world_t :=
  Eval vm_compute in
    match redirfs_rem_paths (Some 7) s_excl with
    | Some (_, s) => s
    | None => s_excl
    end.

(** Filter 7 on one mount of entry 10 and filter 8 on another mount of
    it, and the state after the paths of filter 7 under the root of
    entry 10 were asked for. *)
Definition s_two : @state world_t :=
  Eval vm_compute in
    match (let* _ := include 7 1 10 in include 8 2 10) s0 with
    | Some (_, s) => s
    | None => s0
    end.

Definition s_two_listed : @state world_t :=
  Eval vm_compute in
    match redirfs_get_paths_root (Some 7) (Some 10) s_two with
    | Some (_, s) => s
    | None => s_two
    end.

(** Entry 5 under root 4 (chain [7]) moves below a parent under no
    root. *)
Definition w_out : world_t :=
  mk_world
    (<[4 := mk_root 4 (mk_info (Some [7]) (Some 4)) (Some [7]) None [] 0]> ∅)
    [(2, mk_info None None)]
    [(5, mk_info (Some [7]) (Some 4))]
    [] [].

Definition s_out : @state world_t := init_state w_out.

Definition s_left : @state world_t :=
  Eval vm_compute in
    match rfs_fsrename 1 5 2 6 s_out with
    | Some (_, s) => s
    | None => s_out
    end.

(** Entry 5 under no root moves below a parent under root 9
    (chain [8]). *)
Definition w_in : world_t :=
  mk_world
    (<[9 := mk_root 9 (mk_info (Some [8]) (Some 9)) (Some [8]) None [] 0]> ∅)
    [(2, mk_info (Some [8]) (Some 9))]
    [] [] [].

Definition s_in : @state world_t := init_state w_in.

Definition s_entered : @state world_t :=
  Eval vm_compute in
    match rfs_fsrename 1 5 2 6 s_in with
    | Some (_, s) => s
    | None => s_in
    end.

(** A name space of two mounts: mount 0 with the entries 0 (its root),
    1 (usr, below 0) and 2 (bin, below 1); mount 1, which sits on entry
    2, with the entries 3 (its root) and 4 (ls, below 3). *)
Definition ns_two_mounts : namespace :=
  mk_namespace
    (fun d => match d with
              | 1 => 0
              | 2 => 1
              | 4 => 3
              | _ => d
              end)
    (fun d => match d with
              | 1 => String.list_ascii_of_string "usr"
              | 2 => String.list_ascii_of_string "bin"
              | 4 => String.list_ascii_of_string "ls"
              | _ => []
              end)
    (fun mnt => match mnt with
                | 0 => 0
                | _ => 3
                end)
    (fun mnt _ => match mnt with
                  | 0 => None
                  | _ => Some (0, 2)
                  end).

(** The components of entry 4 of mount 1. *)
Definition names_ls : list (list ascii) :=
  [String.list_ascii_of_string "usr"; String.list_ascii_of_string "bin";
   String.list_ascii_of_string "ls"].

(** A buffer of [n] bytes. *)
Definition blank (n : nat) : list ascii := replicate n "."%char.

(** A name space of one mount whose root is entry 0, with entry 10
    (data) below the root. *)
Definition ns_data : namespace :=
  mk_namespace
    (fun _ => 0)
    (fun d => match d with
              | 10 => String.list_ascii_of_string "data"
              | _ => []
              end)
    (fun _ => 0)
    (fun _ _ => None).

(** The record of the path of [s_excl]. *)
Definition recs_excl : list (list ascii) :=
  [info_text "e"%char 0 (path_of [String.list_ascii_of_string "data"])].

(** The state after the page of rfs_path_get_info was allocated on
    [s_excl]. *)
Definition s_excl_page : @state world_t :=
  set_world s_excl (kzalloc (world s_excl)).2.

(** Filter 8 registered as Exclude on the path of [s_excl], then
    withdrawn from it, then the returned reference released. *)
Definition s_second : @state world_t :=
  Eval vm_compute in
    match redirfs_add_path (Some 8) (add_info 1 10 REDIRFS_PATH_EXCLUDE) s_excl with
    | Some (_, s) => s
    | None => s_excl
    end.

Definition s_second_rem : @state world_t :=
  Eval vm_compute in
    match redirfs_rem_path (Some 8) (PTR 1) s_second with
    | Some (_, s) => s
    | None => s_second
    end.

Definition s_second_put : @state world_t :=
  Eval vm_compute in
    match redirfs_put_path (PTR 1) s_second_rem with
    | Some (_, s) => s
    | None => s_second_rem
    end.

(** * Properties *)

(** ** Filter chains *)

Lemma flt_index_range l f i :
  (0 <= i)%Z -> flt_index l f i = (-1)%Z \/ (i <= flt_index l f i)%Z.
Proof.
  revert i. induction l as [|g l IH]; intros i Hi; simpl.
  - by left.
  - destruct (Nat.eqb g f); [right; lia|].
    destruct (IH (i + 1)%Z) as [->|?]; [lia|by left|right; lia].
Qed.

Lemma flt_index_absent l f i :
  (0 <= i)%Z -> flt_index l f i = (-1)%Z <-> f ∉ l.
Proof.
  revert i. induction l as [|g l IH]; intros i Hi; simpl.
  - split; [intros _; apply not_elem_of_nil|done].
  - destruct (Nat.eqb_spec g f) as [->|Hne].
    + split; [lia|]. intros []. by left.
    + rewrite IH by lia. rewrite not_elem_of_cons. naive_solver.
Qed.

Lemma member_spec c f : member c f = true <-> f ∈ chain_list c.
Proof.
  unfold member, rfs_chain_find. destruct c as [l|]; simpl.
  - destruct (Z.eqb_spec (flt_index l f 0) (-1)) as [E|E]; simpl.
    + apply flt_index_absent in E; [|lia]. naive_solver.
    + split; [intros _|done].
      destruct (decide (f ∈ l)) as [|Hn]; [done|].
      apply (flt_index_absent l f 0) in Hn; [done|lia].
  - split; [done|]. intros H. by apply elem_of_nil in H.
Qed.

Lemma member_false c f : member c f = false <-> f ∉ chain_list c.
Proof.
  rewrite <- member_spec. destruct (member c f); naive_solver.
Qed.

Lemma chain_list_of_list l : chain_list (chain_of_list l) = l.
Proof. by destruct l. Qed.

Lemma flt_remove_subset l f g : g ∈ flt_remove l f -> g ∈ l.
Proof.
  induction l as [|h l IH]; simpl; [done|].
  destruct (Nat.eqb h f).
  - intros. by right.
  - rewrite !elem_of_cons. naive_solver.
Qed.

Lemma flt_remove_other l f g : g ≠ f -> g ∈ l -> g ∈ flt_remove l f.
Proof.
  intros Hne. induction l as [|h l IH]; simpl; [done|].
  destruct (Nat.eqb_spec h f) as [->|Hhf].
  - rewrite elem_of_cons. naive_solver.
  - rewrite !elem_of_cons. naive_solver.
Qed.

Lemma flt_remove_NoDup l f : NoDup l -> NoDup (flt_remove l f).
Proof.
  induction 1 as [|h l Hh Hl IH]; simpl; [constructor|].
  destruct (Nat.eqb h f); [done|].
  constructor; [|done]. intros Hin. by apply flt_remove_subset in Hin.
Qed.

Lemma flt_remove_gone l f : NoDup l -> f ∉ flt_remove l f.
Proof.
  induction 1 as [|h l Hh Hl IH]; simpl; [apply not_elem_of_nil|].
  destruct (Nat.eqb_spec h f) as [->|Hhf]; [done|].
  rewrite not_elem_of_cons. naive_solver.
Qed.

Lemma flt_diff_spec a b g : g ∈ flt_diff a b <-> g ∈ a /\ g ∉ b.
Proof.
  induction a as [|h a IH]; simpl.
  - split; [intros H; by apply elem_of_nil in H|intros [H _]; by apply elem_of_nil in H].
  - destruct (Z.eqb_spec (flt_index b h 0) (-1)) as [E|E].
    + apply flt_index_absent in E; [|lia].
      rewrite !elem_of_cons, IH. naive_solver.
    + assert (h ∈ b) as Hb.
      { destruct (decide (h ∈ b)) as [|Hn]; [done|].
        apply (flt_index_absent b h 0) in Hn; [done|lia]. }
      rewrite IH, elem_of_cons. naive_solver.
Qed.

(** [flt_diff] keeps the order of its first argument. *)
Lemma flt_diff_sublist a b : sublist (flt_diff a b) a.
Proof.
  induction a as [|h a IH]; simpl; [constructor|].
  destruct (Z.eqb (flt_index b h 0) (-1)); by constructor.
Qed.

(** ** Running the monad *)

Lemma bind_Some {W A B} (m : @M W A) (k : A -> @M W B) s r :
  bind m k s = Some r <-> exists x s1, m s = Some (x, s1) /\ k x s1 = Some r.
Proof.
  unfold bind. destruct (m s) as [[x s1]|].
  - split; [eauto|]. by intros (? & ? & [= <- <-] & ?).
  - split; [done|]. by intros (? & ? & ? & ?).
Qed.

Lemma deref_Some {W} a (s : @state W) o s' :
  deref a s = Some (o, s') <-> heap s !! a = Some o /\ s' = s.
Proof.
  unfold deref. destruct (heap s !! a); naive_solver.
Qed.

(** One step of symbolic execution in hypothesis [H]. *)
Ltac mstep H :=
  lazymatch type of H with
  | bind _ _ _ = Some _ =>
      let x := fresh "x" in
      let s1 := fresh "s" in
      let E := fresh "E" in
      apply bind_Some in H; destruct H as (x & s1 & E & H)
  | deref _ _ = Some _ =>
      let Hd := fresh "Hd" in
      apply deref_Some in H; destruct H as [Hd ->]
  | ret _ _ = Some _ => unfold ret in H; simplify_eq
  | gets _ _ = Some _ => unfold gets in H; simplify_eq
  | modify _ _ = Some _ => unfold modify in H; simplify_eq
  | fault _ = Some _ => discriminate H
  | store _ _ _ = Some _ => unfold store, modify in H; simplify_eq
  | kfree _ _ = Some _ => unfold kfree, modify in H; simplify_eq
  end.

(** The same for a bind, naming the intermediate result, state and run. *)
Tactic Notation "mbind" hyp(H) "as" simple_intropattern(x) ident(s1) ident(E) :=
  apply bind_Some in H; destruct H as (x & s1 & E & H).

(** Run [update a g] then a counter update [m] then [ret 0] in [H]. *)
Ltac mcommit H unf :=
  let u := fresh "u" in
  let su := fresh "su" in
  let Eu := fresh "Eu" in
  let Hu := fresh "Hu" in
  mbind H as u su Eu; unfold update in Eu;
  apply bind_Some in Eu; destruct Eu as (? & ? & Hu & Eu);
  apply deref_Some in Hu; destruct Hu as [Hu ->];
  unfold store, modify in Eu; simplify_eq;
  apply bind_Some in H; destruct H as (? & ? & Eu & H);
  unfold unf, modify in Eu; simplify_eq;
  unfold ret in H; simplify_eq.

Section Proofs.

Context {W : Type} `{HostW : Host W}.

Implicit Types (s : @state W) (a b : addr) (o : rfs_path) (f : rfs_flt).

Local Abbreviation reg_pure := (@reg_pure W _).

(** ** What each function does to the registry *)

Lemma reg_eq_refl s : reg_eq s s.
Proof. done. Qed.

Lemma reg_eq_trans s1 s2 s3 : reg_eq s1 s2 -> reg_eq s2 s3 -> reg_eq s1 s3.
Proof. unfold reg_eq. intros (-> & -> & ->) (-> & -> & ->). done. Qed.

Lemma reg_pure_ret {A} (x : A) : reg_pure (ret x).
Proof. intros s r s' H. mstep H. done. Qed.

Lemma reg_pure_fault {A} : reg_pure (@fault W A).
Proof. intros s r s' H. mstep H. Qed.

Lemma reg_pure_gets {A} (g : @state W -> A) : reg_pure (gets g).
Proof. intros s r s' H. mstep H. done. Qed.

Lemma reg_pure_bind {A B} (m : @M W A) (k : A -> @M W B) :
  reg_pure m -> (forall x, reg_pure (k x)) -> reg_pure (bind m k).
Proof.
  intros Hm Hk s r s' H. mstep H.
  eapply reg_eq_trans; [by eapply Hm|by eapply Hk].
Qed.

Lemma reg_pure_alloc : reg_pure alloc.
Proof.
  intros s r s' H. unfold alloc in H.
  destruct (kzalloc (world s)). by simplify_eq.
Qed.

Lemma reg_pure_ext c : reg_pure (ext c).
Proof.
  intros s r s' H. unfold ext in H.
  destruct (host_call c (world s)). by simplify_eq.
Qed.

Lemma reg_pure_root_add d : reg_pure (rfs_root_add d).
Proof.
  intros s r s' H. unfold rfs_root_add in H.
  destruct (host_root_add d (world s)). by simplify_eq.
Qed.

Create HintDb reg.

Hint Resolve reg_pure_ret reg_pure_fault reg_pure_gets reg_pure_alloc
  reg_pure_ext reg_pure_root_add : reg.

(** Break a goal [reg_pure m] along the structure of [m]. *)
Ltac reg_pure_tac :=
  repeat first
    [ progress eauto with reg
    | apply reg_pure_bind; [|intros ?]
    | match goal with
      | |- reg_pure (if ?b then _ else _) => destruct b
      | |- reg_pure (match ?x with _ => _ end) => destruct x
      end ].

Lemma reg_pure_chain_add c f : reg_pure (rfs_chain_add c f).
Proof. unfold rfs_chain_add. reg_pure_tac. Qed.

Lemma reg_pure_chain_rem c f : reg_pure (rfs_chain_rem c f).
Proof. unfold rfs_chain_rem. reg_pure_tac. Qed.

Lemma reg_pure_chain_diff c c' : reg_pure (rfs_chain_diff c c').
Proof. unfold rfs_chain_diff. reg_pure_tac. Qed.

Lemma reg_pure_info_alloc r c : reg_pure (rfs_info_alloc r c).
Proof. unfold rfs_info_alloc. reg_pure_tac. Qed.

Lemma reg_pure_add_dirs d : reg_pure (rfs_path_add_dirs d).
Proof. unfold rfs_path_add_dirs. reg_pure_tac. Qed.

Hint Resolve reg_pure_chain_add reg_pure_chain_rem reg_pure_chain_diff
  reg_pure_info_alloc reg_pure_add_dirs : reg.

Lemma chain_add_result c f s r s' :
  rfs_chain_add c f s = Some (r, s') ->
  r = inl (- ENOMEM)%Z \/ r = inr (Some (chain_list c ++ [f])).
Proof.
  unfold rfs_chain_add. intros H. mstep H. destruct x; mstep H; auto.
Qed.

Lemma chain_rem_result c f s r s' :
  rfs_chain_rem c f s = Some (r, s') ->
  (exists e, r = inl e /\ e <> 0%Z) \/
  r = inr (chain_of_list (flt_remove (chain_list c) f)).
Proof.
  unfold rfs_chain_rem. intros H.
  destruct (Z.eqb _ _).
  - mstep H. left. by exists (- ENOENT)%Z.
  - mstep H. destruct x; mstep H; [by right|]. left. by exists (- ENOMEM)%Z.
Qed.

(** *** Reference counting *)

Lemma path_get_spec a s r s' :
  rfs_path_get (PTR a) s = Some (r, s') ->
  exists o, heap s !! a = Some o /\ rp_count o <> 0%Z /\ r = PTR a /\
    s' = set_heap s (<[a := set_count o (rp_count o + 1)]> (heap s)).
Proof.
  simpl. intros H. mstep H. mstep E.
  destruct (Z.eqb_spec (rp_count x) 0); [mstep H|].
  mstep H. mstep E. mstep H. eauto.
Qed.

Lemma path_put_spec a s r s' :
  rfs_path_put (PTR a) s = Some (r, s') ->
  exists o, heap s !! a = Some o /\ rp_count o <> 0%Z /\
    s' = set_heap s (if Z.eqb (rp_count o - 1) 0 then delete a (heap s)
                     else <[a := set_count o (rp_count o - 1)]> (heap s)).
Proof.
  simpl. intros H. mstep H. mstep E.
  destruct (Z.eqb_spec (rp_count x) 0); [mstep H|].
  exists x. split; [done|]. split; [done|].
  destruct (Z.eqb (rp_count x - 1) 0); by mstep H.
Qed.

Arguments rfs_path_get : simpl never.
Arguments rfs_path_put : simpl never.

(** *** Scans of the registry list *)

Lemma path_find_scan_spec l mnt d s r s' :
  path_find_scan l mnt d s = Some (r, s') ->
  (r = NULL /\ s' = s /\
   forall a o, a ∈ l -> heap s !! a = Some o ->
     ~ (rp_mnt o = mnt /\ rp_dentry o = d)) \/
  (exists a o, r = PTR a /\ a ∈ l /\ heap s !! a = Some o /\
     rp_mnt o = mnt /\ rp_dentry o = d /\ rp_count o <> 0%Z /\
     s' = set_heap s (<[a := set_count o (rp_count o + 1)]> (heap s))).
Proof.
  induction l as [|a l IH]; simpl; intros H.
  - mstep H. left. split; [done|]. split; [done|].
    intros a o Ha. by apply elem_of_nil in Ha.
  - mstep H. mstep E.
    destruct (Nat.eqb_spec (rp_mnt x) mnt) as [Em|Em]; simpl in H.
    + destruct (Nat.eqb_spec (rp_dentry x) d) as [Ed|Ed]; simpl in H.
      * right. apply path_get_spec in H as (o & Ho & Hc & -> & ->).
        simplify_eq. exists a, x. rewrite elem_of_cons. naive_solver.
      * destruct (IH H) as [(-> & -> & Hn)|(b & o & -> & Hb & ?)].
        -- left. split; [done|]. split; [done|].
           intros b o [->|Hb]%elem_of_cons Ho; [|by eapply Hn].
           simplify_eq. naive_solver.
        -- right. exists b, o. rewrite elem_of_cons. naive_solver.
    + destruct (IH H) as [(-> & -> & Hn)|(b & o & -> & Hb & ?)].
      * left. split; [done|]. split; [done|].
        intros b o [->|Hb]%elem_of_cons Ho; [|by eapply Hn].
        simplify_eq. naive_solver.
      * right. exists b, o. rewrite elem_of_cons. naive_solver.
Qed.

Lemma get_id_scan_state l i s r s' :
  get_id_scan l i s = Some (r, s') -> s' = s.
Proof.
  revert i. induction l as [|a l IH]; simpl; intros i H.
  - by mstep H.
  - mstep H. mstep E. destruct (Z.eqb _ _); eauto.
Qed.

Lemma path_get_id_state s r s' :
  rfs_path_get_id s = Some (r, s') ->
  s' = s /\ get_id_scan (rfs_path_list s) 0 s = Some (r, s).
Proof.
  unfold rfs_path_get_id. simpl. intros H. mstep H. mstep E.
  pose proof (get_id_scan_state _ _ _ _ _ H) as ->. done.
Qed.

(** *** Linking a path to its root and to the registry list *)

Lemma path_add_rroot_spec a o s rv s' :
  heap s !! a = Some o ->
  rfs_path_add_rroot a s = Some (rv, s') ->
  (rv <> 0%Z /\ reg_eq s s') \/
  (rv = 0%Z /\ rp_count o <> 0%Z /\ exists rroot,
     heap s' = <[a := set_rroot (set_count o (rp_count o + 1)) (Some rroot)]> (heap s) /\
     rfs_path_list s' = rfs_path_list s /\ flt_nr s' = flt_nr s).
Proof.
  intros Ho H. unfold rfs_path_add_rroot in H.
  mstep H. mstep E. mstep H.
  apply reg_pure_root_add in E as (Eh & El & En).
  destruct x0 as [e|rroot].
  - destruct (Z.eqb_spec e 0); mstep H. left. done.
  - right. mstep H. unfold rfs_root_add_rpath in E.
    mstep E. apply reg_pure_ext in E0 as (Eh' & El' & En').
    mstep E. apply path_get_spec in E0 as (o' & Ho' & Hc & _ & ->).
    mstep E. mstep H. unfold update in E. mstep E. mstep E0. mstep E.
    mstep H. simpl in *. rewrite lookup_insert_eq in Hd. simplify_eq.
    rewrite Eh', Eh in Ho'. simplify_eq.
    split; [done|]. split; [done|]. exists rroot.
    rewrite insert_insert_eq. rewrite Eh', Eh, El', El, En', En. done.
Qed.

Lemma path_rem_rroot_spec a o s r s' :
  heap s !! a = Some o ->
  rfs_path_rem_rroot a s = Some (r, s') ->
  rp_rroot o <> None /\ rp_count o <> 0%Z /\ rp_count o <> 1%Z /\
  heap s' = <[a := set_rroot (set_count o (rp_count o - 1)) None]> (heap s) /\
  rfs_path_list s' = rfs_path_list s /\ flt_nr s' = flt_nr s.
Proof.
  intros Ho H. unfold rfs_path_rem_rroot in H.
  mstep H. mstep E. simplify_eq. mstep H.
  unfold rfs_root_rem_rpath in E. destruct (rp_rroot o) as [rroot|] eqn:Er; [|mstep E].
  mstep E. apply reg_pure_ext in E0 as (Eh & El & En).
  apply path_put_spec in E as (o' & Ho' & Hc & ->).
  rewrite Eh, Ho in Ho'. simplify_eq.
  mstep H. apply reg_pure_ext in E as (Eh' & El' & En').
  unfold update in H. mstep H. mstep E. mstep H.
  simpl in *. rewrite Eh' in Hd. simpl in Hd.
  destruct (Z.eqb_spec (rp_count o' - 1) 0) as [Ez|Ez].
  - rewrite lookup_delete_eq in Hd. done.
  - rewrite lookup_insert_eq in Hd. simplify_eq.
    split; [done|]. split; [done|]. split; [lia|].
    rewrite Eh'. simpl. rewrite insert_insert_eq, Eh, El', El, En', En. done.
Qed.

Lemma path_list_add_spec a o s r s' :
  heap s !! a = Some o ->
  rfs_path_list_add a s = Some (r, s') ->
  rp_count o <> 0%Z /\
  heap s' = <[a := set_count o (rp_count o + 1)]> (heap s) /\
  rfs_path_list s' = rfs_path_list s ++ [a] /\ flt_nr s' = flt_nr s.
Proof.
  intros Ho H. unfold rfs_path_list_add in H.
  mstep H. mstep E. mstep H.
  apply path_get_spec in E as (o' & Ho' & Hc & _ & ->). mstep H.
  simpl in *. simplify_eq. done.
Qed.

Lemma path_list_rem_spec a o s r s' :
  heap s !! a = Some o ->
  rfs_path_list_rem a s = Some (r, s') ->
  rp_count o <> 0%Z /\
  heap s' = (if Z.eqb (rp_count o - 1) 0 then delete a (heap s)
             else <[a := set_count o (rp_count o - 1)]> (heap s)) /\
  rfs_path_list s' = list_del a (rfs_path_list s) /\ flt_nr s' = flt_nr s.
Proof.
  intros Ho H. unfold rfs_path_list_rem in H.
  mstep H. mstep E.
  apply path_put_spec in H as (o' & Ho' & Hc & ->).
  simpl in *. simplify_eq. done.
Qed.

(** *** rfs_path_add: find, or create and list *)

Lemma path_add_spec mnt d s r s' :
  rfs_path_add mnt d s = Some (r, s') ->
  (exists a o, r = PTR a /\ a ∈ rfs_path_list s /\ heap s !! a = Some o /\
     rp_mnt o = mnt /\ rp_dentry o = d /\ rp_count o <> 0%Z /\
     s' = set_heap s (<[a := set_count o (rp_count o + 1)]> (heap s))) \/
  (exists a i rroot, r = PTR a /\ no_path_for s mnt d /\
     heap s !! a = None /\
     get_id_scan (rfs_path_list s) 0 s = Some (i, s) /\
     heap s' = <[a := mk_path i mnt d None None (Some rroot) 3]> (heap s) /\
     rfs_path_list s' = rfs_path_list s ++ [a] /\ flt_nr s' = flt_nr s) \/
  (exists e, r = ERR e /\ IS_ERR_VALUE e || negb (Z.eqb e 0) = true /\
     no_path_for s mnt d /\ reg_eq s s').
Proof.
  intros H. unfold rfs_path_add in H. mstep H.
  unfold rfs_path_find in E. mstep E. mstep E0.
  apply path_find_scan_spec in E
    as [(-> & -> & Hn)|(a & o & -> & Ha & Ho & Hm & Hd & Hc & ->)].
  2:{ mstep H. left. eauto 10. }
  right. mstep H. apply path_get_id_state in E as [-> Hid].
  destruct (Z.ltb x 0).
  { mstep H. right. exists (- EBUSY)%Z. done. }
  mstep H. unfold rfs_path_alloc in E. mstep E.
  apply reg_pure_alloc in E0 as (Eh & El & En).
  destruct x1.
  2:{ mstep E. mstep H. right. exists (- ENOMEM)%Z. done. }
  mstep E. mstep E0. mstep E. mstep E0. mstep E.
  mstep H. unfold update in E. mstep E. mstep E0. mstep E.
  simpl in Hd. rewrite lookup_insert_eq in Hd. simplify_eq.
  mstep H. simpl in E.
  match type of E with
  | rfs_path_add_rroot ?a' _ = _ => set (a := a') in *
  end.
  match goal with
  | Hh : heap ?s2 = heap ?s1 |- _ =>
      assert (heap s1 !! a = None) as Hfresh
        by (rewrite <- Hh; apply not_elem_of_dom, is_fresh)
  end.
  eapply path_add_rroot_spec in E
    as [(Hrv & Eh' & El' & En')|(-> & Hc & rroot & Eh' & El' & En')];
    [| |simpl; apply lookup_insert_eq].
  - destruct (Z.eqb_spec x0 0) as [|_]; [done|]. simpl in H.
    mstep H. apply path_put_spec in E as (o & Ho & Hc & ->). mstep H.
    right. exists x0. split; [done|]. split.
    { apply orb_true_iff. right. by apply negb_true_iff, Z.eqb_neq. }
    split; [done|].
    rewrite Eh' in Ho. simpl in Ho. rewrite lookup_insert_eq in Ho. simplify_eq.
    unfold reg_eq. simpl. rewrite Eh', El', En'. simpl.
    rewrite !delete_insert_eq, Eh, El, En. rewrite delete_id by done. done.
  - simpl in *. mstep H.
    eapply path_list_add_spec in E as (Hc' & Eh'' & El'' & En'');
      [|rewrite Eh'; apply lookup_insert_eq].
    mstep H. left. exists a, x, rroot.
    split; [done|]. split; [done|]. split; [done|]. split; [done|].
    rewrite Eh'', Eh', El'', El', En'', En'. simpl.
    rewrite !insert_insert_eq, Eh, El, En. done.
Qed.

Lemma path_rem_spec a o s r s' :
  heap s !! a = Some o ->
  rfs_path_rem a s = Some (r, s') ->
  ((rp_rinch o <> None \/ rp_rexch o <> None) /\ s' = s) \/
  (rp_rinch o = None /\ rp_rexch o = None /\ rp_rroot o <> None /\
   rp_count o <> 0%Z /\ rp_count o <> 1%Z /\
   heap s' = (if Z.eqb (rp_count o - 1 - 1) 0 then delete a (heap s)
              else <[a := set_rroot (set_count o (rp_count o - 1 - 1)) None]> (heap s)) /\
   rfs_path_list s' = list_del a (rfs_path_list s) /\ flt_nr s' = flt_nr s).
Proof.
  intros Ho H. unfold rfs_path_rem in H. mstep H. mstep E. simplify_eq.
  destruct (rp_rinch o) as [ci|] eqn:Ei; simpl in H.
  { mstep H. left. split; [by left|done]. }
  destruct (rp_rexch o) as [ce|] eqn:Ee; simpl in H.
  { mstep H. left. split; [by right|done]. }
  right. mstep H.
  eapply path_rem_rroot_spec in E as (Hr & Hc0 & Hc1 & Eh & El & En); [|done].
  eapply path_list_rem_spec in H as (_ & Eh' & El' & En');
    [|rewrite Eh; apply lookup_insert_eq].
  simpl in *. do 5 (split; [done|]).
  rewrite Eh', El', En', El, En, Eh. split; [|done].
  destruct (Z.eqb (rp_count o - 1 - 1) 0).
  - by rewrite delete_insert_eq.
  - by rewrite insert_insert_eq.
Qed.

(** *** Registration and removal of a filter on one path *)

Lemma path_add_include_spec a o f s rv s' :
  heap s !! a = Some o ->
  rfs_path_add_include a f s = Some (rv, s') ->
  (rv = 0%Z /\ member (rp_rinch o) f = true /\ s' = s) \/
  (rv <> 0%Z /\ reg_eq s s') \/
  (rv = 0%Z /\ member (rp_rinch o) f = false /\ member (rp_rexch o) f = false /\
   heap s' = <[a := set_rinch o (add_flt (rp_rinch o) f)]> (heap s) /\
   rfs_path_list s' = rfs_path_list s /\
   flt_nr s' = nr_set s f (paths_nr s f + 1)).
Proof.
  intros Ho H. unfold rfs_path_add_include in H. mstep H. mstep E. simplify_eq.
  fold (member (rp_rinch o) f) in H. fold (member (rp_rexch o) f) in H.
  destruct (member (rp_rinch o) f) eqn:Mi.
  { mstep H. by left. }
  right. destruct (member (rp_rexch o) f) eqn:Me.
  { mstep H. by left. }
  mstep H. apply reg_pure_add_dirs in E as R1.
  destruct (Z.eqb_spec x 0) as [->|Hx]; simpl in H.
  2:{ mstep H. by left. }
  mstep H. apply reg_pure_chain_add in E0 as R2.
  apply chain_add_result in E0 as [->| ->].
  { mstep H. left. split; [done|]. by eapply reg_eq_trans. }
  mstep H. apply reg_pure_ext in E0 as R3.
  destruct (Z.eqb_spec x 0) as [->|Hx]; simpl in H.
  2:{ mstep H. left. split; [done|].
      eapply reg_eq_trans; [|done]. by eapply reg_eq_trans. }
  right. mcommit H @flt_nr_inc. simpl.
  destruct R1 as (Eh1 & El1 & En1), R2 as (Eh2 & El2 & En2),
    R3 as (Eh3 & El3 & En3).
  rewrite Eh3, Eh2, Eh1 in Hu. simplify_eq.
  unfold nr_set, paths_nr. simpl.
  rewrite Eh3, Eh2, Eh1, El3, El2, El1, En3, En2, En1. done.
Qed.

Lemma path_add_exclude_spec a o f s rv s' :
  heap s !! a = Some o ->
  rfs_path_add_exclude a f s = Some (rv, s') ->
  (rv = 0%Z /\ member (rp_rexch o) f = true /\ s' = s) \/
  (rv <> 0%Z /\ reg_eq s s') \/
  (rv = 0%Z /\ member (rp_rinch o) f = false /\ member (rp_rexch o) f = false /\
   heap s' = <[a := set_rexch o (add_flt (rp_rexch o) f)]> (heap s) /\
   rfs_path_list s' = rfs_path_list s /\
   flt_nr s' = nr_set s f (paths_nr s f + 1)).
Proof.
  intros Ho H. unfold rfs_path_add_exclude in H. mstep H. mstep E. simplify_eq.
  fold (member (rp_rinch o) f) in H. fold (member (rp_rexch o) f) in H.
  destruct (member (rp_rexch o) f) eqn:Me.
  { mstep H. by left. }
  right. destruct (member (rp_rinch o) f) eqn:Mi.
  { mstep H. by left. }
  mstep H. apply reg_pure_chain_add in E as R2.
  apply chain_add_result in E as [->| ->].
  { mstep H. left. done. }
  mstep H. apply reg_pure_ext in E as R3.
  destruct (Z.eqb_spec x 0) as [->|Hx]; simpl in H.
  2:{ mstep H. left. split; [done|]. by eapply reg_eq_trans. }
  right. mcommit H @flt_nr_inc. simpl.
  destruct R2 as (Eh2 & El2 & En2), R3 as (Eh3 & El3 & En3).
  rewrite Eh3, Eh2 in Hu. simplify_eq.
  unfold nr_set, paths_nr. simpl.
  rewrite Eh3, Eh2, El3, El2, En3, En2. done.
Qed.

Lemma path_rem_include_spec a o f s rv s' :
  heap s !! a = Some o ->
  rfs_path_rem_include a f s = Some (rv, s') ->
  (rv = 0%Z /\ member (rp_rinch o) f = false /\ s' = s) \/
  (rv <> 0%Z /\ reg_eq s s') \/
  (rv = 0%Z /\ member (rp_rinch o) f = true /\
   heap s' = <[a := set_rinch o (rem_flt (rp_rinch o) f)]> (heap s) /\
   rfs_path_list s' = rfs_path_list s /\
   flt_nr s' = nr_set s f (paths_nr s f - 1)).
Proof.
  intros Ho H. unfold rfs_path_rem_include in H. mstep H. mstep E. simplify_eq.
  assert (member (rp_rinch o) f = negb (Z.eqb (rfs_chain_find (rp_rinch o) f) (-1)))
    as Mi by done.
  destruct (Z.eqb (rfs_chain_find (rp_rinch o) f) (-1)); simpl in Mi.
  { mstep H. by left. }
  right. mstep H. apply reg_pure_chain_rem in E as R2.
  apply chain_rem_result in E as [(e & -> & He)| ->].
  { mstep H. left. done. }
  mstep H. apply reg_pure_ext in E as R3.
  destruct (Z.eqb_spec x 0) as [->|Hx]; simpl in H.
  2:{ mstep H. left. split; [done|]. by eapply reg_eq_trans. }
  right. mcommit H @flt_nr_dec. simpl.
  destruct R2 as (Eh2 & El2 & En2), R3 as (Eh3 & El3 & En3).
  rewrite Eh3, Eh2 in Hu. simplify_eq.
  unfold nr_set, paths_nr. simpl.
  rewrite Eh3, Eh2, El3, El2, En3, En2. done.
Qed.

Lemma path_rem_exclude_spec a o f s rv s' :
  heap s !! a = Some o ->
  rfs_path_rem_exclude a f s = Some (rv, s') ->
  (rv = 0%Z /\ member (rp_rexch o) f = false /\ s' = s) \/
  (rv <> 0%Z /\ reg_eq s s') \/
  (rv = 0%Z /\ member (rp_rexch o) f = true /\
   heap s' = <[a := set_rexch o (rem_flt (rp_rexch o) f)]> (heap s) /\
   rfs_path_list s' = rfs_path_list s /\
   flt_nr s' = nr_set s f (paths_nr s f - 1)).
Proof.
  intros Ho H. unfold rfs_path_rem_exclude in H. mstep H. mstep E. simplify_eq.
  assert (member (rp_rexch o) f = negb (Z.eqb (rfs_chain_find (rp_rexch o) f) (-1)))
    as Me by done.
  destruct (Z.eqb (rfs_chain_find (rp_rexch o) f) (-1)); simpl in Me.
  { mstep H. by left. }
  right. mstep H. apply reg_pure_chain_rem in E as R2.
  apply chain_rem_result in E as [(e & -> & He)| ->].
  { mstep H. left. done. }
  mstep H. apply reg_pure_ext in E as R3.
  destruct (Z.eqb_spec x 0) as [->|Hx]; simpl in H.
  2:{ mstep H. left. split; [done|]. by eapply reg_eq_trans. }
  right. mcommit H @flt_nr_dec. simpl.
  destruct R2 as (Eh2 & El2 & En2), R3 as (Eh3 & El3 & En3).
  rewrite Eh3, Eh2 in Hu. simplify_eq.
  unfold nr_set, paths_nr. simpl.
  rewrite Eh3, Eh2, El3, El2, En3, En2. done.
Qed.

(** ** The registry invariant *)

Lemma citing_nil h f : citing h [] f = 0.
Proof. done. Qed.

Lemma citing_cons h a l f :
  citing h (a :: l) f = (if cites_at h a f then 1 else 0) + citing h l f.
Proof.
  unfold citing, citing_paths. rewrite filter_cons.
  destruct (decide (cites_at h a f = true)) as [E|E].
  - by rewrite E.
  - apply not_true_is_false in E. by rewrite E.
Qed.

Lemma citing_app h l1 l2 f : citing h (l1 ++ l2) f = citing h l1 f + citing h l2 f.
Proof.
  induction l1 as [|a l1 IH]; simpl; [done|].
  rewrite !citing_cons, IH. lia.
Qed.

Lemma citing_le h l f : citing h l f <= length l.
Proof.
  induction l as [|a l IH]; simpl; [done|].
  rewrite citing_cons. destruct (cites_at h a f); lia.
Qed.

Lemma citing_ext h h' l f :
  (forall a, a ∈ l -> cites_at h' a f = cites_at h a f) ->
  citing h' l f = citing h l f.
Proof.
  induction l as [|a l IH]; intros Hext; [done|].
  rewrite !citing_cons, Hext, IH; [done| |by left].
  intros b Hb. apply Hext. by right.
Qed.

Lemma cites_at_insert h a o b f :
  cites_at (<[a := o]> h) b f = if decide (a = b) then cites o f else cites_at h b f.
Proof.
  unfold cites_at. rewrite lookup_insert. by destruct (decide (a = b)).
Qed.

Lemma citing_insert_out h a o l f :
  a ∉ l -> citing (<[a := o]> h) l f = citing h l f.
Proof.
  intros Ha. apply citing_ext. intros b Hb. rewrite cites_at_insert.
  destruct (decide (a = b)); [by subst|done].
Qed.

Lemma citing_delete_out h a l f :
  a ∉ l -> citing (delete a h) l f = citing h l f.
Proof.
  intros Ha. apply citing_ext. intros b Hb. unfold cites_at.
  rewrite lookup_delete_ne; [done|]. by intros ->.
Qed.

Lemma citing_insert_in h a o o' l f :
  NoDup l -> a ∈ l -> h !! a = Some o ->
  citing (<[a := o']> h) l f + (if cites o f then 1 else 0) =
  citing h l f + (if cites o' f then 1 else 0).
Proof.
  intros Hnd Ha Ho. induction Hnd as [|b l Hb Hnd IH]; [by apply elem_of_nil in Ha|].
  rewrite !citing_cons, cites_at_insert.
  destruct (decide (a = b)) as [<-|Hne].
  - rewrite citing_insert_out by done. unfold cites_at at 1. rewrite Ho. lia.
  - apply elem_of_cons in Ha as [?|Ha]; [done|]. specialize (IH Ha). lia.
Qed.

Lemma list_del_notin a (l : list addr) : a ∉ l -> list_del a l = l.
Proof.
  intros Ha. unfold list_del. induction l as [|b l IH]; [done|].
  apply not_elem_of_cons in Ha as [Hab Ha].
  rewrite filter_cons_True by done. by rewrite IH.
Qed.

Lemma list_del_app_new a (l : list addr) : a ∉ l -> list_del a (l ++ [a]) = l.
Proof.
  intros Ha. unfold list_del. rewrite filter_app.
  fold (list_del a l). rewrite list_del_notin by done.
  rewrite filter_cons_False by naive_solver. simpl. apply app_nil_r.
Qed.

Lemma elem_of_list_del a b (l : list addr) : b ∈ list_del a l <-> b ∈ l /\ b <> a.
Proof. unfold list_del. rewrite list_elem_of_filter. naive_solver. Qed.

Lemma citing_list_del h a l f :
  cites_at h a f = false -> citing h (list_del a l) f = citing h l f.
Proof.
  intros Ha. induction l as [|b l IH]; [done|].
  unfold list_del in *. rewrite filter_cons. destruct (decide (b <> a)) as [Hb|Hb].
  - rewrite !citing_cons, IH. done.
  - apply dec_stable in Hb as ->. rewrite citing_cons, Ha, IH. done.
Qed.

(** *** How each elementary change keeps the base invariant *)

Lemma same_view_cites o o' f : same_view o o' -> cites o' f = cites o f.
Proof. intros (_ & _ & Hi & He & _). unfold cites. by rewrite Hi, He. Qed.

Lemma same_view_ok o o' : same_view o o' -> path_ok o -> path_ok o'.
Proof. intros (_ & _ & Hi & He & _). unfold path_ok. by rewrite Hi, He. Qed.

(** A change of the count, id or root of a live object. *)
Lemma base_inv_touch h l n a o o' :
  h !! a = Some o -> same_view o o' -> (0 < rp_count o')%Z ->
  base_inv h l n -> base_inv (<[a := o']> h) l n.
Proof.
  intros Ho Hv Hc [Hnd Hb Hlive Hok Hkeys Hun Hnr].
  pose proof Hv as (Hm & Hd & Hi & He & Hr).
  split; try done.
  - intros b Hb'. rewrite lookup_insert. destruct (decide (a = b)); eauto.
  - intros b ob. rewrite lookup_insert. destruct (decide (a = b)); intros Hob.
    + simplify_eq. split; [|done]. eapply same_view_ok; [done|]. by eapply Hok.
    + by eapply Hok.
  - intros b c ob oc Hb' Hc'. rewrite !lookup_insert.
    destruct (decide (a = b)), (decide (a = c)); intros Hob Hoc; simplify_eq;
      rewrite ?Hm, ?Hd; eauto.
  - intros b ob. rewrite lookup_insert. destruct (decide (a = b)); intros Hob Hnl.
    + simplify_eq. rewrite Hi, He, Hr. by eapply Hun.
    + by eapply Hun.
  - intros f. rewrite Hnr. f_equal. symmetry. apply citing_ext.
    intros b _. rewrite cites_at_insert. destruct (decide (a = b)); [|done].
    subst. unfold cites_at. rewrite Ho. by apply same_view_cites.
Qed.

(** Freeing an object that is not on the list. *)
Lemma base_inv_free h l n a :
  a ∉ l -> base_inv h l n -> base_inv (delete a h) l n.
Proof.
  intros Ha [Hnd Hb Hlive Hok Hkeys Hun Hnr].
  split; try done.
  - intros b Hb'. rewrite lookup_delete_ne; [eauto|]. by intros ->.
  - intros b ob Hob. apply lookup_delete_Some in Hob as [_ Hob]. by eapply Hok.
  - intros b c ob oc Hb' Hc' Hob Hoc.
    apply lookup_delete_Some in Hob as [_ Hob].
    apply lookup_delete_Some in Hoc as [_ Hoc]. eauto.
  - intros b ob Hob. apply lookup_delete_Some in Hob as [_ Hob]. by eapply Hun.
  - intros f. by rewrite citing_delete_out.
Qed.

(** A new object with empty chains and a new key, appended to the
    list. *)
Lemma base_inv_new h l n a o :
  h !! a = None -> rp_rinch o = None -> rp_rexch o = None -> (0 < rp_count o)%Z ->
  (forall b ob, b ∈ l -> h !! b = Some ob ->
     ~ (rp_mnt ob = rp_mnt o /\ rp_dentry ob = rp_dentry o)) ->
  (Z.of_nat (length l) < INT_MAX)%Z ->
  base_inv h l n -> base_inv (<[a := o]> h) (l ++ [a]) n.
Proof.
  intros Ha Hi He Hc Hkey Hlen [Hnd Hb Hlive Hok Hkeys Hun Hnr].
  assert (a ∉ l) as Hal.
  { intros Hin. apply Hlive in Hin as [? ?]. congruence. }
  split.
  - apply NoDup_app. split; [done|]. split; [|apply NoDup_singleton].
    intros b Hb' ->%list_elem_of_singleton. done.
  - rewrite length_app. simpl. lia.
  - intros b Hb'. rewrite lookup_insert. destruct (decide (a = b)); [done|].
    apply elem_of_app in Hb' as [Hb'| ->%list_elem_of_singleton]; eauto. done.
  - intros b ob. rewrite lookup_insert. destruct (decide (a = b)); intros Hob.
    + simplify_eq. split; [|done]. unfold path_ok. rewrite Hi, He. simpl.
      split; [constructor|]. split; [constructor|].
      intros f [H1 _]. by apply elem_of_nil in H1.
    + by eapply Hok.
  - intros b c ob oc Hb' Hc'. rewrite !lookup_insert.
    destruct (decide (a = b)), (decide (a = c)); intros Hob Hoc Hm Hd;
      simplify_eq; [done| | |].
    + apply elem_of_app in Hc' as [Hc'| ->%list_elem_of_singleton]; [|done].
      exfalso. eapply Hkey; eauto.
    + apply elem_of_app in Hb' as [Hb'| ->%list_elem_of_singleton]; [|done].
      exfalso. eapply Hkey; eauto.
    + apply elem_of_app in Hb' as [Hb'| ->%list_elem_of_singleton]; [|done].
      apply elem_of_app in Hc' as [Hc'| ->%list_elem_of_singleton]; [|done].
      eauto.
  - intros b ob. rewrite lookup_insert. destruct (decide (a = b)); intros Hob Hnl.
    + subst. exfalso. apply Hnl, elem_of_app. right. by apply list_elem_of_singleton.
    + apply not_elem_of_app in Hnl as [Hnl _]. eauto.
  - intros f. rewrite citing_app, citing_cons, citing_nil.
    rewrite citing_insert_out by done.
    unfold cites_at at 1. rewrite lookup_insert_eq. unfold cites, member.
    rewrite Hi, He. simpl. rewrite Hnr. f_equal. lia.
Qed.

(** Taking off the list an object whose chains are empty, its root
    link cleared. *)
Lemma base_inv_unlist h l n a o o' :
  h !! a = Some o -> rp_rinch o = None -> rp_rexch o = None ->
  rp_rinch o' = None -> rp_rexch o' = None -> rp_rroot o' = None ->
  (0 < rp_count o')%Z ->
  base_inv h l n -> base_inv (<[a := o']> h) (list_del a l) n.
Proof.
  intros Ho Hi He Hi' He' Hr' Hc' [Hnd Hb Hlive Hok Hkeys Hun Hnr].
  split.
  - by apply NoDup_filter.
  - pose proof (length_filter (fun b => b <> a) l). unfold list_del. lia.
  - intros b [Hb' Hne]%elem_of_list_del. rewrite lookup_insert_ne by done. eauto.
  - intros b ob. rewrite lookup_insert. destruct (decide (a = b)); intros Hob.
    + simplify_eq. split; [|done]. unfold path_ok. rewrite Hi', He'. simpl.
      split; [constructor|]. split; [constructor|].
      intros f [H1 _]. by apply elem_of_nil in H1.
    + by eapply Hok.
  - intros b c ob oc [Hb' Hnb]%elem_of_list_del [Hc'' Hnc]%elem_of_list_del.
    rewrite !lookup_insert_ne by done. eauto.
  - intros b ob. rewrite lookup_insert. destruct (decide (a = b)); intros Hob Hnl.
    + by simplify_eq.
    + eapply Hun; [done|]. intros Hin. apply Hnl, elem_of_list_del. done.
  - intros f. rewrite citing_list_del.
    + rewrite Hnr. f_equal. symmetry. apply citing_ext. intros b _.
      rewrite cites_at_insert. destruct (decide (a = b)); [|done].
      subst. unfold cites_at. rewrite Ho. unfold cites, member.
      by rewrite Hi, He, Hi', He'.
    + unfold cites_at. rewrite lookup_insert_eq. unfold cites, member.
      by rewrite Hi', He'.
Qed.

Lemma wrap_int_id z : (- 2 ^ 31 <= z < 2 ^ 31)%Z -> wrap_int z = z.
Proof.
  intros Hz. unfold wrap_int. rewrite Z.mod_small; lia.
Qed.

Lemma nr_insert_other (n : gmap nat Z) f g z :
  g <> f -> default 0%Z (<[f := z]> n !! g) = default 0%Z (n !! g).
Proof. intros Hne. by rewrite lookup_insert_ne. Qed.

(** A change of the chains of a listed object that changes citation of
    [f] only, with the counter of [f] following. *)
Lemma base_inv_chain h l n a o o' f (delta : Z) :
  h !! a = Some o -> a ∈ l ->
  rp_mnt o' = rp_mnt o -> rp_dentry o' = rp_dentry o ->
  rp_count o' = rp_count o -> path_ok o' ->
  (forall g, g <> f -> cites o' g = cites o g) ->
  ((if cites o' f then 1 else 0) - (if cites o f then 1 else 0) = delta)%Z ->
  base_inv h l n ->
  base_inv (<[a := o']> h) l (<[f := wrap_int (default 0%Z (n !! f) + delta)]> n).
Proof.
  intros Ho Hal Hm Hd Hc Hpok Hother Hdelta [Hnd Hb Hlive Hok Hkeys Hun Hnr].
  split; try done.
  - intros b Hb'. rewrite lookup_insert. destruct (decide (a = b)); eauto.
  - intros b ob. rewrite lookup_insert. destruct (decide (a = b)); intros Hob.
    + simplify_eq. split; [done|]. rewrite Hc. by eapply Hok.
    + by eapply Hok.
  - intros b c ob oc Hb' Hc'. rewrite !lookup_insert.
    destruct (decide (a = b)), (decide (a = c)); intros Hob Hoc; simplify_eq;
      rewrite ?Hm, ?Hd; eauto.
  - intros b ob. rewrite lookup_insert. destruct (decide (a = b)); intros Hob Hnl.
    + by simplify_eq.
    + by eapply Hun.
  - intros g. pose proof (citing_insert_in h a o o' l g Hnd Hal Ho) as Hcnt.
    destruct (decide (g = f)) as [->|Hne].
    + rewrite lookup_insert_eq. simpl. rewrite Hnr.
      pose proof (citing_le (<[a := o']> h) l f).
      pose proof (citing_le h l f).
      assert (INT_MAX = 2 ^ 31 - 1)%Z as HM by done.
      rewrite wrap_int_id; destruct (cites o' f), (cites o f); lia.
    + rewrite nr_insert_other by done. rewrite Hnr. f_equal.
      rewrite (Hother g Hne) in Hcnt. lia.
Qed.

(** *** Chains after an addition or a removal *)

Lemma bool_ext (b1 b2 : bool) : (b1 = true <-> b2 = true) -> b1 = b2.
Proof. destruct b1, b2; naive_solver. Qed.

Lemma member_add_flt c f g :
  member (add_flt c f) g = true <-> member c g = true \/ g = f.
Proof.
  rewrite !member_spec. unfold add_flt. simpl.
  rewrite elem_of_app, list_elem_of_singleton. done.
Qed.

Lemma member_rem_flt c f g :
  NoDup (chain_list c) ->
  member (rem_flt c f) g = true <-> member c g = true /\ g <> f.
Proof.
  intros Hnd. rewrite !member_spec. unfold rem_flt.
  rewrite chain_list_of_list. split.
  - intros Hin. split; [by eapply flt_remove_subset|].
    intros ->. by eapply flt_remove_gone.
  - intros [Hin Hne]. by apply flt_remove_other.
Qed.

Lemma cites_false o f :
  cites o f = false <->
  (f ∉ chain_list (rp_rinch o)) /\ (f ∉ chain_list (rp_rexch o)).
Proof.
  unfold cites. rewrite orb_false_iff, !member_false. done.
Qed.

Lemma chain_added_facts o o' f :
  chain_added o o' f -> cites o f = false -> path_ok o ->
  path_ok o' /\ (forall g, g <> f -> cites o' g = cites o g) /\
  cites o' f = true /\
  rp_mnt o' = rp_mnt o /\ rp_dentry o' = rp_dentry o /\
  rp_count o' = rp_count o /\
  (rp_rinch o' <> None \/ rp_rexch o' <> None).
Proof.
  intros Hadd [Hni Hne]%cites_false (Ndi & Nde & Hex).
  destruct Hadd as [-> | ->]; simpl.
  - split.
    { unfold path_ok. simpl. split; [|split; [done|]].
      - apply NoDup_app. split; [done|]. split; [|apply NoDup_singleton].
        intros g Hg ->%list_elem_of_singleton. done.
      - intros g [[Hg| ->%list_elem_of_singleton]%elem_of_app Hg']; [|done].
        by apply (Hex g). }
    split.
    { intros g Hg. unfold cites. simpl. f_equal. apply bool_ext.
      rewrite member_add_flt. naive_solver. }
    split.
    { unfold cites. simpl. apply orb_true_iff. left.
      apply member_add_flt. by right. }
    do 3 (split; [done|]). by left.
  - split.
    { unfold path_ok. simpl. split; [done|]. split.
      - apply NoDup_app. split; [done|]. split; [|apply NoDup_singleton].
        intros g Hg ->%list_elem_of_singleton. done.
      - intros g [Hg' [Hg| ->%list_elem_of_singleton]%elem_of_app]; [|done].
        by apply (Hex g). }
    split.
    { intros g Hg. unfold cites. simpl. f_equal. apply bool_ext.
      rewrite member_add_flt. naive_solver. }
    split.
    { unfold cites. simpl. apply orb_true_iff. right.
      apply member_add_flt. by right. }
    do 3 (split; [done|]). by right.
Qed.

Lemma chain_removed_facts o o' f :
  chain_removed o o' f -> path_ok o ->
  path_ok o' /\ (forall g, g <> f -> cites o' g = cites o g) /\
  cites o f = true /\ cites o' f = false /\
  rp_mnt o' = rp_mnt o /\ rp_dentry o' = rp_dentry o /\
  rp_count o' = rp_count o /\ rp_rroot o' = rp_rroot o.
Proof.
  intros Hrem (Ndi & Nde & Hex).
  destruct Hrem as [[Hi ->] | (Hi & He & ->)]; simpl.
  - split.
    { unfold path_ok. simpl. unfold rem_flt. rewrite chain_list_of_list.
      split; [by apply flt_remove_NoDup|]. split; [done|].
      intros g [Hg Hg']. apply flt_remove_subset in Hg. by apply (Hex g). }
    split.
    { intros g Hg. unfold cites. simpl. f_equal. apply bool_ext.
      rewrite member_rem_flt by done. naive_solver. }
    split; [unfold cites; by rewrite Hi|].
    split; [|done].
    unfold cites. simpl. apply orb_false_iff. split.
    + apply not_true_is_false. rewrite member_rem_flt by done. naive_solver.
    + apply member_false. apply member_spec in Hi. intros He. by apply (Hex f).
  - split.
    { unfold path_ok. simpl. unfold rem_flt. rewrite chain_list_of_list.
      split; [done|]. split; [by apply flt_remove_NoDup|].
      intros g [Hg Hg']. apply flt_remove_subset in Hg'. by apply (Hex g). }
    split.
    { intros g Hg. unfold cites. simpl. f_equal. apply bool_ext.
      rewrite member_rem_flt by done. naive_solver. }
    split; [unfold cites; rewrite He; apply orb_true_r|].
    split; [|done].
    unfold cites. simpl. rewrite Hi. simpl.
    apply not_true_is_false. rewrite member_rem_flt by done. naive_solver.
Qed.

(** The mode dispatch of redirfs_add_path. *)
Lemma add_mode_spec flags a o f s rv s' :
  heap s !! a = Some o ->
  (if Z.eqb flags REDIRFS_PATH_INCLUDE then rfs_path_add_include a f
   else if Z.eqb flags REDIRFS_PATH_EXCLUDE then rfs_path_add_exclude a f
   else ret (- EINVAL)%Z) s = Some (rv, s') ->
  (rv = 0%Z /\ cites o f = true /\ s' = s) \/
  (rv <> 0%Z /\ reg_eq s s') \/
  (rv = 0%Z /\ cites o f = false /\ exists o', chain_added o o' f /\
   heap s' = <[a := o']> (heap s) /\
   rfs_path_list s' = rfs_path_list s /\
   flt_nr s' = nr_set s f (paths_nr s f + 1)).
Proof.
  intros Ho H. destruct (Z.eqb flags REDIRFS_PATH_INCLUDE).
  { eapply path_add_include_spec in H
      as [(-> & Hm & ->)|[?|(-> & Hi & He & Hh & Hl & Hn)]]; [| | |done].
    - left. unfold cites. by rewrite Hm.
    - by right; left.
    - right; right. split; [done|]. split; [unfold cites; by rewrite Hi, He|].
      eexists. split; [by left|done]. }
  destruct (Z.eqb flags REDIRFS_PATH_EXCLUDE).
  { eapply path_add_exclude_spec in H
      as [(-> & Hm & ->)|[?|(-> & Hi & He & Hh & Hl & Hn)]]; [| | |done].
    - left. unfold cites. rewrite Hm. by rewrite orb_true_r.
    - by right; left.
    - right; right. split; [done|]. split; [unfold cites; by rewrite Hi, He|].
      eexists. split; [by right|done]. }
  mstep H. right; left. done.
Qed.

(** The chain dispatch of redirfs_rem_path. *)
Lemma rem_mode_spec a o f s rv s' :
  heap s !! a = Some o ->
  (if negb (Z.eqb (rfs_chain_find (rp_rinch o) f) (-1)) then rfs_path_rem_include a f
   else if negb (Z.eqb (rfs_chain_find (rp_rexch o) f) (-1)) then rfs_path_rem_exclude a f
   else ret (- EINVAL)%Z) s = Some (rv, s') ->
  (rv <> 0%Z /\ reg_eq s s') \/
  (rv = 0%Z /\ exists o', chain_removed o o' f /\
   heap s' = <[a := o']> (heap s) /\
   rfs_path_list s' = rfs_path_list s /\
   flt_nr s' = nr_set s f (paths_nr s f - 1)).
Proof.
  intros Ho H.
  fold (member (rp_rinch o) f) in H. fold (member (rp_rexch o) f) in H.
  destruct (member (rp_rinch o) f) eqn:Mi.
  { eapply path_rem_include_spec in H
      as [(-> & Hm & ->)|[?|(-> & Hi & Hh & Hl & Hn)]]; [| | |done].
    - congruence.
    - by left.
    - right. split; [done|]. eexists. split; [by left|done]. }
  destruct (member (rp_rexch o) f) eqn:Me.
  { eapply path_rem_exclude_spec in H
      as [(-> & Hm & ->)|[?|(-> & Hi & Hh & Hl & Hn)]]; [| | |done].
    - congruence.
    - by left.
    - right. split; [done|]. eexists. split; [by right|done]. }
  mstep H. left. done.
Qed.

(** ** redirfs_add_path at the level of the registry *)

Lemma inv_not_listed s a : inv s -> heap s !! a = None -> a ∉ rfs_path_list s.
Proof.
  intros [Hb _] Ha Hin. apply (bi_live _ _ _ Hb) in Hin as [? ?]. congruence.
Qed.

Lemma add_path_cases f mnt d flags s r s' :
  inv s ->
  redirfs_add_path (Some f) (add_info mnt d flags) s = Some (r, s') ->
  (exists e, r = ERR e /\ reg_eq s s') \/
  (exists a o o', r = PTR a /\ a ∈ rfs_path_list s /\ heap s !! a = Some o /\
     rp_mnt o = mnt /\ rp_dentry o = d /\
     heap s' = <[a := o']> (heap s) /\
     rfs_path_list s' = rfs_path_list s /\
     ((o' = set_count o (rp_count o + 1) /\ cites o f = true /\
       flt_nr s' = flt_nr s) \/
      (chain_added (set_count o (rp_count o + 1)) o' f /\ cites o f = false /\
       flt_nr s' = nr_set s f (paths_nr s f + 1)))) \/
  (exists a i rroot o', r = PTR a /\ no_path_for s mnt d /\
     heap s !! a = None /\
     get_id_scan (rfs_path_list s) 0 s = Some (i, s) /\
     chain_added (mk_path i mnt d None None (Some rroot) 3) o' f /\
     heap s' = <[a := o']> (heap s) /\
     rfs_path_list s' = rfs_path_list s ++ [a] /\
     flt_nr s' = nr_set s f (paths_nr s f + 1)).
Proof.
  intros Hinv H. unfold redirfs_add_path, add_info in H. simpl in H.
  destruct (Z.eqb flags 0).
  { mstep H. left. by eexists. }
  mbind H as rp s1 Eadd.
  apply path_add_spec in Eadd
    as [(a & o & -> & Hal & Ho & Hm & Hd & Hc & ->)
       |[(a & i & rroot & -> & Hnp & Hfresh & Hid & Hh1 & Hl1 & Hn1)
        |(e & -> & He & Hnp & Hreg)]].
  - (* an existing path *)
    set (o1 := set_count o (rp_count o + 1)) in *.
    mbind H as rv s2 Emode.
    eapply add_mode_spec in Emode
      as [(-> & Hcit & ->)|[(Hrv & Hh2 & Hl2 & Hn2)
         |(-> & Hcit & o' & Hadd & Hh2 & Hl2 & Hn2)]];
      [| | |simpl; apply lookup_insert_eq].
    + mbind H as u s3 Erem.
      eapply path_rem_spec in Erem as [[_ ->]|(Hi & He & _)];
        [| |simpl; apply lookup_insert_eq].
      * simpl in H. mstep H. right; left. exists a, o, o1.
        do 7 (split; [done|]). left. done.
      * unfold cites, member, o1 in Hcit. simpl in Hcit, Hi, He.
        rewrite Hi, He in Hcit. done.
    + mbind H as u s3 Erem.
      assert (heap s2 !! a = Some o1) as Ho2
        by (rewrite Hh2; simpl; apply lookup_insert_eq).
      eapply path_rem_spec in Erem as [[_ ->]|(Hi & He & _)]; [| |done].
      2:{ destruct Hinv as [_ Hne]. destruct (Hne a o Hal Ho); done. }
      destruct (Z.eqb_spec rv 0) as [|_]; [done|]. simpl in H.
      mbind H as u' s4 Eput. mstep H.
      apply path_put_spec in Eput as (o2 & Ho2' & _ & ->).
      rewrite Ho2 in Ho2'. simplify_eq.
      left. eexists. split; [done|]. unfold reg_eq. simpl.
      rewrite Hl2, Hn2. simpl. split; [|done].
      replace (rp_count o + 1 - 1)%Z with (rp_count o) by lia.
      destruct (Z.eqb_spec (rp_count o) 0) as [|_]; [done|].
      rewrite Hh2. simpl. rewrite insert_insert_eq.
      apply insert_id. by destruct o.
    + mbind H as u s3 Erem.
      assert (heap s2 !! a = Some o') as Ho2
        by (rewrite Hh2; simpl; apply lookup_insert_eq).
      assert (cites o f = false) as Hcit' by done.
      assert (path_ok o1) as Hok1.
      { destruct Hinv as [Hb _]. by apply (bi_ok _ _ _ Hb a o). }
      destruct (chain_added_facts _ _ _ Hadd Hcit Hok1)
        as (_ & _ & _ & _ & _ & _ & Hne).
      eapply path_rem_spec in Erem as [[_ ->]|(Hi & He & _)]; [| |done].
      2:{ destruct Hne; done. }
      simpl in H. mstep H. right; left. exists a, o, o'.
      do 5 (split; [done|]). rewrite Hh2, Hl2, Hn2. simpl.
      rewrite insert_insert_eq. split; [done|]. split; [done|]. right. done.
  - (* a path created by this call *)
    set (o0 := mk_path i mnt d None None (Some rroot) 3) in *.
    assert (a ∉ rfs_path_list s) as Hnl by by apply inv_not_listed.
    mbind H as rv s2 Emode.
    eapply add_mode_spec in Emode
      as [(-> & Hcit & ->)|[(Hrv & Hh2 & Hl2 & Hn2)
         |(-> & Hcit & o' & Hadd & Hh2 & Hl2 & Hn2)]];
      [| | |rewrite Hh1; apply lookup_insert_eq].
    + done.
    + mbind H as u s3 Erem.
      assert (heap s2 !! a = Some o0) as Ho2
        by (rewrite Hh2, Hh1; apply lookup_insert_eq).
      apply (path_rem_spec _ _ _ _ _ Ho2) in Erem
        as [[[?|?] _]|(_ & _ & _ & _ & _ & Hh3 & Hl3 & Hn3)]; [done|done|].
      simpl in Hh3.
      destruct (Z.eqb_spec rv 0) as [|_]; [done|]. simpl in H.
      mbind H as u' s4 Eput. mstep H.
      apply path_put_spec in Eput as (o2 & Ho2' & _ & ->).
      rewrite Hh3 in Ho2'. rewrite lookup_insert_eq in Ho2'. simplify_eq.
      left. eexists. split; [done|]. unfold reg_eq. simpl.
      rewrite Hh3, Hl3, Hn3, Hh2, Hl2, Hn2, Hh1, Hl1, Hn1.
      rewrite !delete_insert_eq, delete_id by done.
      by rewrite list_del_app_new.
    + mbind H as u s3 Erem.
      assert (heap s2 !! a = Some o') as Ho2
        by (rewrite Hh2; apply lookup_insert_eq).
      assert (path_ok o0) as Hok0.
      { split; [constructor|]. split; [constructor|].
        intros g [Hg _]. by apply elem_of_nil in Hg. }
      destruct (chain_added_facts _ _ _ Hadd Hcit Hok0)
        as (_ & _ & _ & _ & _ & _ & Hne).
      eapply path_rem_spec in Erem as [[_ ->]|(Hi & He & _)]; [| |done].
      2:{ destruct Hne; done. }
      simpl in H. mstep H. right; right. exists a, i, rroot, o'.
      do 5 (split; [done|]). rewrite Hh2, Hl2, Hn2, Hh1, Hl1.
      rewrite insert_insert_eq. split; [done|]. split; [done|].
      unfold nr_set, paths_nr. by rewrite Hn1.
  - (* no path could be found or created *)
    destruct (IS_ERR_VALUE e); mstep H. left. by eexists.
Qed.

(** ** redirfs_rem_path at the level of the registry *)

Lemma rem_path_cases f a s rv s' :
  inv s ->
  redirfs_rem_path (Some f) (PTR a) s = Some (rv, s') ->
  exists o, heap s !! a = Some o /\ a ∈ rfs_path_list s /\
   ((rv <> 0%Z /\ reg_eq s s') \/
    (rv = 0%Z /\ exists o', chain_removed o o' f /\
       flt_nr s' = nr_set s f (paths_nr s f - 1) /\
       (((rp_rinch o' <> None \/ rp_rexch o' <> None) /\
         heap s' = <[a := o']> (heap s) /\
         rfs_path_list s' = rfs_path_list s) \/
        (rp_rinch o' = None /\ rp_rexch o' = None /\
         rp_count o' <> 0%Z /\ rp_count o' <> 1%Z /\
         heap s' = (if Z.eqb (rp_count o' - 1 - 1) 0 then delete a (heap s)
                    else <[a := set_rroot (set_count o' (rp_count o' - 1 - 1)) None]>
                           (heap s)) /\
         rfs_path_list s' = list_del a (rfs_path_list s))))).
Proof.
  intros Hinv H. unfold redirfs_rem_path in H.
  mbind H as o s0 Ho. mstep Ho. exists o. split; [done|].
  mbind H as rv' s1 Emode. mbind H as u s2 Erem. mstep H.
  destruct Hinv as [Hb Hne].
  destruct (decide (a ∈ rfs_path_list s)) as [Hal|Hal].
  - split; [done|].
    eapply rem_mode_spec in Emode
      as [(Hrv & Hh1 & Hl1 & Hn1)|(-> & o' & Hrem & Hh1 & Hl1 & Hn1)]; [| |done].
    + left. split; [done|].
      assert (heap s1 !! a = Some o) as Ho1 by by rewrite Hh1.
      apply (path_rem_spec _ _ _ _ _ Ho1) in Erem as [[_ ->]|(Hi & He & _)]; [done|].
      destruct (Hne a o Hal Hd); done.
    + right. split; [done|]. exists o'. split; [done|].
      assert (heap s1 !! a = Some o') as Ho1
        by (rewrite Hh1; apply lookup_insert_eq).
      apply (path_rem_spec _ _ _ _ _ Ho1) in Erem
        as [[Hne' ->]|(Hi & He & _ & Hc0 & Hc1 & Hh2 & Hl2 & Hn2)].
      * split; [done|]. left. done.
      * rewrite Hn2. split; [done|]. right.
        do 4 (split; [done|]). rewrite Hh2, Hl2, Hh1, Hl1. split; [|done].
        destruct (Z.eqb (rp_count o' - 1 - 1) 0).
        -- by rewrite delete_insert_eq.
        -- by rewrite insert_insert_eq.
  - exfalso. destruct (bi_unlisted _ _ _ Hb a o Hd Hal) as (Hi & He & Hr).
    rewrite Hi, He in Emode. simpl in Emode. mstep Emode.
    apply (path_rem_spec _ _ _ _ _ Hd) in Erem
      as [[[?|?] _]|(_ & _ & ? & _)]; done.
Qed.

(** *** The invariant is kept *)

Lemma inv_reg_eq s s' : reg_eq s s' -> inv s -> inv s'.
Proof. intros (Hh & Hl & Hn). unfold inv. by rewrite Hh, Hl, Hn. Qed.

Lemma listed_nonempty_insert h l a o' :
  (a ∈ l -> rp_rinch o' <> None \/ rp_rexch o' <> None) ->
  listed_nonempty h l -> listed_nonempty (<[a := o']> h) l.
Proof.
  intros Ha Hne b ob Hb. rewrite lookup_insert.
  destruct (decide (a = b)); intros Hob; simplify_eq; eauto.
Qed.

Lemma add_path_inv filter info s r s' :
  inv s -> (Z.of_nat (length (rfs_path_list s)) < INT_MAX)%Z ->
  redirfs_add_path filter info s = Some (r, s') -> inv s'.
Proof.
  intros Hinv Hlen H.
  destruct filter as [f|]; [|unfold redirfs_add_path in H; by mstep H].
  destruct info as [[[d|] [mnt|] flags]|];
    try (unfold redirfs_add_path in H; simpl in H; by mstep H).
  eapply add_path_cases in H
    as [(e & -> & Hreg)
       |[(a & o & o' & -> & Hal & Ho & Hm & Hd & Hh & Hl & Hcase)
        |(a & i & rroot & o' & -> & Hnp & Hfresh & Hid & Hadd & Hh & Hl & Hn)]];
    [| | |done].
  - by eapply inv_reg_eq.
  - destruct Hinv as [Hb Hne].
    destruct (bi_ok _ _ _ Hb a o Ho) as [Hok Hc].
    assert (base_inv (<[a := set_count o (rp_count o + 1)]> (heap s))
              (rfs_path_list s) (flt_nr s)) as Hb1.
    { eapply base_inv_touch; [done| |simpl; lia|done]. done. }
    destruct Hcase as [(-> & Hcit & Hn)|(Hadd & Hcit & Hn)].
    + split; rewrite Hh, Hl, ?Hn; [done|].
      apply listed_nonempty_insert; [|done]. intros _. simpl. by apply (Hne a o).
    + destruct (chain_added_facts _ _ _ Hadd Hcit Hok)
        as (Hok' & Hoth & Hcit' & Hm' & Hd' & Hc' & Hne').
      split; rewrite Hh, Hl, ?Hn.
      * rewrite <- (insert_insert_eq (heap s) a o' (set_count o (rp_count o + 1))).
        eapply base_inv_chain; try done.
        -- apply lookup_insert_eq.
        -- assert (cites (set_count o (rp_count o + 1)) f = false) as -> by done.
           rewrite Hcit'. done.
      * apply listed_nonempty_insert; done.
  - destruct Hinv as [Hb Hne].
    set (o0 := mk_path i mnt d None None (Some rroot) 3) in *.
    assert (path_ok o0) as Hok0.
    { split; [constructor|]. split; [constructor|].
      intros g [Hg _]. by apply elem_of_nil in Hg. }
    destruct (chain_added_facts _ _ _ Hadd eq_refl Hok0)
      as (Hok' & Hoth & Hcit' & Hm' & Hd' & Hc' & Hne').
    assert (a ∉ rfs_path_list s) as Hnl.
    { intros Hin. apply (bi_live _ _ _ Hb) in Hin as [? ?]. congruence. }
    split; rewrite Hh, Hl, ?Hn.
    + rewrite <- (insert_insert_eq (heap s) a o' o0).
      eapply base_inv_chain; try done.
      * apply lookup_insert_eq.
      * apply elem_of_app. right. by apply list_elem_of_singleton.
      * rewrite Hcit'. done.
      * eapply base_inv_new; try done; intros b ob Hbl Hob; by apply Hnp.
    + intros b ob [Hbl| ->%list_elem_of_singleton]%elem_of_app.
      * rewrite lookup_insert_ne by (by intros ->). by apply Hne.
      * rewrite lookup_insert_eq. intros ?. by simplify_eq.
Qed.

Lemma listed_nonempty_list_del h l a :
  listed_nonempty h l -> listed_nonempty h (list_del a l).
Proof. intros Hne b ob [Hb _]%elem_of_list_del. by apply Hne. Qed.

Lemma rem_path_inv filter path s rv s' :
  inv s -> redirfs_rem_path filter path s = Some (rv, s') -> inv s'.
Proof.
  intros Hinv H.
  destruct filter as [f|]; [|unfold redirfs_rem_path in H; by mstep H].
  destruct path as [|e|a].
  { unfold redirfs_rem_path in H. by mstep H. }
  { unfold redirfs_rem_path in H. destruct (Z.eqb e 0); by mstep H. }
  eapply rem_path_cases in H
    as (o & Ho & Hal & [[Hrv Hreg]|(-> & o' & Hrem & Hn & Hcase)]); [| |done].
  { by eapply inv_reg_eq. }
  destruct Hinv as [Hb Hne].
  destruct (bi_ok _ _ _ Hb a o Ho) as [Hok Hc].
  destruct (chain_removed_facts _ _ _ Hrem Hok)
    as (Hok' & Hoth & Hcit & Hcit' & Hm' & Hd' & Hc' & Hr').
  assert (base_inv (<[a := o']> (heap s)) (rfs_path_list s)
            (nr_set s f (paths_nr s f - 1))) as Hb1.
  { eapply base_inv_chain; try done. by rewrite Hcit, Hcit'. }
  destruct Hcase as [(Hne' & Hh & Hl)|(Hi & He & Hc0 & Hc1 & Hh & Hl)].
  - split; rewrite Hh, Hl, ?Hn; [done|].
    apply listed_nonempty_insert; done.
  - assert (listed_nonempty (heap s') (rfs_path_list s')) as Hne2.
    { rewrite Hl. intros b ob [Hbl Hba]%elem_of_list_del Hob.
      apply (Hne b ob Hbl). rewrite Hh in Hob.
      destruct (Z.eqb (rp_count o' - 1 - 1) 0).
      - by rewrite lookup_delete_ne in Hob.
      - by rewrite lookup_insert_ne in Hob. }
    split; [|done]. rewrite Hh, Hl, Hn.
    destruct (Z.eqb_spec (rp_count o' - 1 - 1) 0) as [Hz|Hz].
    + rewrite <- (delete_insert_eq (heap s) a (set_rroot (set_count o' 1) None)).
      apply base_inv_free.
      { intros [_ ?]%elem_of_list_del. done. }
      rewrite <- (insert_insert_eq (heap s) a _ o').
      eapply base_inv_unlist; try done.
      apply lookup_insert_eq.
    + rewrite <- (insert_insert_eq (heap s) a _ o').
      eapply base_inv_unlist; try done; [apply lookup_insert_eq|simpl; lia].
Qed.

(** *** References taken and released by the caller *)

Lemma held_elim s l a o :
  held s l -> a ∈ l -> a ∈ rfs_path_list s -> heap s !! a = Some o ->
  (1 < rp_count o)%Z.
Proof. intros Hheld Ha. by apply (Hheld a Ha a o). Qed.

Lemma held_intro s l :
  (forall a o, a ∈ l -> a ∈ rfs_path_list s -> heap s !! a = Some o ->
     (1 < rp_count o)%Z) -> held s l.
Proof. intros Hh a Ha b o [= <-]. by apply Hh. Qed.

Lemma get_inv p s r s' : inv s -> rfs_path_get p s = Some (r, s') -> inv s'.
Proof.
  intros Hinv H. destruct p as [|e|a].
  - unfold rfs_path_get, rfs_path_put in H. by mstep H.
  - unfold rfs_path_get, rfs_path_put in H. destruct (_ || _); by mstep H.
  - apply path_get_spec in H as (o & Ho & Hc & -> & ->).
    destruct Hinv as [Hb Hne]. destruct (bi_ok _ _ _ Hb a o Ho) as [_ Hpos].
    split; simpl.
    + eapply base_inv_touch; [done|done|simpl; lia|done].
    + apply listed_nonempty_insert; [|done]. intros Hal. simpl. by apply (Hne a o).
Qed.

Lemma put_inv p s r s' :
  inv s -> may_put s p -> rfs_path_put p s = Some (r, s') -> inv s'.
Proof.
  intros Hinv Hmay H. destruct p as [|e|a].
  - unfold rfs_path_get, rfs_path_put in H. by mstep H.
  - unfold rfs_path_get, rfs_path_put in H. destruct (_ || _); by mstep H.
  - apply path_put_spec in H as (o & Ho & Hc & ->).
    destruct Hinv as [Hb Hne]. destruct (bi_ok _ _ _ Hb a o Ho) as [_ Hpos].
    destruct (Z.eqb_spec (rp_count o - 1) 0) as [Hz|Hz].
    + assert (a ∉ rfs_path_list s) as Hnl.
      { intros Hal. specialize (Hmay a o eq_refl Hal Ho). lia. }
      split; simpl.
      * by apply base_inv_free.
      * intros b ob Hbl Hob. apply lookup_delete_Some in Hob as [_ Hob]. eauto.
    + split; simpl.
      * eapply base_inv_touch; [done|done|simpl; lia|done].
      * apply listed_nonempty_insert; [|done]. intros Hal. simpl. by apply (Hne a o).
Qed.

Lemma find_id_scan_inv l i s r s' :
  inv s -> path_find_id_scan l i s = Some (r, s') -> inv s'.
Proof.
  intros Hinv. induction l as [|a l IH]; simpl; intros H.
  - by mstep H.
  - mbind H as o s0 Ho. mstep Ho. destruct (negb _); [by apply IH|].
    by eapply (get_inv (PTR a)).
Qed.

(** The scan of redirfs_get_paths: the registered paths citing [f], each
    with one more reference. *)
Lemma get_paths_scan_spec l f s paths s' :
  inv s -> NoDup l ->
  get_paths_scan l f s = Some (paths, s') ->
  inv s' /\ paths = citing_paths (heap s) l f /\
  rfs_path_list s' = rfs_path_list s /\ flt_nr s' = flt_nr s /\
  world s' = world s /\ trace s' = trace s /\
  (forall b, b ∉ paths -> heap s' !! b = heap s !! b) /\
  (forall b, cites_at (heap s') b f = cites_at (heap s) b f) /\
  held s' paths.
Proof.
  intros Hinv Hnd. revert s paths Hinv.
  induction Hnd as [|a l Hal Hnd IH]; intros s paths Hinv H; simpl in H.
  - mstep H. do 8 (split; [done|]). intros a Ha. by apply elem_of_nil in Ha.
  - mbind H as o s0 Ho. mstep Ho.
    fold (member (rp_rinch o) f) in H. fold (member (rp_rexch o) f) in H.
    fold (cites o f) in H.
    assert (cites_at (heap s) a f = cites o f) as Hca
      by (unfold cites_at; by rewrite Hd).
    unfold citing_paths. rewrite filter_cons. fold (citing_paths (heap s) l f).
    destruct (cites o f) eqn:Hcit.
    + mbind H as p s1 Eget. mbind H as rest s2 Escan. mstep H.
      pose proof (get_inv _ _ _ _ Hinv Eget) as Hinv1.
      apply path_get_spec in Eget as (o1 & Ho1 & Hc & -> & ->). simplify_eq.
      destruct (IH _ _ Hinv1 Escan)
        as (Hinv2 & -> & Hl & Hn & Hw & Ht & Hfr & Hcs & Hheld).
      assert (forall b, cites_at (<[a := set_count o (rp_count o + 1)]> (heap s)) b f
                        = cites_at (heap s) b f) as Hcs1.
      { intros b. rewrite cites_at_insert. destruct (decide (a = b)); [|done].
        subst. by rewrite Hca. }
      assert (citing_paths (<[a := set_count o (rp_count o + 1)]> (heap s)) l f
              = citing_paths (heap s) l f) as Hcp.
      { unfold citing_paths. apply list_filter_iff. intros b. by rewrite Hcs1. }
      simpl in *. rewrite Hcp in *.
      assert (a ∉ citing_paths (heap s) l f) as Hna.
      { unfold citing_paths. intros [_ Hin]%list_elem_of_filter. done. }
      rewrite decide_True by done.
      split; [done|]. split; [done|]. do 4 (split; [done|]).
      split.
      { intros b [Hba Hb]%not_elem_of_cons. rewrite Hfr by done.
        by rewrite lookup_insert_ne. }
      split.
      { intros b. by rewrite Hcs, Hcs1. }
      intros b [->|Hb]%elem_of_cons; [|by apply Hheld].
      intros a' o' [= <-] _ Ho'. rewrite Hfr in Ho' by done.
      rewrite lookup_insert_eq in Ho'. simplify_eq. simpl.
      destruct Hinv as [Hb _]. destruct (bi_ok _ _ _ Hb a o Hd). lia.
    + rewrite decide_False by (rewrite Hca; done).
      apply IH in H as (? & ? & ? & ? & ? & ? & ? & ? & ?); done.
Qed.

Lemma rem_path_held f a s rv s' l :
  inv s -> held s l ->
  redirfs_rem_path (Some f) (PTR a) s = Some (rv, s') -> held s' l.
Proof.
  intros Hinv Hheld H.
  eapply rem_path_cases in H
    as (o & Ho & Hal & [[Hrv (Hh & Hl & Hn)]|(-> & o' & Hrem & Hn & Hcase)]);
    [| |done].
  { apply held_intro. intros b ob Hb'. rewrite Hh, Hl. by eapply held_elim. }
  destruct Hinv as [Hb Hne].
  destruct (bi_ok _ _ _ Hb a o Ho) as [Hok Hc].
  destruct (chain_removed_facts _ _ _ Hrem Hok)
    as (_ & _ & _ & _ & _ & _ & Hc' & _).
  destruct Hcase as [(_ & Hh & Hl)|(_ & _ & _ & _ & Hh & Hl)];
    apply held_intro; intros b ob Hb'; rewrite Hh, Hl.
  - rewrite lookup_insert. destruct (decide (a = b)) as [<-|Hab].
    + intros Hbl [= <-]. rewrite Hc'. by eapply held_elim.
    + by eapply held_elim.
  - intros [Hbl Hba]%elem_of_list_del.
    destruct (Z.eqb (rp_count o' - 1 - 1) 0).
    + rewrite lookup_delete_ne by done. by eapply held_elim.
    + rewrite lookup_insert_ne by done. by eapply held_elim.
Qed.

Lemma rem_paths_loop_inv f paths rv s r s' l :
  inv s -> held s l ->
  rem_paths_loop f paths rv s = Some (r, s') -> inv s' /\ held s' l.
Proof.
  revert rv s. induction paths as [|a paths IH]; intros rv s Hinv Hheld H; simpl in H.
  - by mstep H.
  - mbind H as rv1 s1 Erem.
    pose proof (rem_path_inv (Some f) (PTR a) _ _ _ Hinv Erem) as Hinv1.
    pose proof (rem_path_held f a _ _ _ _ Hinv Hheld Erem) as Hheld1.
    destruct (negb _); [by mstep H|]. by eapply IH.
Qed.

Lemma put_paths_loop_inv paths s r s' :
  NoDup paths -> inv s -> held s paths ->
  put_paths_loop paths s = Some (r, s') -> inv s'.
Proof.
  intros Hnd. revert s. induction Hnd as [|a paths Ha Hnd IH];
    intros s Hinv Hheld H; simpl in H.
  - by mstep H.
  - mbind H as u s1 Eput.
    assert (inv s1) as Hinv1.
    { eapply (put_inv (PTR a)); [done| |done]. apply Hheld. by left. }
    apply (IH s1); [done| |done].
    apply path_put_spec in Eput as (o & Ho & Hc & ->).
    apply held_intro. intros b ob Hb. simpl. intros Hbl Hob.
    assert (b <> a) as Hba by (by intros ->).
    eapply (held_elim s (a :: paths) b); [done|by right|done|].
    destruct (Z.eqb (rp_count o - 1) 0).
    + by rewrite lookup_delete_ne in Hob.
    + by rewrite lookup_insert_ne in Hob.
Qed.

Lemma reg_eq_held s s' l : reg_eq s s' -> held s l -> held s' l.
Proof.
  intros (Hh & Hl & _) Hheld. apply held_intro. intros a o Ha.
  rewrite Hh, Hl. by eapply held_elim.
Qed.

Lemma get_paths_spec f s r s' :
  inv s -> redirfs_get_paths (Some f) s = Some (r, s') ->
  inv s' /\
  match r with
  | inl e => reg_eq s s'
  | inr paths =>
      paths = citing_paths (heap s) (rfs_path_list s) f /\ held s' paths /\
      rfs_path_list s' = rfs_path_list s /\ flt_nr s' = flt_nr s /\
      (forall b, cites_at (heap s') b f = cites_at (heap s) b f)
  end.
Proof.
  intros Hinv H. unfold redirfs_get_paths in H.
  mbind H as nr s0 Enr. mstep Enr. mbind H as ok s1 Ealloc.
  apply reg_pure_alloc in Ealloc as Hreg.
  pose proof (inv_reg_eq _ _ Hreg Hinv) as Hinv1.
  destruct ok; [|mstep H; done].
  mbind H as l s2 El. mstep El. mbind H as paths s3 Escan.
  destruct Hreg as (Hh & Hl & Hn).
  eapply get_paths_scan_spec in Escan
    as (Hinv3 & -> & Hl3 & Hn3 & _ & _ & _ & Hcs & Hheld); [|done|].
  2:{ destruct Hinv1 as [Hb _]. apply (bi_nodup _ _ _ Hb). }
  destruct (array_fits _ _); mstep H.
  split; [done|]. rewrite Hh, Hl in Hheld. rewrite Hh, Hl.
  split; [done|]. split; [done|].
  rewrite Hl3, Hn3, Hl, Hn. do 2 (split; [done|]).
  intros b. by rewrite Hcs, Hh.
Qed.

Lemma rem_paths_inv filter s r s' :
  inv s -> redirfs_rem_paths filter s = Some (r, s') -> inv s'.
Proof.
  intros Hinv H. destruct filter as [f|]; simpl in H; [|by mstep H].
  mbind H as paths s1 Eget. fold (redirfs_get_paths (Some f)) in Eget.
  apply (get_paths_spec _ _ _ _ Hinv) in Eget as [Hinv1 Hr].
  destruct paths as [e|paths]; [by mstep H|].
  destruct Hr as (Hp & Hheld & _).
  assert (NoDup paths) as Hnd.
  { rewrite Hp. apply NoDup_filter. destruct Hinv as [Hb _].
    apply (bi_nodup _ _ _ Hb). }
  mbind H as rv s2 Eloop. mbind H as u s3 Eput. mstep H.
  eapply rem_paths_loop_inv in Eloop as [Hinv2 Hheld2]; [|done|done].
  by eapply put_paths_loop_inv in Eput.
Qed.

(** *** Rename and the listing by root leave the registry alone *)

Lemma reg_pure_rem_rroot_loop r l : reg_pure (fsrename_rem_rroot_loop r l).
Proof. induction l; simpl; reg_pure_tac. Qed.

Lemma reg_pure_add_rroot_loop r l : reg_pure (fsrename_add_rroot_loop r l).
Proof. induction l; simpl; reg_pure_tac. Qed.

Lemma reg_pure_rem_dentry_loop r d c l : reg_pure (fsrename_rem_dentry_loop r d c l).
Proof. revert c. induction l; intros c; simpl; reg_pure_tac. Qed.

Lemma reg_pure_add_dentry_loop r d c l : reg_pure (fsrename_add_dentry_loop r d c l).
Proof.
  revert c. induction l; intros c; simpl; unfold root_rinfo; reg_pure_tac.
Qed.

Lemma reg_pure_set_loop r d c c' l : reg_pure (fsrename_set_loop r d c c' l).
Proof. induction l; simpl; reg_pure_tac. Qed.

Hint Resolve reg_pure_rem_rroot_loop reg_pure_add_rroot_loop
  reg_pure_rem_dentry_loop reg_pure_add_dentry_loop reg_pure_set_loop : reg.

Lemma reg_pure_fsrename_rem src dst d : reg_pure (rfs_fsrename_rem src dst d).
Proof.
  unfold rfs_fsrename_rem, rfs_fsrename_rem_rroot, rfs_fsrename_rem_dentry,
    root_rchain, root_dentry.
  reg_pure_tac.
Qed.

Lemma reg_pure_fsrename_set src dst d : reg_pure (rfs_fsrename_set src dst d).
Proof.
  unfold rfs_fsrename_set, root_rchain, root_dentry. reg_pure_tac.
Qed.

Lemma reg_pure_fsrename_add src dst d : reg_pure (rfs_fsrename_add src dst d).
Proof.
  unfold rfs_fsrename_add, rfs_fsrename_add_rroot, rfs_fsrename_add_dentry,
    root_rchain, root_dentry, root_rinfo.
  reg_pure_tac.
Qed.

Hint Resolve reg_pure_fsrename_rem reg_pure_fsrename_set
  reg_pure_fsrename_add : reg.

Lemma reg_pure_fsrename od oe nd ne : reg_pure (rfs_fsrename od oe nd ne).
Proof. unfold rfs_fsrename. reg_pure_tac. Qed.

Lemma get_paths_root_scan_inv l rroot f s r s' :
  inv s -> get_paths_root_scan l rroot f s = Some (r, s') -> inv s'.
Proof.
  revert s r. induction l as [|a l IH]; intros s r Hinv H; simpl in H.
  - by mstep H.
  - destruct (_ || _); [|by eapply IH].
    mbind H as p s1 Eget. mbind H as rest s2 Escan. mstep H.
    eapply IH; [|done]. by eapply (get_inv (PTR a)).
Qed.

Lemma get_paths_root_inv filter root s r s' :
  inv s -> redirfs_get_paths_root filter root s = Some (r, s') -> inv s'.
Proof.
  intros Hinv H. unfold redirfs_get_paths_root in H.
  destruct filter as [f|]; [|by mstep H].
  destruct root as [rt|]; [|by mstep H].
  mbind H as nr s0 Enr. mstep Enr. mbind H as ok s1 Ealloc.
  apply reg_pure_alloc in Ealloc as Hreg.
  pose proof (inv_reg_eq _ _ Hreg Hinv) as Hinv1.
  destruct ok; [|by mstep H].
  mbind H as rroot s2 Er. mstep Er. mbind H as paths s3 Escan.
  apply get_paths_root_scan_inv in Escan; [|done].
  destruct (array_fits _ _); by mstep H.
Qed.

(** ** Reachable states *)

Lemma inv_init (w : W) : inv (init_state w).
Proof.
  split.
  - split; simpl; try done.
    + constructor.
    + intros a Ha. by apply elem_of_nil in Ha.
  - intros a o Ha. by apply elem_of_nil in Ha.
Qed.

Lemma step_inv s s' : step s s' -> inv s -> inv s'.
Proof.
  intros Hstep Hinv. destruct Hstep.
  - by eapply add_path_inv.
  - by eapply rem_path_inv.
  - by eapply rem_paths_inv.
  - by eapply get_inv.
  - by eapply put_inv.
  - unfold redirfs_get_path_id, rfs_path_find_id in *.
    match goal with H : bind _ _ _ = _ |- _ => mbind H as l s0 El; mstep El end.
    by eapply find_id_scan_inv.
  - destruct filter as [f|].
    + by eapply get_paths_spec.
    + unfold redirfs_get_paths in *.
      match goal with H : ret _ _ = _ |- _ => by mstep H end.
  - by eapply get_paths_root_inv.
  - eapply inv_reg_eq; [|done]. by eapply reg_pure_fsrename.
Qed.

Lemma reachable_inv s : reachable s -> inv s.
Proof.
  intros [w Hrtc].
  apply (rtc_ind_r (R := step) (fun s : @state W => inv s) (init_state w));
    [apply inv_init| |done].
  intros s1 s2 _ Hstep Hinv. by eapply step_inv.
Qed.

(** ** Running the code forwards *)

Lemma bind_run {A B} (m : @M W A) (k : A -> @M W B) s x s1 :
  m s = Some (x, s1) -> bind m k s = k x s1.
Proof. unfold bind. by intros ->. Qed.

Lemma deref_run a s o : heap s !! a = Some o -> deref a s = Some (o, s).
Proof. unfold deref. by intros ->. Qed.

Lemma path_get_run a s o :
  heap s !! a = Some o -> rp_count o <> 0%Z ->
  rfs_path_get (PTR a) s =
  Some (PTR a, set_heap s (<[a := set_count o (rp_count o + 1)]> (heap s))).
Proof.
  intros Ho Hc. unfold rfs_path_get. rewrite (bind_run _ _ _ _ _ (deref_run _ _ _ Ho)).
  by destruct (Z.eqb_spec (rp_count o) 0).
Qed.

Lemma path_put_run a s o :
  heap s !! a = Some o -> rp_count o <> 0%Z -> (rp_count o - 1)%Z <> 0%Z ->
  rfs_path_put (PTR a) s =
  Some (tt, set_heap s (<[a := set_count o (rp_count o - 1)]> (heap s))).
Proof.
  intros Ho Hc Hc'. unfold rfs_path_put.
  rewrite (bind_run _ _ _ _ _ (deref_run _ _ _ Ho)).
  destruct (Z.eqb_spec (rp_count o) 0); [done|].
  by destruct (Z.eqb_spec (rp_count o - 1) 0).
Qed.

Lemma path_find_scan_found l mnt d s a o :
  (forall b, b ∈ l -> is_Some (heap s !! b)) ->
  a ∈ l -> heap s !! a = Some o -> rp_mnt o = mnt -> rp_dentry o = d ->
  (forall b ob, b ∈ l -> heap s !! b = Some ob ->
     rp_mnt ob = mnt -> rp_dentry ob = d -> b = a) ->
  rp_count o <> 0%Z ->
  path_find_scan l mnt d s =
  Some (PTR a, set_heap s (<[a := set_count o (rp_count o + 1)]> (heap s))).
Proof.
  intros Hlive Hal Ho Hm Hd Huniq Hc.
  induction l as [|b l IH]; [by apply elem_of_nil in Hal|].
  destruct (Hlive b) as [ob Hob]; [by left|].
  cbn [path_find_scan]. rewrite (bind_run _ _ _ _ _ (deref_run _ _ _ Hob)).
  destruct (Nat.eqb_spec (rp_mnt ob) mnt) as [Em|Em];
    [destruct (Nat.eqb_spec (rp_dentry ob) d) as [Ed|Ed]|]; simpl.
  - assert (b = a) as -> by (apply (Huniq b ob); [by left|done..]).
    simplify_eq. by apply path_get_run.
  - apply elem_of_cons in Hal as [->|Hal]; [by simplify_eq|].
    apply IH; [|done|].
    + intros c Hc'. apply Hlive. by right.
    + intros c oc Hc'. apply Huniq. by right.
  - apply elem_of_cons in Hal as [->|Hal]; [by simplify_eq|].
    apply IH; [|done|].
    + intros c Hc'. apply Hlive. by right.
    + intros c oc Hc'. apply Huniq. by right.
Qed.

Lemma set_heap_same s : set_heap s (heap s) = s.
Proof. by destruct s. Qed.

Lemma set_count_back o : set_count (set_count o (rp_count o + 1)) (rp_count o + 1 - 1) = o.
Proof. destruct o. unfold set_count. simpl. f_equal. lia. Qed.

(** A registration in the mode opposite to the one the filter has on
    its registered path fails with EEXIST and changes nothing. *)
Lemma add_path_opposite s a o f flags :
  inv s -> a ∈ rfs_path_list s -> heap s !! a = Some o ->
  (flags = REDIRFS_PATH_INCLUDE /\ f ∈ chain_list (rp_rexch o) \/
   flags = REDIRFS_PATH_EXCLUDE /\ f ∈ chain_list (rp_rinch o)) ->
  redirfs_add_path (Some f) (add_info (rp_mnt o) (rp_dentry o) flags) s =
  Some (ERR (- EEXIST)%Z, s).
Proof.
  intros [Hb Hne] Hal Ho Hmode.
  destruct (bi_ok _ _ _ Hb a o Ho) as [(_ & _ & Hex) Hc].
  set (o1 := set_count o (rp_count o + 1)).
  set (s1 := set_heap s (<[a := o1]> (heap s))).
  assert (rfs_path_add (rp_mnt o) (rp_dentry o) s = Some (PTR a, s1)) as Hadd.
  { assert (rfs_path_find (rp_mnt o) (rp_dentry o) s = Some (PTR a, s1)) as Hfind.
    { unfold rfs_path_find, bind, gets.
      apply path_find_scan_found; try done; [|intros b ob Hbl Hob Hm Hd|lia].
      - intros b Hbl. by apply (bi_live _ _ _ Hb).
      - by apply (bi_keys _ _ _ Hb b a ob o). }
    unfold rfs_path_add. by rewrite (bind_run _ _ _ _ _ Hfind). }
  assert (heap s1 !! a = Some o1) as Ho1 by apply lookup_insert_eq.
  assert (exists rv0, rv0 = (- EEXIST)%Z /\
    (if Z.eqb flags REDIRFS_PATH_INCLUDE then rfs_path_add_include a f
     else if Z.eqb flags REDIRFS_PATH_EXCLUDE then rfs_path_add_exclude a f
     else ret (- EINVAL)%Z) s1 = Some (rv0, s1)) as (rv0 & -> & Hmode1).
  { eexists. split; [reflexivity|].
    destruct Hmode as [[-> Hf]|[-> Hf]]; simpl.
    - unfold rfs_path_add_include.
      rewrite (bind_run _ _ _ _ _ (deref_run _ _ _ Ho1)).
      fold (member (rp_rinch o1) f). fold (member (rp_rexch o1) f).
      assert (member (rp_rinch o1) f = false) as ->.
      { apply member_false. intros Hi. by apply (Hex f). }
      assert (member (rp_rexch o1) f = true) as -> by by apply member_spec.
      done.
    - unfold rfs_path_add_exclude.
      rewrite (bind_run _ _ _ _ _ (deref_run _ _ _ Ho1)).
      fold (member (rp_rinch o1) f). fold (member (rp_rexch o1) f).
      assert (member (rp_rexch o1) f = false) as ->.
      { apply member_false. intros He. by apply (Hex f). }
      assert (member (rp_rinch o1) f = true) as -> by by apply member_spec.
      done. }
  assert (rfs_path_rem a s1 = Some (tt, s1)) as Hrem.
  { unfold rfs_path_rem. rewrite (bind_run _ _ _ _ _ (deref_run _ _ _ Ho1)).
    destruct (Hne a o Hal Ho) as [Hi|He].
    - destruct (rp_rinch o1) eqn:E; [done|]. done.
    - destruct (rp_rinch o1); [done|]. destruct (rp_rexch o1) eqn:E; done. }
  assert (rfs_path_put (PTR a) s1 = Some (tt, s)) as Hput.
  { erewrite path_put_run; [|done|simpl; lia|simpl; lia].
    f_equal. f_equal. unfold s1, o1. simpl.
    rewrite set_count_back, insert_insert_eq.
    rewrite (insert_id (heap s) a o) by done. by destruct s. }
  unfold redirfs_add_path, add_info. simpl.
  assert (Z.eqb flags 0 = false) as ->.
  { destruct Hmode as [[-> _]|[-> _]]; done. }
  rewrite (bind_run _ _ _ _ _ Hadd).
  rewrite (bind_run _ _ _ _ _ Hmode1).
  rewrite (bind_run _ _ _ _ _ Hrem). simpl.
  rewrite (bind_run _ _ _ _ _ Hput). done.
Qed.

(** ** Include and exclude chains of a path *)

(** C1: on every reachable state no filter is in both the include chain
    and the exclude chain of a registered path; redirfs_add_path asking
    for Include on the path whose exclude chain holds the filter, or for
    Exclude on the path whose include chain holds it, returns
    ERR_PTR(-EEXIST) and leaves the whole state, so both chains, as it
    was. *)
Theorem add_path_opposite_mode_rejected s a o f :
  reachable s -> a ∈ rfs_path_list s -> heap s !! a = Some o ->
  ~ (f ∈ chain_list (rp_rinch o) /\ f ∈ chain_list (rp_rexch o)) /\
  (f ∈ chain_list (rp_rexch o) ->
   redirfs_add_path (Some f)
     (add_info (rp_mnt o) (rp_dentry o) REDIRFS_PATH_INCLUDE) s =
   Some (ERR (- EEXIST)%Z, s)) /\
  (f ∈ chain_list (rp_rinch o) ->
   redirfs_add_path (Some f)
     (add_info (rp_mnt o) (rp_dentry o) REDIRFS_PATH_EXCLUDE) s =
   Some (ERR (- EEXIST)%Z, s)).
Proof.
  intros Hinv%reachable_inv Hal Ho.
  split; [|split]; [|intros Hf..].
  - destruct Hinv as [Hb _].
    destruct (bi_ok _ _ _ Hb a o Ho) as [(_ & _ & Hex) _]. apply Hex.
  - eapply add_path_opposite; eauto.
  - eapply add_path_opposite; eauto.
Qed.

(** ** Failure of redirfs_add_path *)

(** C6: when redirfs_add_path returns an error, the registry list, every
    path object (so both chains of the addressed path) and the filter
    counters are as before the call, and a path object created by the
    call is gone; when it returns a path, that path is registered and
    its chains hold the filter. *)
Theorem add_path_failure_leaves_registry s filter info r s' :
  reachable s ->
  redirfs_add_path filter info s = Some (r, s') ->
  match r with
  | PTR a =>
      a ∈ rfs_path_list s' /\
      exists f, filter = Some f /\ cites_at (heap s') a f = true
  | ERR e =>
      rfs_path_list s' = rfs_path_list s /\ heap s' = heap s /\
      flt_nr s' = flt_nr s
  | NULL => False
  end.
Proof.
  intros Hinv%reachable_inv H.
  destruct filter as [f|]; [|unfold redirfs_add_path in H; by mstep H].
  destruct info as [[[d|] [mnt|] flags]|];
    try (unfold redirfs_add_path in H; simpl in H; by mstep H).
  destruct Hinv as [Hb Hne].
  eapply add_path_cases in H
    as [(e & -> & Hh & Hl & Hn)
       |[(a & o & o' & -> & Hal & Ho & Hm & Hd & Hh & Hl & Hcase)
        |(a & i & rroot & o' & -> & Hnp & Hfresh & Hid & Hadd & Hh & Hl & Hn)]];
    [done| | |done].
  - rewrite Hl. split; [done|]. exists f. split; [done|].
    unfold cites_at. rewrite Hh, lookup_insert_eq.
    destruct Hcase as [(-> & Hcit & _)|(Hadd & Hcit & _)]; [done|].
    destruct (bi_ok _ _ _ Hb a o Ho) as [Hok _].
    by destruct (chain_added_facts _ _ _ Hadd Hcit Hok) as (_ & _ & ? & _).
  - rewrite Hl. split.
    { apply elem_of_app. right. by apply list_elem_of_singleton. }
    exists f. split; [done|].
    unfold cites_at. rewrite Hh, lookup_insert_eq.
    assert (path_ok (mk_path i mnt d None None (Some rroot) 3)) as Hok0.
    { split; [constructor|]. split; [constructor|].
      intros g [Hg _]. by apply elem_of_nil in Hg. }
    by destruct (chain_added_facts _ _ _ Hadd eq_refl Hok0) as (_ & _ & ? & _).
Qed.

(** ** The counter of a filter *)

Lemma paths_nr_set s s' f n :
  flt_nr s' = nr_set s f n -> (- 2 ^ 31 <= n < 2 ^ 31)%Z -> paths_nr s' f = n.
Proof.
  intros Hn Hr. unfold paths_nr. rewrite Hn. unfold nr_set.
  rewrite lookup_insert_eq. simpl. by apply wrap_int_id.
Qed.

(** C7: on every reachable state the counter [paths_nr] of a filter is
    the number of registered paths whose include or exclude chain holds
    the filter; a successful redirfs_add_path of the filter for an entry
    whose path did not cite it adds one to the counter, and a successful
    redirfs_rem_path takes one off. *)
Theorem paths_nr_counts_citing_paths s f :
  reachable s ->
  paths_nr s f = Z.of_nat (citing (heap s) (rfs_path_list s) f) /\
  (forall mnt d flags a s',
     (Z.of_nat (length (rfs_path_list s)) < INT_MAX)%Z ->
     (forall b o, b ∈ rfs_path_list s -> heap s !! b = Some o ->
        rp_mnt o = mnt -> rp_dentry o = d -> cites o f = false) ->
     redirfs_add_path (Some f) (add_info mnt d flags) s = Some (PTR a, s') ->
     paths_nr s' f = (paths_nr s f + 1)%Z) /\
  (forall a s',
     redirfs_rem_path (Some f) (PTR a) s = Some (0%Z, s') ->
     paths_nr s' f = (paths_nr s f - 1)%Z).
Proof.
  intros Hinv%reachable_inv.
  pose proof Hinv as [Hb Hne].
  pose proof (bi_nr _ _ _ Hb f) as Hnr. fold (paths_nr s f) in Hnr.
  pose proof (citing_le (heap s) (rfs_path_list s) f) as Hle.
  pose proof (bi_bound _ _ _ Hb) as Hbound.
  assert (INT_MAX = 2 ^ 31 - 1)%Z as HM by done.
  split; [done|]. split.
  - intros mnt d flags a s' Hlen Hfresh H.
    eapply add_path_cases in H
      as [(e & ? & _)
         |[(a' & o & o' & _ & Hal & Ho & Hm & Hd & Hh & Hl & Hcase)
          |(a' & i & rroot & o' & _ & _ & _ & _ & _ & _ & _ & Hn)]];
      [done| | |done].
    + destruct Hcase as [(_ & Hcit & _)|(_ & _ & Hn)].
      * rewrite (Hfresh a' o Hal Ho Hm Hd) in Hcit. done.
      * eapply paths_nr_set; [done|lia].
    + eapply paths_nr_set; [done|lia].
  - intros a s' H.
    eapply rem_path_cases in H
      as (o & Ho & Hal & [[Hrv _]|(_ & o' & _ & Hn & _)]); [done| |done].
    eapply paths_nr_set; [done|lia].
Qed.

(** ** Rename: the trace of collaborator calls *)

Lemma appends_nil s : appends s s [].
Proof. unfold appends. by rewrite app_nil_r. Qed.

Lemma appends_trans s1 s2 s3 t t' :
  appends s1 s2 t -> appends s2 s3 t' -> appends s1 s3 (t ++ t').
Proof. unfold appends. intros -> ->. by rewrite app_assoc. Qed.

Lemma ext_appends c s rv s' : ext c s = Some (rv, s') -> appends s s' [c].
Proof.
  unfold ext, appends. destruct (host_call c (world s)). by intros [= <- <-].
Qed.

Lemma alloc_silent s ok s' : alloc s = Some (ok, s') -> trace s' = trace s.
Proof. unfold alloc. destruct (kzalloc (world s)). by intros [= <- <-]. Qed.

Lemma chain_add_silent c f s r s' :
  rfs_chain_add c f s = Some (r, s') -> trace s' = trace s.
Proof.
  unfold rfs_chain_add. intros H. mbind H as ok s1 E.
  apply alloc_silent in E. destruct ok; by mstep H.
Qed.

Lemma chain_rem_silent c f s r s' :
  rfs_chain_rem c f s = Some (r, s') -> trace s' = trace s.
Proof.
  unfold rfs_chain_rem. intros H. destruct (Z.eqb _ _); [by mstep H|].
  mbind H as ok s1 E. apply alloc_silent in E. destruct ok; by mstep H.
Qed.

Lemma chain_diff_spec c c' s r s' :
  rfs_chain_diff c c' s = Some (r, s') ->
  trace s' = trace s /\
  (r = inl (- ENOMEM)%Z \/
   r = inr (chain_of_list (flt_diff (chain_list c) (chain_list c')))).
Proof.
  unfold rfs_chain_diff. intros H. mbind H as ok s1 E.
  apply alloc_silent in E. destruct ok; mstep H; auto.
Qed.

Lemma info_alloc_silent r c s x s' :
  rfs_info_alloc r c s = Some (x, s') -> trace s' = trace s.
Proof.
  unfold rfs_info_alloc. intros H. mbind H as ok s1 E.
  apply alloc_silent in E. destruct ok; by mstep H.
Qed.

Lemma appends_silent s s' : trace s' = trace s -> appends s s' [].
Proof. unfold appends. intros ->. by rewrite app_nil_r. Qed.

Lemma phase_ok_nil cls done_of l rv :
  done_of [] = [] -> (rv = 0%Z -> l = []) -> phase_ok cls done_of l rv [].
Proof.
  intros Hd Hl. split; [constructor|]. rewrite Hd. split.
  - apply prefix_nil.
  - intros Hrv. by rewrite Hl.
Qed.

Lemma rem_rroot_loop_trace r l s rv s' :
  fsrename_rem_rroot_loop r l s = Some (rv, s') ->
  exists t, appends s s' t /\ phase_ok is_detach detached l rv t.
Proof.
  revert s. induction l as [|f l IH]; intros s H; simpl in H.
  - mstep H. exists []. split; [apply appends_nil|]. by apply phase_ok_nil.
  - mbind H as rv1 s1 E1. apply ext_appends in E1.
    destruct (Z.eqb_spec rv1 0) as [->|Hrv1]; simpl in H.
    2:{ mstep H. exists [RootRemFlt r f]. split; [done|].
        split; [by repeat constructor|]. simpl. split; [|done].
        apply prefix_cons, prefix_nil. }
    mbind H as rv2 s2 E2. apply ext_appends in E2.
    destruct (Z.eqb_spec rv2 0) as [->|Hrv2]; simpl in H.
    2:{ mstep H. exists ([RootRemFlt r f] ++ [RootWalk cb_rem_flt f]).
        split; [by eapply appends_trans|].
        split; [by repeat constructor|]. simpl. split; [|done].
        apply prefix_cons, prefix_nil. }
    apply IH in H as (t & Ht & Hcls & Hpre & Hall).
    exists ([RootRemFlt r f] ++ [RootWalk cb_rem_flt f] ++ t).
    split; [eapply appends_trans; [done|]; by eapply appends_trans|].
    split; [by repeat constructor|]. simpl. split.
    + by apply prefix_cons.
    + intros Hrv. by rewrite Hall.
Qed.

Lemma add_rroot_loop_trace r l s rv s' :
  fsrename_add_rroot_loop r l s = Some (rv, s') ->
  exists t, appends s s' t /\ phase_ok is_attach attached l rv t.
Proof.
  revert s. induction l as [|f l IH]; intros s H; simpl in H.
  - mstep H. exists []. split; [apply appends_nil|]. by apply phase_ok_nil.
  - mbind H as rv1 s1 E1. apply ext_appends in E1.
    destruct (Z.eqb_spec rv1 0) as [->|Hrv1]; simpl in H.
    2:{ mstep H. exists [RootAddFlt r f]. split; [done|].
        split; [by repeat constructor|]. simpl. split; [|done].
        apply prefix_cons, prefix_nil. }
    mbind H as rv2 s2 E2. apply ext_appends in E2.
    destruct (Z.eqb_spec rv2 0) as [->|Hrv2]; simpl in H.
    2:{ mstep H. exists ([RootAddFlt r f] ++ [RootWalk cb_add_flt f]).
        split; [by eapply appends_trans|].
        split; [by repeat constructor|]. simpl. split; [|done].
        apply prefix_cons, prefix_nil. }
    apply IH in H as (t & Ht & Hcls & Hpre & Hall).
    exists ([RootAddFlt r f] ++ [RootWalk cb_add_flt f] ++ t).
    split; [eapply appends_trans; [done|]; by eapply appends_trans|].
    split; [by repeat constructor|]. simpl. split.
    + by apply prefix_cons.
    + intros Hrv. by rewrite Hall.
Qed.

Lemma rem_dentry_loop_trace r d c l s rv s' :
  fsrename_rem_dentry_loop r d c l s = Some (rv, s') ->
  exists t, appends s s' t /\ phase_ok is_detach detached l rv t.
Proof.
  revert s c. induction l as [|f l IH]; intros s c H; simpl in H.
  - mstep H. exists []. split; [apply appends_nil|]. by apply phase_ok_nil.
  - mbind H as rchnew s1 E1. pose proof (chain_rem_silent _ _ _ _ _ E1) as T1.
    apply chain_rem_result in E1 as [(e & -> & He)| ->].
    { mstep H. exists []. split; [by apply appends_silent|].
      by apply phase_ok_nil. }
    mbind H as rinfo s2 E2. pose proof (info_alloc_silent _ _ _ _ _ E2) as T2.
    destruct rinfo as [e|rinfo].
    { mstep H. exists []. split; [apply appends_silent; congruence|].
      apply phase_ok_nil; [done|].
      unfold rfs_info_alloc in E2. mbind E2 as ok s3 E3.
      destruct ok; mstep E2. done. }
    mbind H as rv1 s3 E3. apply ext_appends in E3.
    assert (appends s s3 [InfoRem d rinfo f]) as Ha.
    { unfold appends in *. congruence. }
    destruct (Z.eqb_spec rv1 0) as [->|Hrv1]; simpl in H.
    2:{ mstep H. exists [InfoRem d rinfo f]. split; [done|].
        split; [by repeat constructor|]. simpl. split; [|done].
        apply prefix_cons, prefix_nil. }
    apply IH in H as (t & Ht & Hcls & Hpre & Hall).
    exists ([InfoRem d rinfo f] ++ t).
    split; [by eapply appends_trans|].
    split; [by repeat constructor|]. simpl. split.
    + by apply prefix_cons.
    + intros Hrv. by rewrite Hall.
Qed.

Lemma add_dentry_loop_trace r d c l s rv s' :
  fsrename_add_dentry_loop r d c l s = Some (rv, s') ->
  exists t, appends s s' t /\ phase_ok is_attach attached l rv t.
Proof.
  revert s c. induction l as [|f l IH]; intros s c H; simpl in H.
  - mbind H as ri s1 E1. unfold root_rinfo in E1. mstep E1.
    apply ext_appends in H. eexists. split; [done|].
    split; [by repeat constructor|]. simpl. split; [apply prefix_nil|done].
  - mbind H as rchnew s1 E1. pose proof (chain_add_silent _ _ _ _ _ E1) as T1.
    apply chain_add_result in E1 as [->| ->].
    { mstep H. exists []. split; [by apply appends_silent|].
      by apply phase_ok_nil. }
    mbind H as rinfo s2 E2. pose proof (info_alloc_silent _ _ _ _ _ E2) as T2.
    destruct rinfo as [e|rinfo].
    { mstep H. exists []. split; [apply appends_silent; congruence|].
      apply phase_ok_nil; [done|].
      unfold rfs_info_alloc in E2. mbind E2 as ok s3 E3.
      destruct ok; mstep E2. done. }
    mbind H as rv1 s3 E3. apply ext_appends in E3.
    assert (appends s s3 [InfoAdd d rinfo f]) as Ha.
    { unfold appends in *. congruence. }
    destruct (Z.eqb_spec rv1 0) as [->|Hrv1]; simpl in H.
    2:{ mstep H. exists [InfoAdd d rinfo f]. split; [done|].
        split; [by repeat constructor|]. simpl. split; [|done].
        apply prefix_cons, prefix_nil. }
    apply IH in H as (t & Ht & Hcls & Hpre & Hall).
    exists ([InfoAdd d rinfo f] ++ t).
    split; [by eapply appends_trans|].
    split; [by repeat constructor|]. simpl. split.
    + by apply prefix_cons.
    + intros Hrv. by rewrite Hall.
Qed.

Lemma rem_scope_trace src c d sd s rv s' :
  (if Nat.eqb sd d then rfs_fsrename_rem_rroot src c
   else rfs_fsrename_rem_dentry src c d) s = Some (rv, s') ->
  exists t, appends s s' t /\ phase_ok is_detach detached (chain_list c) rv t.
Proof.
  intros H. destruct (Nat.eqb sd d).
  - unfold rfs_fsrename_rem_rroot in H. destruct c as [l|]; simpl.
    + by eapply rem_rroot_loop_trace.
    + mstep H. exists []. split; [apply appends_nil|]. by apply phase_ok_nil.
  - unfold rfs_fsrename_rem_dentry in H. destruct c as [l|]; simpl.
    + mbind H as c' s1 E. unfold root_rchain in E. mstep E.
      by eapply rem_dentry_loop_trace.
    + mstep H. exists []. split; [apply appends_nil|]. by apply phase_ok_nil.
Qed.

Lemma fsrename_rem_trace src dst d s rv s' :
  rfs_fsrename_rem src dst d s = Some (rv, s') ->
  exists t, appends s s' t /\
    phase_ok is_detach detached (rem_filters (world s) src dst) rv t.
Proof.
  intros H. unfold rfs_fsrename_rem in H.
  destruct src as [src|]; simpl.
  2:{ mstep H. exists []. split; [apply appends_nil|]. by apply phase_ok_nil. }
  mbind H as rchain s1 Ec.
  destruct dst as [dst|].
  - mbind Ec as ca s2 Ea. unfold root_rchain in Ea. mstep Ea.
    mbind Ec as cb s3 Eb. unfold root_rchain in Eb. mstep Eb.
    apply chain_diff_spec in Ec as [T [->| ->]].
    { mstep H. exists []. split; [by apply appends_silent|].
      by apply phase_ok_nil. }
    mbind H as sd s4 Ed. unfold root_dentry in Ed. mstep Ed.
    apply rem_scope_trace in H as (t & Ht & Hok).
    rewrite chain_list_of_list in Hok.
    exists t. split; [|done]. unfold appends in *. congruence.
  - mbind Ec as ca s2 Ea. unfold root_rchain in Ea. mstep Ea. mstep Ec.
    mbind H as sd s4 Ed. unfold root_dentry in Ed. mstep Ed.
    by apply rem_scope_trace in H.
Qed.

Lemma add_dentry_trace dst c d s rv s' :
  rfs_fsrename_add_dentry dst c d s = Some (rv, s') ->
  exists t, appends s s' t /\ phase_ok is_attach attached (chain_list c) rv t.
Proof.
  intros H. unfold rfs_fsrename_add_dentry in H. destruct c as [l|]; simpl.
  - mbind H as rd s1 E. mstep E. by eapply add_dentry_loop_trace.
  - mbind H as ri s1 E. unfold root_rinfo in E. mstep E.
    apply ext_appends in H. eexists. split; [done|].
    split; [by repeat constructor|]. simpl. split; [apply prefix_nil|done].
Qed.

Lemma add_rroot_trace src c s rv s' :
  rfs_fsrename_add_rroot src c s = Some (rv, s') ->
  exists t, appends s s' t /\ phase_ok is_attach attached (chain_list c) rv t.
Proof.
  intros H. unfold rfs_fsrename_add_rroot in H. destruct c as [l|]; simpl.
  - by eapply add_rroot_loop_trace.
  - mstep H. exists []. split; [apply appends_nil|]. by apply phase_ok_nil.
Qed.

Lemma fsrename_add_trace src dst d s rv s' :
  rfs_fsrename_add src dst d s = Some (rv, s') ->
  exists t, appends s s' t /\
    phase_ok is_attach attached (add_filters (world s) src dst) rv t.
Proof.
  intros H. unfold rfs_fsrename_add in H.
  destruct dst as [dst|]; simpl.
  2:{ mstep H. exists []. split; [apply appends_nil|]. by apply phase_ok_nil. }
  mbind H as rchain s1 Ec.
  destruct src as [src|].
  - mbind Ec as ca s2 Ea. unfold root_rchain in Ea. mstep Ea.
    mbind Ec as cb s3 Eb. unfold root_rchain in Eb. mstep Eb.
    apply chain_diff_spec in Ec as [T [->| ->]].
    { mstep H. exists []. split; [by apply appends_silent|].
      by apply phase_ok_nil. }
    mbind H as sd s4 Ed. unfold root_dentry in Ed. mstep Ed.
    assert (exists t, appends s4 s' t /\
      phase_ok is_attach attached
        (chain_list (chain_of_list (flt_diff (rchain_of (world s3) dst)
                                             (rchain_of (world s3) src)))) rv t)
      as (t & Ht & Hok).
    { destruct (Nat.eqb _ d); [by eapply add_rroot_trace|by eapply add_dentry_trace]. }
    rewrite chain_list_of_list in Hok.
    exists t. split; [|done]. unfold appends in *. congruence.
  - mbind Ec as ca s2 Ea. unfold root_rchain in Ea. mstep Ea. mstep Ec.
    by eapply add_dentry_trace.
Qed.

Lemma root_eqb_eq (r1 r2 : option rfs_root) : root_eqb r1 r2 = true <-> r1 = r2.
Proof.
  destruct r1 as [x|], r2 as [y|]; simpl; try (split; done).
  rewrite Nat.eqb_eq. split; [by intros ->|by intros [= ->]].
Qed.

(** *** The phases return *)

Lemma returns_ret {A} (x : A) : returns (W := W) (ret x).
Proof. intros s. by eexists. Qed.

Lemma returns_gets {A} (f : @state W -> A) : returns (gets f).
Proof. intros s. by eexists. Qed.

Lemma returns_bind {A B} (m : @M W A) (k : A -> @M W B) :
  returns m -> (forall x, returns (k x)) -> returns (bind m k).
Proof.
  intros Hm Hk s. unfold bind. destruct (Hm s) as [[x s1] ->]. apply Hk.
Qed.

Lemma returns_ext c : returns (ext c).
Proof. intros s. unfold ext. destruct (host_call c (world s)). by eexists. Qed.

Lemma returns_alloc : returns (W := W) alloc.
Proof. intros s. unfold alloc. destruct (kzalloc (world s)). by eexists. Qed.

Create HintDb returns.

Hint Resolve returns_ret returns_gets returns_ext returns_alloc : returns.

(** Break a goal [returns m] along the structure of [m]. *)
Ltac returns_tac :=
  repeat first
    [ progress eauto with returns
    | apply returns_bind; [|intros ?]
    | match goal with
      | |- returns (if ?b then _ else _) => destruct b
      | |- returns (match ?x with _ => _ end) => destruct x
      end ].

Lemma returns_chain_add c f : returns (rfs_chain_add c f).
Proof. unfold rfs_chain_add. returns_tac. Qed.

Lemma returns_chain_rem c f : returns (rfs_chain_rem c f).
Proof. unfold rfs_chain_rem. returns_tac. Qed.

Lemma returns_chain_diff c c' : returns (rfs_chain_diff c c').
Proof. unfold rfs_chain_diff. returns_tac. Qed.

Lemma returns_info_alloc r c : returns (rfs_info_alloc r c).
Proof. unfold rfs_info_alloc. returns_tac. Qed.

Hint Resolve returns_chain_add returns_chain_rem returns_chain_diff
  returns_info_alloc : returns.

Lemma returns_rem_rroot_loop r l : returns (fsrename_rem_rroot_loop r l).
Proof. induction l; simpl; returns_tac. Qed.

Lemma returns_add_rroot_loop r l : returns (fsrename_add_rroot_loop r l).
Proof. induction l; simpl; returns_tac. Qed.

Lemma returns_rem_dentry_loop r d c l : returns (fsrename_rem_dentry_loop r d c l).
Proof. revert c. induction l; intros c; simpl; returns_tac. Qed.

Lemma returns_add_dentry_loop r d c l : returns (fsrename_add_dentry_loop r d c l).
Proof.
  revert c. induction l; intros c; simpl; unfold root_rinfo; returns_tac.
Qed.

Hint Resolve returns_rem_rroot_loop returns_add_rroot_loop
  returns_rem_dentry_loop returns_add_dentry_loop : returns.

(** The remove phase and the add phase read no pointer that may be
    NULL: they return on every state. *)
Lemma returns_fsrename_rem src dst d : returns (rfs_fsrename_rem src dst d).
Proof.
  unfold rfs_fsrename_rem, rfs_fsrename_rem_rroot, rfs_fsrename_rem_dentry,
    root_rchain, root_dentry.
  returns_tac.
Qed.

Lemma returns_fsrename_add src dst d : returns (rfs_fsrename_add src dst d).
Proof.
  unfold rfs_fsrename_add, rfs_fsrename_add_rroot, rfs_fsrename_add_dentry,
    root_rchain, root_dentry, root_rinfo.
  returns_tac.
Qed.

(** *** The calls of the set phase *)

Lemma set_loop_calls r d c c' l s :
  exists rv s' t,
    fsrename_set_loop r d c c' l s = Some (rv, s') /\
    appends s s' t /\
    t `prefix_of` ((fun f => InfoSet d (mk_info c (Some r)) f) <$>
                     filter (fun f => member c' f = true) l) /\
    (rv = 0%Z ->
     t = (fun f => InfoSet d (mk_info c (Some r)) f) <$>
           filter (fun f => member c' f = true) l).
Proof.
  revert s. induction l as [|f l IH]; intros s; simpl.
  - exists 0%Z, s, []. split; [done|]. split; [apply appends_nil|]. done.
  - destruct (Z.eqb (rfs_chain_find c' f) (-1)) eqn:Hf.
    { rewrite filter_cons_False; [apply IH|]. unfold member. by rewrite Hf. }
    rewrite filter_cons_True by (unfold member; by rewrite Hf).
    rewrite fmap_cons.
    destruct (returns_info_alloc r c s) as [[ri s1] Eri].
    pose proof (info_alloc_silent _ _ _ _ _ Eri) as Hsil.
    rewrite (bind_run _ _ _ _ _ Eri).
    assert (ri = inl (- ENOMEM)%Z \/ ri = inr (mk_info c (Some r))) as [-> | ->].
    { unfold rfs_info_alloc in Eri. mbind Eri as ok s0 Eok.
      destruct ok; mstep Eri; auto. }
    { exists (- ENOMEM)%Z, s1, []. split; [done|].
      split; [by apply appends_silent|]. split; [apply prefix_nil|done]. }
    destruct (returns_ext (InfoSet d (mk_info c (Some r)) f) s1) as [[rv1 s2] Eext].
    pose proof (ext_appends _ _ _ _ Eext) as Happ.
    rewrite (bind_run _ _ _ _ _ Eext).
    assert (appends s s2 [InfoSet d (mk_info c (Some r)) f]) as Ha.
    { unfold appends in *. congruence. }
    destruct (Z.eqb_spec rv1 0) as [->|Hrv]; simpl.
    + destruct (IH s2) as (rv & s' & t & Hrun & Ht & Hpre & Hall).
      exists rv, s', (InfoSet d (mk_info c (Some r)) f :: t).
      split; [done|]. split; [by apply (appends_trans s s2 s' [_] t)|].
      split; [by apply prefix_cons|]. intros Hz. by rewrite Hall.
    + exists rv1, s2, [InfoSet d (mk_info c (Some r)) f].
      split; [done|]. split; [done|].
      split; [apply prefix_cons, prefix_nil|done].
Qed.

(** The set phase faults exactly on [set_faults]; elsewhere it returns,
    its calls are a prefix of [set_calls], and all of them when it
    returns 0. *)
Lemma fsrename_set_calls src dst d s :
  (set_faults (world s) src dst d = true /\ rfs_fsrename_set src dst d s = None) \/
  (set_faults (world s) src dst d = false /\
   exists rv s' t,
     rfs_fsrename_set src dst d s = Some (rv, s') /\
     appends s s' t /\
     t `prefix_of` set_calls (world s) src dst d /\
     (rv = 0%Z -> t = set_calls (world s) src dst d)).
Proof.
  assert (forall w : @state W, exists rv s' t,
            ret (W := W) 0%Z w = Some (rv, s') /\ appends w s' t /\
            t `prefix_of` [] /\ (rv = 0%Z -> t = [])) as Hidle.
  { intros w. exists 0%Z, w, []. split; [done|]. split; [apply appends_nil|done]. }
  unfold rfs_fsrename_set, set_faults, set_calls.
  destruct src as [src|]; [|right; split; [done|apply Hidle]].
  destruct dst as [dst|]; [|right; split; [done|apply Hidle]].
  unfold bind, root_dentry, root_rchain, gets.
  destruct (Nat.eqb (rr_dentry (root_obj (world s) src)) d); simpl;
    [right; split; [done|apply Hidle]|].
  destruct (rfs_dentry_find (world s) d) as [rd|];
    [|right; split; [done|apply Hidle]].
  destruct (ri_rchain rd) as [l|] eqn:Hc; simpl.
  - right. split; [done|]. apply set_loop_calls.
  - left. done.
Qed.

Lemma set_calls_class w src dst d t :
  t `prefix_of` set_calls w src dst d -> Forall (fun c => is_set c = true) t.
Proof.
  intros [k Hk].
  assert (Forall (fun c => is_set c = true) (set_calls w src dst d)) as Hall.
  { unfold set_calls. destruct src, dst; try constructor.
    destruct (Nat.eqb _ d); [constructor|].
    destruct (rfs_dentry_find w d); [|constructor].
    apply Forall_fmap, Forall_forall. done. }
  rewrite Hk in Hall. by apply Forall_app in Hall as [? _].
Qed.


(** C3, as the code has it: when the two parent directories are the
    same, or when the new parent has an identity-cache record and the
    root of the moved entry's own cache record equals the root of that
    record (both may be none), rfs_fsrename returns 0 and the state
    (registry, path objects, collaborators' state, calls made) is
    unchanged. *)
Theorem fsrename_same_root_unchanged s od oe nd ne :
  (od = nd \/
   exists ri, rfs_inode_find (world s) nd = Some ri /\
     entry_root (world s) oe = chain_root ri) ->
  rfs_fsrename od oe nd ne s = Some (0%Z, s).
Proof.
  intros Hcase. unfold rfs_fsrename.
  destruct (Nat.eqb_spec od nd) as [|Hne]; [done|].
  destruct Hcase as [|(ri & Hino & Hroot)]; [done|].
  unfold bind, gets. rewrite Hino. fold (entry_root (world s) oe).
  rewrite Hroot.
  assert (root_eqb (chain_root ri) (chain_root ri) = true) as ->
    by by apply root_eqb_eq.
  done.
Qed.

(** Without a record of the new parent the rename faults. *)
Lemma fsrename_missing_inode_faults s od oe nd ne :
  od <> nd -> rfs_inode_find (world s) nd = None ->
  rfs_fsrename od oe nd ne s = None.
Proof.
  intros Hne Hino. unfold rfs_fsrename.
  destruct (Nat.eqb_spec od nd) as [|_]; [done|].
  unfold bind, gets. by rewrite Hino.
Qed.

(** ** redirfs_rem_paths for a filter that no path cites *)

Lemma get_paths_scan_none l f s :
  (forall a, a ∈ l -> exists o, heap s !! a = Some o /\ cites o f = false) ->
  get_paths_scan l f s = Some ([], s).
Proof.
  induction l as [|a l IH]; intros Hl; [done|].
  destruct (Hl a) as (o & Ho & Hcit); [by left|].
  cbn [get_paths_scan]. rewrite (bind_run _ _ _ _ _ (deref_run _ _ _ Ho)).
  fold (member (rp_rinch o) f). fold (member (rp_rexch o) f).
  fold (cites o f). rewrite Hcit. apply IH. intros b Hb. apply Hl. by right.
Qed.

Lemma citing_paths_nil h l f :
  citing_paths h l f = [] -> forall a, a ∈ l -> cites_at h a f = false.
Proof.
  intros Hnil a Ha. apply not_true_is_false. intros Hc.
  assert (a ∈ citing_paths h l f) as Hin by by apply list_elem_of_filter.
  rewrite Hnil in Hin. by apply elem_of_nil in Hin.
Qed.

(** Whatever the state, when no registered path cites the filter and the
    array can be allocated, the loop body never runs and the unassigned
    [rv] is returned. *)
Lemma rem_paths_no_citing s f :
  inv s -> citing_paths (heap s) (rfs_path_list s) f = [] ->
  (kzalloc (world s)).1 = true ->
  redirfs_rem_paths (Some f) s = Some (None, set_world s (kzalloc (world s)).2).
Proof.
  intros [Hb _] Hnil Hok.
  assert (paths_nr s f = 0%Z) as Hnr.
  { unfold paths_nr. rewrite (bi_nr _ _ _ Hb). unfold citing. by rewrite Hnil. }
  set (s1 := set_world s (kzalloc (world s)).2).
  assert (alloc s = Some (true, s1)) as Halloc.
  { unfold alloc, s1. destruct (kzalloc (world s)) as [ok w]. simpl in *. by subst. }
  assert (get_paths_scan (rfs_path_list s1) f s1 = Some ([], s1)) as Hscan.
  { apply get_paths_scan_none. intros a Ha. simpl in *.
    destruct (bi_live _ _ _ Hb a Ha) as [o Ho]. exists o. split; [done|].
    pose proof (citing_paths_nil _ _ _ Hnil a Ha) as Hc.
    unfold cites_at in Hc. by rewrite Ho in Hc. }
  unfold redirfs_rem_paths, redirfs_get_paths.
  unfold bind at 1 2. unfold gets at 1.
  rewrite (bind_run _ _ _ _ _ Halloc).
  unfold bind at 1. unfold gets at 1.
  rewrite (bind_run _ _ _ _ _ Hscan).
  rewrite Hnr. done.
Qed.

(** ** Registration of a new path, then removal *)

Lemma rem_flt_single f : rem_flt (add_flt None f) f = None.
Proof. unfold rem_flt, add_flt. simpl. by rewrite Nat.eqb_refl. Qed.

(** What holds of the round trip whatever the ids: the path created by
    the registration is off the list after the removal, the list is the
    one before the registration, and the object, if it is still alive,
    has both chains empty. *)
Lemma add_rem_round_trip s f mnt d flags a s1 s2 :
  inv s -> (Z.of_nat (length (rfs_path_list s)) < INT_MAX)%Z ->
  no_path_for s mnt d ->
  redirfs_add_path (Some f) (add_info mnt d flags) s = Some (PTR a, s1) ->
  redirfs_rem_path (Some f) (PTR a) s1 = Some (0%Z, s2) ->
  (a ∉ rfs_path_list s2) /\ rfs_path_list s2 = rfs_path_list s /\
  (forall o, heap s2 !! a = Some o -> rp_rinch o = None /\ rp_rexch o = None).
Proof.
  intros Hinv Hlen Hnp Hadd Hrem.
  pose proof (add_path_inv _ _ _ _ _ Hinv Hlen Hadd) as Hinv1.
  eapply add_path_cases in Hadd
    as [(e & ? & _)
       |[(a' & o & o' & [= <-] & Hal & Ho & Hm & Hd & _)
        |(a' & i & rroot & o' & [= <-] & _ & Hfresh & _ & Hcadd & Hh & Hl & _)]];
    [done| | |done].
  { exfalso. by apply (Hnp a o). }
  assert (a ∉ rfs_path_list s) as Hnl by by apply inv_not_listed.
  eapply rem_path_cases in Hrem
    as (o1 & Ho1 & _ & [[? _]|(_ & o2 & Hcrem & _ & Hcase)]); [done| |done].
  rewrite Hh, lookup_insert_eq in Ho1. simplify_eq.
  assert (rp_rinch o2 = None /\ rp_rexch o2 = None) as [Hi He].
  { destruct Hcadd as [->| ->], Hcrem as [[Hm ->]|(Hm & Hm' & ->)]; simpl in *;
      rewrite ?rem_flt_single; done. }
  destruct Hcase as [([?|?] & _)|(_ & _ & _ & _ & Hh2 & Hl2)]; [done|done|].
  rewrite Hl2, Hl, list_del_app_new by done.
  split; [done|]. split; [done|].
  intros o. rewrite Hh2. destruct (Z.eqb _ _).
  - by rewrite lookup_delete_eq.
  - rewrite lookup_insert_eq. intros [= <-]. done.
Qed.

(** * Further properties of the public interface *)

(** ** Lookup by id *)

Lemma find_id_scan_run l i s :
  (forall a, a ∈ l -> exists o, heap s !! a = Some o /\ rp_count o <> 0%Z) ->
  ((forall a o, a ∈ l -> heap s !! a = Some o -> rp_id o <> i) /\
   path_find_id_scan l i s = Some (NULL, s)) \/
  (exists l1 a l2 o, l = l1 ++ a :: l2 /\ heap s !! a = Some o /\ rp_id o = i /\
     (forall b ob, b ∈ l1 -> heap s !! b = Some ob -> rp_id ob <> i) /\
     path_find_id_scan l i s =
       Some (PTR a, set_heap s (<[a := set_count o (rp_count o + 1)]> (heap s)))).
Proof.
  induction l as [|a l IH]; intros Hlive.
  - left. split; [|done]. intros a o Ha. by apply elem_of_nil in Ha.
  - destruct (Hlive a) as (o & Ho & Hc); [by left|].
    cbn [path_find_id_scan]. rewrite (bind_run _ _ _ _ _ (deref_run _ _ _ Ho)).
    destruct (Z.eqb_spec (rp_id o) i) as [Hi|Hi]; simpl.
    + right. exists [], a, l, o. do 3 (split; [done|]).
      split; [intros b ob Hb; by apply elem_of_nil in Hb|]. by apply path_get_run.
    + destruct IH as [[Hno Hrun]|(l1 & b & l2 & ob & -> & Hob & Hib & Hl1 & Hrun)].
      { intros b Hb. apply Hlive. by right. }
      * left. split; [|done].
        intros b ob [->|Hb]%elem_of_cons Hob; [by simplify_eq|by eapply Hno].
      * right. exists (a :: l1), b, l2, ob. do 3 (split; [done|]). split; [|done].
        intros c oc [->|Hc']%elem_of_cons Hoc; [by simplify_eq|by eapply Hl1].
Qed.

Lemma inv_live_counted s a :
  inv s -> a ∈ rfs_path_list s ->
  exists o, heap s !! a = Some o /\ rp_count o <> 0%Z.
Proof.
  intros [Hb _] Ha. destruct (bi_live _ _ _ Hb a Ha) as [o Ho].
  exists o. split; [done|]. destruct (bi_ok _ _ _ Hb a o Ho). lia.
Qed.

(** X1: on every reachable state redirfs_get_path_id does not fault; it
    returns NULL and leaves the state as it is when no registered path
    carries the id, and otherwise returns the first path of the registry
    list that carries the id, with one more reference. *)
Theorem get_path_id_first_match s i :
  reachable s ->
  ((forall a o, a ∈ rfs_path_list s -> heap s !! a = Some o -> rp_id o <> i) /\
   redirfs_get_path_id i s = Some (NULL, s)) \/
  (exists l1 a l2 o,
     rfs_path_list s = l1 ++ a :: l2 /\ heap s !! a = Some o /\ rp_id o = i /\
     (forall b ob, b ∈ l1 -> heap s !! b = Some ob -> rp_id ob <> i) /\
     redirfs_get_path_id i s =
       Some (PTR a, set_heap s (<[a := set_count o (rp_count o + 1)]> (heap s)))).
Proof.
  intros Hinv%reachable_inv.
  unfold redirfs_get_path_id, rfs_path_find_id, bind, gets.
  apply find_id_scan_run. intros a Ha. by apply inv_live_counted.
Qed.

(** ** Taking and releasing a reference *)

(** X2: on every reachable state, redirfs_get_path on a live path object
    followed by redirfs_put_path on the result gives back the state
    before the two calls. *)
Theorem get_put_path_restores s a :
  reachable s -> is_Some (heap s !! a) ->
  (let* p := redirfs_get_path (PTR a) in redirfs_put_path p) s = Some (tt, s).
Proof.
  intros [Hb _]%reachable_inv [o Ho].
  destruct (bi_ok _ _ _ Hb a o Ho) as [_ Hc].
  unfold redirfs_get_path, redirfs_put_path.
  rewrite (bind_run _ _ _ _ _ (path_get_run _ _ _ Ho ltac:(lia))).
  erewrite path_put_run; [|apply lookup_insert_eq|simpl; lia|simpl; lia].
  simpl. rewrite set_count_back, insert_insert_eq.
  rewrite (insert_id (heap s) a o) by done. by destruct s.
Qed.

(** ** Registration on a path that is already registered *)

Lemma path_add_existing s a o :
  inv s -> a ∈ rfs_path_list s -> heap s !! a = Some o ->
  rfs_path_add (rp_mnt o) (rp_dentry o) s =
  Some (PTR a, set_heap s (<[a := set_count o (rp_count o + 1)]> (heap s))).
Proof.
  intros [Hb _] Hal Ho. destruct (bi_ok _ _ _ Hb a o Ho) as [_ Hc].
  assert (rfs_path_find (rp_mnt o) (rp_dentry o) s =
          Some (PTR a, set_heap s (<[a := set_count o (rp_count o + 1)]> (heap s))))
    as Hfind.
  { unfold rfs_path_find, bind, gets.
    apply path_find_scan_found; try done; [|intros b ob Hbl Hob Hm Hd|lia].
    - intros b Hbl. by apply (bi_live _ _ _ Hb).
    - by apply (bi_keys _ _ _ Hb b a ob o). }
  unfold rfs_path_add. by rewrite (bind_run _ _ _ _ _ Hfind).
Qed.

Lemma path_rem_keeps s a o :
  heap s !! a = Some o -> rp_rinch o <> None \/ rp_rexch o <> None ->
  rfs_path_rem a s = Some (tt, s).
Proof.
  intros Ho Hne. unfold rfs_path_rem.
  rewrite (bind_run _ _ _ _ _ (deref_run _ _ _ Ho)).
  destruct (rp_rinch o), (rp_rexch o); try done. by destruct Hne.
Qed.

(** X3: on every reachable state, registering a filter again in the mode
    it already has on a registered path returns that path and changes
    nothing but its reference count, which goes up by one: no chain, no
    counter and no list entry is added. *)
Theorem add_path_again_same_mode s a o f flags :
  reachable s -> a ∈ rfs_path_list s -> heap s !! a = Some o ->
  (flags = REDIRFS_PATH_INCLUDE /\ f ∈ chain_list (rp_rinch o) \/
   flags = REDIRFS_PATH_EXCLUDE /\ f ∈ chain_list (rp_rexch o)) ->
  redirfs_add_path (Some f) (add_info (rp_mnt o) (rp_dentry o) flags) s =
  Some (PTR a, set_heap s (<[a := set_count o (rp_count o + 1)]> (heap s))).
Proof.
  intros Hinv%reachable_inv Hal Ho Hmode.
  pose proof (path_add_existing _ _ _ Hinv Hal Ho) as Hadd.
  set (o1 := set_count o (rp_count o + 1)) in *.
  set (s1 := set_heap s (<[a := o1]> (heap s))) in *.
  assert (heap s1 !! a = Some o1) as Ho1 by apply lookup_insert_eq.
  assert ((if Z.eqb flags REDIRFS_PATH_INCLUDE then rfs_path_add_include a f
           else if Z.eqb flags REDIRFS_PATH_EXCLUDE then rfs_path_add_exclude a f
           else ret (- EINVAL)%Z) s1 = Some (0%Z, s1)) as Hmode1.
  { destruct Hmode as [[-> Hf]|[-> Hf]]; simpl.
    - unfold rfs_path_add_include.
      rewrite (bind_run _ _ _ _ _ (deref_run _ _ _ Ho1)).
      fold (member (rp_rinch o1) f).
      assert (member (rp_rinch o1) f = true) as -> by by apply member_spec.
      done.
    - unfold rfs_path_add_exclude.
      rewrite (bind_run _ _ _ _ _ (deref_run _ _ _ Ho1)).
      fold (member (rp_rexch o1) f).
      assert (member (rp_rexch o1) f = true) as -> by by apply member_spec.
      done. }
  assert (rfs_path_rem a s1 = Some (tt, s1)) as Hrem.
  { apply (path_rem_keeps _ _ o1); [done|].
    destruct Hinv as [_ Hne]. exact (Hne a o Hal Ho). }
  unfold redirfs_add_path, add_info. simpl.
  assert (Z.eqb flags 0 = false) as ->.
  { destruct Hmode as [[-> _]|[-> _]]; done. }
  rewrite (bind_run _ _ _ _ _ Hadd).
  rewrite (bind_run _ _ _ _ _ Hmode1).
  by rewrite (bind_run _ _ _ _ _ Hrem).
Qed.

(** ** The mode of a successful registration *)

Lemma add_mode_member flags a o f s s' :
  heap s !! a = Some o ->
  (if Z.eqb flags REDIRFS_PATH_INCLUDE then rfs_path_add_include a f
   else if Z.eqb flags REDIRFS_PATH_EXCLUDE then rfs_path_add_exclude a f
   else ret (- EINVAL)%Z) s = Some (0%Z, s') ->
  exists o', heap s' !! a = Some o' /\
    (flags = REDIRFS_PATH_INCLUDE /\ member (rp_rinch o') f = true /\
       rp_rexch o' = rp_rexch o \/
     flags = REDIRFS_PATH_EXCLUDE /\ member (rp_rexch o') f = true /\
       rp_rinch o' = rp_rinch o).
Proof.
  intros Ho H.
  destruct (Z.eqb_spec flags REDIRFS_PATH_INCLUDE) as [->|Hi].
  { eapply path_add_include_spec in H
      as [(_ & Hm & ->)|[(? & _)|(_ & _ & _ & Hh & _)]]; [| | |done].
    - exists o. split; [done|]. left. done.
    - done.
    - eexists. split; [rewrite Hh; apply lookup_insert_eq|]. left.
      split; [done|]. split; [|done]. simpl. apply member_add_flt. by right. }
  destruct (Z.eqb_spec flags REDIRFS_PATH_EXCLUDE) as [->|He].
  { eapply path_add_exclude_spec in H
      as [(_ & Hm & ->)|[(? & _)|(_ & _ & _ & Hh & _)]]; [| | |done].
    - exists o. split; [done|]. right. done.
    - done.
    - eexists. split; [rewrite Hh; apply lookup_insert_eq|]. right.
      split; [done|]. split; [|done]. simpl. apply member_add_flt. by right. }
  by mstep H.
Qed.

Lemma add_path_result_mode f mnt d flags s a s' :
  redirfs_add_path (Some f) (add_info mnt d flags) s = Some (PTR a, s') ->
  exists o', heap s' !! a = Some o' /\
    (flags = REDIRFS_PATH_INCLUDE /\ member (rp_rinch o') f = true \/
     flags = REDIRFS_PATH_EXCLUDE /\ member (rp_rexch o') f = true).
Proof.
  intros H. unfold redirfs_add_path, add_info in H. simpl in H.
  destruct (Z.eqb flags 0); [by mstep H|].
  mbind H as rp s1 Eadd.
  assert (exists a1 o1, rp = PTR a1 /\ heap s1 !! a1 = Some o1) as (a1 & o1 & -> & Ho1).
  { apply path_add_spec in Eadd
      as [(a1 & o & -> & _ & _ & _ & _ & _ & ->)
         |[(a1 & i & rroot & -> & _ & _ & _ & Hh1 & _)
          |(e & -> & _)]].
    - eexists _, _. split; [done|]. apply lookup_insert_eq.
    - eexists _, _. split; [done|]. rewrite Hh1. apply lookup_insert_eq.
    - destruct (IS_ERR_VALUE e); by mstep H. }
  mbind H as rv s2 Emode. mbind H as u s3 Erem.
  destruct (Z.eqb_spec rv 0) as [->|_]; simpl in H.
  2:{ mbind H as u' s4 Eput. by mstep H. }
  mstep H.
  apply (add_mode_member _ _ _ _ _ _ Ho1) in Emode as (o2 & Ho2 & Hmode).
  exists o2.
  apply (path_rem_spec _ _ _ _ _ Ho2) in Erem as [[_ ->]|(Hi & He & _)].
  - split; [done|]. destruct Hmode as [(? & ? & _)|(? & ? & _)]; auto.
  - destruct Hmode as [(_ & Hm & _)|(_ & Hm & _)];
      [rewrite Hi in Hm|rewrite He in Hm]; done.
Qed.

(** X4: on every reachable state, redirfs_add_path with a [flags] value
    that is neither Include nor Exclude returns an error and leaves the
    registry list, the path objects and the filter counters as they
    were, although it first finds or creates the path. *)
Theorem add_path_unknown_mode_registers_nothing s f mnt d flags r s' :
  reachable s ->
  flags <> REDIRFS_PATH_INCLUDE -> flags <> REDIRFS_PATH_EXCLUDE ->
  redirfs_add_path (Some f) (add_info mnt d flags) s = Some (r, s') ->
  exists e, r = ERR e /\
    heap s' = heap s /\ rfs_path_list s' = rfs_path_list s /\ flt_nr s' = flt_nr s.
Proof.
  intros Hinv%reachable_inv Hi He H. pose proof H as H'.
  eapply add_path_cases in H
    as [(e & -> & Hreg)|[(a & o & o' & -> & _)|(a & i & rroot & o' & -> & _)]];
    [by exists e| | |done];
    apply add_path_result_mode in H' as (? & _ & [[? _]|[? _]]); done.
Qed.

(** X5: on every reachable state, a registration that creates the path
    (no registered path has the mount and entry) appends the new object
    at the tail of the registry list; the object carries the mount, the
    entry, the filter alone in the chain of the requested mode, an empty
    chain of the other mode, a root and three references (the list, the
    root and the caller); no other object changes. *)
Theorem add_path_creates_object s f mnt d flags a s' :
  reachable s -> no_path_for s mnt d ->
  redirfs_add_path (Some f) (add_info mnt d flags) s = Some (PTR a, s') ->
  heap s !! a = None /\
  rfs_path_list s' = rfs_path_list s ++ [a] /\
  (forall b, b <> a -> heap s' !! b = heap s !! b) /\
  exists i rroot,
    heap s' !! a =
    Some (mk_path i mnt d
            (if Z.eqb flags REDIRFS_PATH_INCLUDE then Some [f] else None)
            (if Z.eqb flags REDIRFS_PATH_INCLUDE then None else Some [f])
            (Some rroot) 3).
Proof.
  intros Hinv%reachable_inv Hnp H. pose proof H as H'.
  eapply add_path_cases in H
    as [(e & ? & _)
       |[(a' & o & o' & [= <-] & Hal & Ho & Hm & Hd & _)
        |(a' & i & rroot & o' & [= <-] & _ & Hfresh & _ & Hadd & Hh & Hl & _)]];
    [done| | |done].
  { exfalso. by apply (Hnp a o). }
  split; [done|]. split; [done|].
  split; [intros b Hb; rewrite Hh; by apply lookup_insert_ne|].
  exists i, rroot. rewrite Hh, lookup_insert_eq. f_equal.
  apply add_path_result_mode in H' as (o2 & Ho2 & Hmode).
  rewrite Hh, lookup_insert_eq in Ho2. simplify_eq.
  destruct Hadd as [->| ->], Hmode as [[-> Hm]|[-> Hm]]; simpl in *; done.
Qed.

(** ** Removal of a filter from a path *)

(** X6: on every reachable state, redirfs_rem_path of a filter that
    neither chain of the registered path holds returns -EINVAL and
    leaves the whole state as it was. *)
Theorem rem_path_not_cited_rejected s a o f :
  reachable s -> a ∈ rfs_path_list s -> heap s !! a = Some o ->
  cites o f = false ->
  redirfs_rem_path (Some f) (PTR a) s = Some ((- EINVAL)%Z, s).
Proof.
  intros [_ Hne]%reachable_inv Hal Ho Hcit.
  apply orb_false_elim in Hcit as [Hi He]. unfold member in Hi, He.
  unfold redirfs_rem_path.
  rewrite (bind_run _ _ _ _ _ (deref_run _ _ _ Ho)).
  rewrite Hi, He. unfold bind at 1. unfold ret at 1.
  by rewrite (bind_run _ _ _ _ _ (path_rem_keeps _ _ _ Ho (Hne a o Hal Ho))).
Qed.

(** X7: on every reachable state, a successful redirfs_rem_path takes
    the filter out of the chain that held it and leaves the other
    filters of the path and all other path objects as they were; the
    path stays on the registry list when one of its chain pointers is
    still set, and otherwise leaves the list and loses the references of
    the list and of the root, which frees it when no other reference is
    left. *)
Theorem rem_path_success_effect s f a s' :
  reachable s ->
  redirfs_rem_path (Some f) (PTR a) s = Some (0%Z, s') ->
  exists o o',
    heap s !! a = Some o /\ a ∈ rfs_path_list s /\
    chain_removed o o' f /\
    cites o f = true /\ cites o' f = false /\
    (forall g, g <> f -> cites o' g = cites o g) /\
    (forall b, b <> a -> heap s' !! b = heap s !! b) /\
    if chain_null (rp_rinch o') && chain_null (rp_rexch o') then
      rfs_path_list s' = list_del a (rfs_path_list s) /\
      heap s' !! a =
        (if Z.eqb (rp_count o) 2 then None
         else Some (set_rroot (set_count o' (rp_count o - 2)) None))
    else
      rfs_path_list s' = rfs_path_list s /\ heap s' !! a = Some o'.
Proof.
  intros Hinv%reachable_inv H.
  eapply rem_path_cases in H
    as (o & Ho & Hal & [[? _]|(_ & o' & Hrem & _ & Hcase)]); [done| |done].
  destruct Hinv as [Hb _]. destruct (bi_ok _ _ _ Hb a o Ho) as [Hok _].
  destruct (chain_removed_facts _ _ _ Hrem Hok)
    as (_ & Hoth & Hcit & Hcit' & _ & _ & Hc & _).
  exists o, o'. do 6 (split; [done|]).
  destruct Hcase as [(Hne & Hh & Hl)|(Hi & He & _ & _ & Hh & Hl)].
  - split; [intros b Hb'; rewrite Hh; by apply lookup_insert_ne|].
    assert (chain_null (rp_rinch o') && chain_null (rp_rexch o') = false) as ->.
    { destruct (rp_rinch o'), (rp_rexch o'); try done. by destruct Hne. }
    split; [done|]. rewrite Hh. apply lookup_insert_eq.
  - rewrite Hi, He. simpl. rewrite Hc in Hh.
    replace (rp_count o - 1 - 1)%Z with (rp_count o - 2)%Z in Hh by lia.
    assert (Z.eqb (rp_count o - 2) 0 = Z.eqb (rp_count o) 2) as Heq.
    { destruct (Z.eqb_spec (rp_count o) 2), (Z.eqb_spec (rp_count o - 2) 0); lia. }
    rewrite Heq in Hh. rewrite Hh.
    split; [|split; [done|]]; destruct (Z.eqb (rp_count o) 2).
    + intros b Hb'. by apply lookup_delete_ne.
    + intros b Hb'. by apply lookup_insert_ne.
    + apply lookup_delete_eq.
    + apply lookup_insert_eq.
Qed.

(** ** The paths of a filter *)

Lemma with_refs_cons_out paths delta a b o :
  b <> a -> with_refs (a :: paths) delta b o = with_refs paths delta b o.
Proof.
  intros Hba. unfold with_refs.
  destruct (decide (b ∈ paths)) as [Hin|Hin].
  - rewrite decide_True; [done|by right].
  - rewrite decide_False; [done|]. by intros [?|?]%elem_of_cons.
Qed.

Lemma with_refs_in paths delta b o :
  b ∈ paths -> with_refs paths delta b o = set_count o (rp_count o + delta).
Proof. intros Hb. unfold with_refs. by rewrite decide_True. Qed.

Lemma with_refs_out paths delta b o : b ∉ paths -> with_refs paths delta b o = o.
Proof. intros Hb. unfold with_refs. by rewrite decide_False. Qed.

Lemma get_paths_scan_run l f s :
  NoDup l ->
  (forall a, a ∈ l -> exists o, heap s !! a = Some o /\ rp_count o <> 0%Z) ->
  exists h',
    get_paths_scan l f s = Some (citing_paths (heap s) l f, set_heap s h') /\
    forall b, h' !! b = with_refs (citing_paths (heap s) l f) 1 b <$> heap s !! b.
Proof.
  intros Hnd. revert s. induction Hnd as [|a l Hal Hnd IH]; intros s Hlive.
  - exists (heap s). unfold citing_paths. rewrite filter_nil.
    split; [simpl; unfold ret; by rewrite set_heap_same|].
    intros b. destruct (heap s !! b); [|done]. simpl.
    by rewrite with_refs_out by apply not_elem_of_nil.
  - destruct (Hlive a) as (o & Ho & Hc); [by left|].
    cbn [get_paths_scan]. rewrite (bind_run _ _ _ _ _ (deref_run _ _ _ Ho)).
    fold (member (rp_rinch o) f). fold (member (rp_rexch o) f). fold (cites o f).
    assert (cites_at (heap s) a f = cites o f) as Hca
      by (unfold cites_at; by rewrite Ho).
    unfold citing_paths. rewrite filter_cons. fold (citing_paths (heap s) l f).
    assert (a ∉ citing_paths (heap s) l f) as Hna.
    { unfold citing_paths. by intros [_ Hin]%list_elem_of_filter. }
    destruct (cites o f) eqn:Hcit.
    + rewrite decide_True by done.
      rewrite (bind_run _ _ _ _ _ (path_get_run _ _ _ Ho Hc)).
      set (s1 := set_heap s (<[a := set_count o (rp_count o + 1)]> (heap s))).
      destruct (IH s1) as (h' & Hrun & Hh').
      { intros b Hb. simpl. rewrite lookup_insert_ne by (by intros ->).
        apply Hlive. by right. }
      assert (citing_paths (heap s1) l f = citing_paths (heap s) l f) as Hcp.
      { unfold citing_paths. apply list_filter_iff. intros b. simpl.
        rewrite cites_at_insert. destruct (decide (a = b)) as [<-|]; [|done].
        by rewrite Hca. }
      rewrite Hcp in Hrun, Hh'. rewrite (bind_run _ _ _ _ _ Hrun).
      exists h'. split; [done|].
      intros b. rewrite Hh'. simpl. destruct (decide (b = a)) as [->|Hba].
      * rewrite lookup_insert_eq, Ho. simpl.
        rewrite with_refs_out by done. rewrite with_refs_in; [done|by left].
      * rewrite lookup_insert_ne by done. destruct (heap s !! b); [|done].
        simpl. by rewrite with_refs_cons_out.
    + rewrite decide_False by (by rewrite Hca).
      apply IH. intros b Hb. apply Hlive. by right.
Qed.

Lemma alloc_run s :
  alloc s = Some ((kzalloc (world s)).1, set_world s (kzalloc (world s)).2).
Proof. unfold alloc. by destruct (kzalloc (world s)). Qed.

Lemma get_paths_run s f :
  inv s -> (kzalloc (world s)).1 = true ->
  exists h',
    redirfs_get_paths (Some f) s =
      Some (inr (citing_paths (heap s) (rfs_path_list s) f),
            set_heap (set_world s (kzalloc (world s)).2) h') /\
    forall b, h' !! b =
      with_refs (citing_paths (heap s) (rfs_path_list s) f) 1 b <$> heap s !! b.
Proof.
  intros Hinv Hok. pose proof Hinv as [Hb _].
  set (s1 := set_world s (kzalloc (world s)).2).
  destruct (get_paths_scan_run (rfs_path_list s1) f s1) as (h' & Hscan & Hh').
  { apply (bi_nodup _ _ _ Hb). }
  { intros a Ha. by apply (inv_live_counted s). }
  exists h'. split; [|done].
  unfold redirfs_get_paths. unfold bind at 1. unfold gets at 1.
  rewrite (bind_run _ _ _ _ _ (alloc_run s)), Hok.
  unfold bind at 1. unfold gets at 1.
  rewrite (bind_run _ _ _ _ _ Hscan). simpl.
  assert (array_fits (paths_nr s f) (citing_paths (heap s) (rfs_path_list s) f) = true)
    as ->; [|done].
  unfold array_fits, paths_nr. rewrite (bi_nr _ _ _ Hb). unfold citing.
  apply Z.leb_le. lia.
Qed.

(** X8: on every reachable state redirfs_get_paths does not fault.  When
    the array can be allocated it returns the registered paths whose
    include or exclude chain holds the filter, in the order of the
    registry list, and gives each of them one more reference; the array
    of [paths_nr + 1] slots is never overrun.  When the allocation fails
    it returns -ENOMEM.  The registry list and the counters are left as
    they were. *)
Theorem get_paths_returns_citing_paths s f :
  reachable s ->
  exists r s',
    redirfs_get_paths (Some f) s = Some (r, s') /\
    rfs_path_list s' = rfs_path_list s /\ flt_nr s' = flt_nr s /\
    if (kzalloc (world s)).1 then
      r = inr (citing_paths (heap s) (rfs_path_list s) f) /\
      forall b, heap s' !! b =
        with_refs (citing_paths (heap s) (rfs_path_list s) f) 1 b <$> heap s !! b
    else r = inl (- ENOMEM)%Z /\ heap s' = heap s.
Proof.
  intros Hinv%reachable_inv.
  destruct (kzalloc (world s)).1 eqn:Hok.
  - destruct (get_paths_run s f Hinv Hok) as (h' & Hrun & Hh').
    eexists _, _. split; [exact Hrun|]. done.
  - eexists _, _. split.
    { unfold redirfs_get_paths. unfold bind at 1. unfold gets at 1.
      rewrite (bind_run _ _ _ _ _ (alloc_run s)), Hok. reflexivity. }
    done.
Qed.

Lemma put_paths_loop_run paths s :
  NoDup paths ->
  (forall a, a ∈ paths -> exists o,
     heap s !! a = Some o /\ rp_count o <> 0%Z /\ (rp_count o - 1)%Z <> 0%Z) ->
  exists h',
    put_paths_loop paths s = Some (tt, set_heap s h') /\
    forall b, h' !! b = with_refs paths (-1) b <$> heap s !! b.
Proof.
  intros Hnd. revert s. induction Hnd as [|a l Hal Hnd IH]; intros s Hlive.
  - exists (heap s). split; [simpl; unfold ret; by rewrite set_heap_same|].
    intros b. destruct (heap s !! b); [|done]. simpl.
    by rewrite with_refs_out by apply not_elem_of_nil.
  - destruct (Hlive a) as (o & Ho & Hc & Hc'); [by left|].
    cbn [put_paths_loop]. unfold redirfs_put_path.
    rewrite (bind_run _ _ _ _ _ (path_put_run _ _ _ Ho Hc Hc')).
    set (s1 := set_heap s (<[a := set_count o (rp_count o - 1)]> (heap s))).
    destruct (IH s1) as (h' & Hrun & Hh').
    { intros b Hb. simpl. rewrite lookup_insert_ne by (by intros ->).
      apply Hlive. by right. }
    exists h'. split; [done|].
    intros b. rewrite Hh'. simpl. destruct (decide (b = a)) as [->|Hba].
    + rewrite lookup_insert_eq, Ho. simpl.
      rewrite with_refs_out by done. rewrite with_refs_in; [done|by left].
    + rewrite lookup_insert_ne by done. destruct (heap s !! b); [|done].
      simpl. by rewrite with_refs_cons_out.
Qed.

(** X9: on every reachable state, redirfs_put_paths on the array that
    redirfs_get_paths returned does not fault and gives back every
    reference taken: the path objects, the registry list and the
    counters are those before redirfs_get_paths. *)
Theorem get_put_paths_restores s f l s1 :
  reachable s ->
  redirfs_get_paths (Some f) s = Some (inr l, s1) ->
  exists s2,
    redirfs_put_paths (Some l) s1 = Some (tt, s2) /\
    heap s2 = heap s /\ rfs_path_list s2 = rfs_path_list s /\
    flt_nr s2 = flt_nr s.
Proof.
  intros Hinv%reachable_inv H. pose proof Hinv as [Hb _].
  destruct (kzalloc (world s)).1 eqn:Hok.
  2:{ unfold redirfs_get_paths in H. unfold bind at 1 in H. unfold gets at 1 in H.
      rewrite (bind_run _ _ _ _ _ (alloc_run s)), Hok in H. by mstep H. }
  destruct (get_paths_run s f Hinv Hok) as (h' & Hrun & Hh').
  rewrite Hrun in H. injection H as <- <-.
  set (l := citing_paths (heap s) (rfs_path_list s) f) in *.
  set (s1 := set_heap (set_world s (kzalloc (world s)).2) h').
  assert (forall a, a ∈ l -> exists o, heap s !! a = Some o /\ (0 < rp_count o)%Z)
    as Hl.
  { intros a [_ Ha]%list_elem_of_filter.
    destruct (bi_live _ _ _ Hb a Ha) as [o Ho]. exists o. split; [done|].
    by destruct (bi_ok _ _ _ Hb a o Ho). }
  destruct (put_paths_loop_run l s1) as (h2 & Hput & Hh2).
  { apply NoDup_filter, (bi_nodup _ _ _ Hb). }
  { intros a Ha. destruct (Hl a Ha) as (o & Ho & Hc). simpl. rewrite Hh', Ho.
    simpl. rewrite with_refs_in by done.
    eexists. split; [done|]. simpl. lia. }
  exists (set_heap s1 h2). split; [done|]. split; [|done].
  simpl. apply map_eq. intros b. rewrite Hh2. simpl. rewrite Hh'.
  destruct (heap s !! b) as [o|]; [|done]. simpl. f_equal.
  unfold with_refs. destruct (decide (b ∈ l)); [|done].
  destruct o. unfold set_count. simpl. f_equal. lia.
Qed.

(** ** Removal of all paths of a filter *)

Lemma get_paths_error filter s e s' :
  redirfs_get_paths filter s = Some (inl e, s') -> e <> 0%Z.
Proof.
  intros H. unfold redirfs_get_paths in H. destruct filter as [f|]; [|by mstep H].
  mbind H as nr s0 Enr. mbind H as ok s1 Ealloc. destruct ok; [|by mstep H].
  mbind H as l s2 El. mbind H as paths s3 Escan.
  destruct (array_fits _ _); by mstep H.
Qed.

Lemma put_paths_loop_frame paths s r s' :
  put_paths_loop paths s = Some (r, s') ->
  rfs_path_list s' = rfs_path_list s /\ flt_nr s' = flt_nr s /\
  forall b g, cites_at (heap s') b g = true -> cites_at (heap s) b g = true.
Proof.
  revert s. induction paths as [|a paths IH]; intros s H; simpl in H.
  - by mstep H.
  - mbind H as u s1 Eput. unfold redirfs_put_path in Eput.
    apply path_put_spec in Eput as (o & Ho & Hc & ->).
    apply IH in H as (Hl & Hn & Hcs). simpl in *.
    split; [done|]. split; [done|].
    intros b g Hcit%Hcs. revert Hcit. destruct (Z.eqb _ _).
    + unfold cites_at. destruct (decide (b = a)) as [->|Hba].
      * by rewrite lookup_delete_eq.
      * by rewrite lookup_delete_ne.
    + rewrite cites_at_insert. destruct (decide (a = b)) as [<-|]; [|done].
      unfold cites_at. by rewrite Ho.
Qed.

Lemma rem_paths_loop_clears f paths rv s s' :
  inv s -> rem_paths_loop f paths rv s = Some (Some 0%Z, s') ->
  (forall g, g <> f -> flt_nr s' !! g = flt_nr s !! g) /\
  forall b, b ∈ rfs_path_list s' -> cites_at (heap s') b f = true ->
    b ∈ rfs_path_list s /\ cites_at (heap s) b f = true /\ b ∉ paths.
Proof.
  revert rv s. induction paths as [|a paths IH]; intros rv s Hinv H;
    cbn [rem_paths_loop] in H.
  - mstep H. split; [done|]. intros b Hb Hc. do 2 (split; [done|]).
    apply not_elem_of_nil.
  - mbind H as r1 s1 Erem. destruct (Z.eqb_spec r1 0) as [->|Hr]; simpl in H.
    2:{ by mstep H. }
    pose proof (rem_path_inv (Some f) (PTR a) _ _ _ Hinv Erem) as Hinv1.
    apply IH in H as [Hn' Hcl]; [|done].
    eapply rem_path_cases in Erem
      as (o & Ho & Hal & [[? _]|(_ & o' & Hrem & Hn & Hcase)]); [done| |done].
    destruct Hinv as [Hb _]. destruct (bi_ok _ _ _ Hb a o Ho) as [Hok _].
    destruct (chain_removed_facts _ _ _ Hrem Hok)
      as (_ & _ & _ & Hcit' & _).
    split.
    { intros g Hg. rewrite Hn' by done. rewrite Hn. unfold nr_set.
      by rewrite lookup_insert_ne. }
    intros b Hbl Hc. destruct (Hcl b Hbl Hc) as (Hb1 & Hc1 & Hnp).
    assert (b <> a) as Hba.
    { intros ->. revert Hc1. unfold cites_at.
      destruct Hcase as [(_ & -> & _)|(_ & _ & _ & _ & -> & _)].
      - rewrite lookup_insert_eq. by rewrite Hcit'.
      - destruct (Z.eqb _ _).
        + by rewrite lookup_delete_eq.
        + rewrite lookup_insert_eq. unfold cites in *. simpl. by rewrite Hcit'. }
    split; [|split].
    + destruct Hcase as [(_ & _ & Hl)|(_ & _ & _ & _ & _ & Hl)]; rewrite Hl in Hb1.
      * done.
      * by apply elem_of_list_del in Hb1 as [? _].
    + revert Hc1. unfold cites_at.
      destruct Hcase as [(_ & -> & _)|(_ & _ & _ & _ & -> & _)].
      * by rewrite lookup_insert_ne.
      * destruct (Z.eqb _ _).
        -- by rewrite lookup_delete_ne.
        -- by rewrite lookup_insert_ne.
    + by intros [?|?]%elem_of_cons.
Qed.

Lemma citing_none h l f :
  (forall a, a ∈ l -> cites_at h a f = false) -> citing h l f = 0.
Proof.
  induction l as [|a l IH]; intros Hl; [done|].
  rewrite citing_cons, Hl by (by left). simpl. apply IH.
  intros b Hb. apply Hl. by right.
Qed.

(** X10: on every reachable state, when redirfs_rem_paths returns 0 no
    registered path cites the filter any more and the filter's counter
    [paths_nr] is 0; the counters of the other filters are as they
    were. *)
Theorem rem_paths_success_clears_filter s f s' :
  reachable s ->
  redirfs_rem_paths (Some f) s = Some (Some 0%Z, s') ->
  (forall a, a ∈ rfs_path_list s' -> cites_at (heap s') a f = false) /\
  paths_nr s' f = 0%Z /\
  (forall g, g <> f -> paths_nr s' g = paths_nr s g).
Proof.
  intros Hinv%reachable_inv H.
  pose proof (rem_paths_inv _ _ _ _ Hinv H) as [Hb' _].
  unfold redirfs_rem_paths in H.
  mbind H as paths s1 Eget. pose proof Eget as Eget'.
  apply (get_paths_spec _ _ _ _ Hinv) in Eget as [Hinv1 Hr].
  destruct paths as [e|paths].
  { apply get_paths_error in Eget'. by mstep H. }
  destruct Hr as (-> & _ & Hl1 & Hn1 & Hc1).
  mbind H as rv s2 Eloop. mbind H as u s3 Eput. mstep H.
  apply rem_paths_loop_clears in Eloop as [Hn2 Hcl]; [|done].
  apply put_paths_loop_frame in Eput as (Hl3 & Hn3 & Hc3).
  assert (forall a, a ∈ rfs_path_list s' -> cites_at (heap s') a f = false) as Hnone.
  { intros a Ha. apply not_true_is_false. intros Hc%Hc3.
    rewrite Hl3 in Ha. destruct (Hcl a Ha Hc) as (Ha1 & Hca1 & Hnp).
    apply Hnp. apply list_elem_of_filter.
    rewrite <- Hc1, <- Hl1. done. }
  split; [done|]. split.
  - unfold paths_nr. rewrite (bi_nr _ _ _ Hb'). by rewrite citing_none.
  - intros g Hg. unfold paths_nr. by rewrite Hn3, Hn2, Hn1.
Qed.

(** ** Rename: what it leaves alone, and the one-sided moves *)

(** X11: whatever the collaborators do, rfs_fsrename changes no path
    object, no entry of the registry list and no filter counter. *)
Theorem fsrename_leaves_registry s od oe nd ne rv s' :
  rfs_fsrename od oe nd ne s = Some (rv, s') ->
  heap s' = heap s /\ rfs_path_list s' = rfs_path_list s /\ flt_nr s' = flt_nr s.
Proof. apply reg_pure_fsrename. Qed.

(** X12: when the moved entry is under a root and the new parent is
    under none, the rename makes detach calls only: it detaches the
    filters of the whole chain of the source root, in chain order,
    stopping at the first failing call. *)
Theorem fsrename_out_of_root_detaches_chain s od oe nd ne ri src rv s' :
  od <> nd ->
  rfs_inode_find (world s) nd = Some ri -> chain_root ri = None ->
  entry_root (world s) oe = Some src ->
  rfs_fsrename od oe nd ne s = Some (rv, s') ->
  exists t, trace s' = trace s ++ t /\
    phase_ok is_detach detached (rchain_of (world s) src) rv t.
Proof.
  intros Hdir Hino Hdst Hsrc H. unfold rfs_fsrename in H.
  destruct (Nat.eqb_spec od nd) as [|_]; [done|].
  mbind H as rinode s0 Ei. mstep Ei. mbind H as rdentry s0' Ee. mstep Ee.
  rename s0' into s.
  rewrite Hino in H. fold (entry_root (world s) oe) in H.
  rewrite Hsrc, Hdst in H. cbn [root_eqb] in H.
  mbind H as rv1 s1 Erem.
  pose proof (fsrename_rem_trace _ _ _ _ _ _ Erem) as (t & Hrem & Hok).
  exists t. destruct (Z.eqb_spec rv1 0) as [->|Hrv1]; cbn [negb] in H.
  2:{ by mstep H. }
  unfold rfs_fsrename_set, rfs_fsrename_add in H.
  mbind H as rv2 s2 Eset. mstep Eset. simpl in H. by mstep H.
Qed.

(** X13: when the moved entry is under no root and the new parent is
    under one, the rename makes attach calls only: it attaches the
    filters of the whole chain of the destination root, in chain order,
    stopping at the first failing call. *)
Theorem fsrename_into_root_attaches_chain s od oe nd ne ri dst rv s' :
  od <> nd ->
  rfs_inode_find (world s) nd = Some ri -> chain_root ri = Some dst ->
  entry_root (world s) oe = None ->
  rfs_fsrename od oe nd ne s = Some (rv, s') ->
  exists t, trace s' = trace s ++ t /\
    phase_ok is_attach attached (rchain_of (world s) dst) rv t.
Proof.
  intros Hdir Hino Hdst Hsrc H. unfold rfs_fsrename in H.
  destruct (Nat.eqb_spec od nd) as [|_]; [done|].
  mbind H as rinode s0 Ei. mstep Ei. mbind H as rdentry s0' Ee. mstep Ee.
  rename s0' into s.
  rewrite Hino in H. fold (entry_root (world s) oe) in H.
  rewrite Hsrc, Hdst in H. cbn [root_eqb] in H.
  unfold rfs_fsrename_rem, rfs_fsrename_set in H.
  mbind H as rv1 s1 Erem. mstep Erem. cbn [negb Z.eqb] in H.
  mbind H as rv2 s2 Eset. mstep Eset. cbn [negb Z.eqb] in H.
  by apply fsrename_add_trace in H.
Qed.

(** ** The id given to a new path *)

Lemma path_ids_cons h a l o :
  h !! a = Some o -> path_ids h (a :: l) = rp_id o :: path_ids h l.
Proof. intros Ho. unfold path_ids. simpl. by rewrite Ho. Qed.

Lemma get_id_scan_run l i s :
  (forall a, a ∈ l -> is_Some (heap s !! a)) ->
  (0 <= i)%Z -> (i + Z.of_nat (length l) <= INT_MAX)%Z ->
  exists r, get_id_scan l i s = Some (r, s) /\
    (i <= r <= i + Z.of_nat (length l))%Z /\
    (forall j, (i <= j < r)%Z -> j ∈ path_ids (heap s) l).
Proof.
  assert (INT_MAX = 2 ^ 31 - 1)%Z as HM by done.
  revert i. induction l as [|a l IH]; intros i Hlive Hi Hlen.
  - exists i. split; [done|]. split; [simpl; lia|]. intros j Hj. lia.
  - destruct (Hlive a) as [o Ho]; [by left|].
    cbn [get_id_scan]. rewrite (bind_run _ _ _ _ _ (deref_run _ _ _ Ho)).
    rewrite (path_ids_cons _ _ _ _ Ho). cbn [length] in *.
    assert (forall b, b ∈ l -> is_Some (heap s !! b)) as Hlive'
      by (intros b Hb; apply Hlive; by right).
    destruct (Z.eqb_spec (rp_id o) i) as [Hid|Hid].
    + rewrite wrap_int_id by lia.
      destruct (IH (i + 1)%Z) as (r & Hrun & Hr & Hj); [done|lia|lia|].
      exists r. split; [done|]. split; [lia|]. intros j Hjr.
      destruct (decide (j = i)) as [->|]; [rewrite Hid; by left|].
      right. apply Hj. lia.
    + destruct (IH i) as (r & Hrun & Hr & Hj); [done|lia|lia|].
      exists r. split; [done|]. split; [lia|]. intros j Hjr.
      right. by apply Hj.
Qed.

Lemma get_id_scan_no_match l i s :
  (forall a, a ∈ l -> is_Some (heap s !! a)) ->
  i ∉ path_ids (heap s) l -> get_id_scan l i s = Some (i, s).
Proof.
  induction l as [|a l IH]; intros Hlive Hn; [done|].
  destruct (Hlive a) as [o Ho]; [by left|].
  cbn [get_id_scan]. rewrite (bind_run _ _ _ _ _ (deref_run _ _ _ Ho)).
  rewrite (path_ids_cons _ _ _ _ Ho) in Hn.
  apply not_elem_of_cons in Hn as [Hne Hn].
  destruct (Z.eqb_spec (rp_id o) i) as [Hid|Hid]; [done|].
  apply IH; [|done]. intros b Hb. apply Hlive. by right.
Qed.

Lemma get_id_scan_fresh l i s r :
  (forall a, a ∈ l -> is_Some (heap s !! a)) ->
  (0 <= i)%Z -> (i + Z.of_nat (length l) <= INT_MAX)%Z ->
  StronglySorted Z.lt (path_ids (heap s) l) ->
  get_id_scan l i s = Some (r, s) -> r ∉ path_ids (heap s) l.
Proof.
  assert (INT_MAX = 2 ^ 31 - 1)%Z as HM by done.
  revert i. induction l as [|a l IH]; intros i Hlive Hi Hlen Hs H.
  - apply not_elem_of_nil.
  - destruct (Hlive a) as [o Ho]; [by left|].
    assert (forall b, b ∈ l -> is_Some (heap s !! b)) as Hlive'
      by (intros b Hb; apply Hlive; by right).
    cbn [get_id_scan] in H. rewrite (bind_run _ _ _ _ _ (deref_run _ _ _ Ho)) in H.
    rewrite (path_ids_cons _ _ _ _ Ho) in *. cbn [length] in *.
    apply StronglySorted_inv in Hs as [Hs Hall].
    apply not_elem_of_cons.
    destruct (Z.eqb_spec (rp_id o) i) as [Hid|Hid].
    + rewrite wrap_int_id in H by lia.
      destruct (get_id_scan_run l (i + 1)%Z s) as (r' & Hrun & Hr & _);
        [done|lia|lia|].
      rewrite Hrun in H. injection H as ->.
      split; [lia|]. eapply (IH (i + 1)%Z); [done|lia|lia|done|done].
    + split; [|eapply (IH i); [done|lia|lia|done|done]].
      destruct (Z.lt_ge_cases (rp_id o) i) as [Hlt|Hge].
      * destruct (get_id_scan_run l i s) as (r' & Hrun & Hr & _); [done|lia|lia|].
        rewrite Hrun in H. injection H as ->. lia.
      * rewrite get_id_scan_no_match in H; [|done|].
        { injection H as <-. done. }
        intros Hin. rewrite Forall_forall in Hall. apply Hall in Hin. lia.
Qed.

Lemma inv_listed_live s a : inv s -> a ∈ rfs_path_list s -> is_Some (heap s !! a).
Proof. intros [Hb _]. apply (bi_live _ _ _ Hb). Qed.

(** X14: on every reachable state rfs_path_get_id does not fault and
    changes nothing; the id it returns lies between 0 and the number of
    registered paths, so the -EBUSY branch of rfs_path_add is never
    taken, and every smaller id from 0 on is carried by a registered
    path: no free id is skipped. *)
Theorem path_get_id_skips_no_free_id s :
  reachable s ->
  exists i, rfs_path_get_id s = Some (i, s) /\
    (0 <= i <= Z.of_nat (length (rfs_path_list s)))%Z /\
    forall j, (0 <= j < i)%Z -> j ∈ path_ids (heap s) (rfs_path_list s).
Proof.
  intros Hinv%reachable_inv. pose proof Hinv as [Hb _].
  destruct (get_id_scan_run (rfs_path_list s) 0 s) as (r & Hrun & Hr & Hj).
  - intros a. by apply inv_listed_live.
  - done.
  - pose proof (bi_bound _ _ _ Hb). lia.
  - exists r. split; [|split; [lia|done]].
    unfold rfs_path_get_id. simpl. unfold bind, gets. done.
Qed.

(** X15: on every reachable state whose registered paths carry ids that
    increase along the registry list, the id that rfs_path_get_id
    returns is carried by no registered path. *)
Theorem path_get_id_unused_when_ids_increase s i s' :
  reachable s ->
  StronglySorted Z.lt (path_ids (heap s) (rfs_path_list s)) ->
  rfs_path_get_id s = Some (i, s') ->
  i ∉ path_ids (heap s) (rfs_path_list s).
Proof.
  intros Hinv%reachable_inv Hs H. pose proof Hinv as [Hb _].
  apply path_get_id_state in H as [-> H].
  eapply (get_id_scan_fresh _ 0%Z); [|done| |done|done].
  - intros a. by apply inv_listed_live.
  - pose proof (bi_bound _ _ _ Hb). lia.
Qed.

(** ** The paths of a filter under a root *)

Lemma get_paths_root_scan_result l rroot f s paths s' :
  get_paths_root_scan l rroot f s = Some (paths, s') ->
  world s' = world s /\
  paths = if member (rr_rinch rroot) f || member (rr_rexch rroot) f then l else [].
Proof.
  revert s paths. induction l as [|a l IH]; intros s paths H; simpl in H.
  - mstep H. split; [done|]. by destruct (_ || _).
  - fold (member (rr_rinch rroot) f) in *. fold (member (rr_rexch rroot) f) in *.
    destruct (member (rr_rinch rroot) f || member (rr_rexch rroot) f).
    + mbind H as p s1 Eget. mbind H as rest s2 Escan. mstep H.
      apply path_get_spec in Eget as (o & _ & _ & _ & ->).
      apply IH in Escan as [Hw ->]. done.
    + by apply IH in H.
Qed.

(** X16: whatever the state, the array that redirfs_get_paths_root
    returns is the whole membership list of the root when the include
    or exclude chain of the root holds the filter, and is empty
    otherwise: the chains of the single paths are not looked at. *)
Theorem get_paths_root_all_or_nothing s f r paths s' :
  redirfs_get_paths_root (Some f) (Some r) s = Some (inr paths, s') ->
  let rroot := root_obj (world s') r in
  paths = if member (rr_rinch rroot) f || member (rr_rexch rroot) f
          then rr_rpaths rroot else [].
Proof.
  intros H. unfold redirfs_get_paths_root in H.
  mbind H as nr s0 Enr. mstep Enr. mbind H as ok s1 Ealloc.
  destruct ok; [|by mstep H].
  mbind H as rroot s2 Er. mstep Er. mbind H as ps s3 Escan.
  apply get_paths_root_scan_result in Escan as [Hw ->].
  destruct (array_fits _ _); mstep H. simpl. by rewrite Hw.
Qed.

(** ** What holds of every reachable registry *)

(** X17: on every reachable state the registry list names no path
    twice, and two registered paths never have the same mount and the
    same entry. *)
Theorem registered_paths_have_distinct_keys s :
  reachable s ->
  NoDup (rfs_path_list s) /\
  forall a b oa ob,
    a ∈ rfs_path_list s -> b ∈ rfs_path_list s ->
    heap s !! a = Some oa -> heap s !! b = Some ob ->
    rp_mnt oa = rp_mnt ob -> rp_dentry oa = rp_dentry ob -> a = b.
Proof.
  intros [Hb _]%reachable_inv.
  split; [apply (bi_nodup _ _ _ Hb)|apply (bi_keys _ _ _ Hb)].
Qed.

(** X18: on every reachable state every path on the registry list is a
    live object, every live path object has a positive reference count,
    and a live path object is on the registry list exactly when one of
    its two chain pointers is set; an object off the list has no root
    either. *)
Theorem registered_iff_chain_set s :
  reachable s ->
  (forall a, a ∈ rfs_path_list s -> is_Some (heap s !! a)) /\
  forall a o, heap s !! a = Some o ->
    (0 < rp_count o)%Z /\
    (a ∈ rfs_path_list s <-> rp_rinch o <> None \/ rp_rexch o <> None) /\
    (a ∉ rfs_path_list s -> rp_rroot o = None).
Proof.
  intros [Hb Hne]%reachable_inv.
  split; [apply (bi_live _ _ _ Hb)|].
  intros a o Ho. split; [by destruct (bi_ok _ _ _ Hb a o Ho)|].
  split; [split|].
  - intros Ha. by apply (Hne a o).
  - intros Hc. destruct (decide (a ∈ rfs_path_list s)) as [|Hn]; [done|].
    destruct (bi_unlisted _ _ _ Hb a o Ho Hn) as (Hi & He & _).
    destruct Hc; done.
  - intros Hn. by destruct (bi_unlisted _ _ _ Hb a o Ho Hn) as (_ & _ & ?).
Qed.

(** ** The registration read back *)

Lemma path_ok_new i mnt d r n : path_ok (mk_path i mnt d None None r n).
Proof.
  split; [constructor|]. split; [constructor|].
  intros g [Hg _]. by apply elem_of_nil in Hg.
Qed.

Lemma add_path_result_object f mnt d flags s a s' :
  inv s ->
  redirfs_add_path (Some f) (add_info mnt d flags) s = Some (PTR a, s') ->
  exists o', heap s' !! a = Some o' /\ rp_mnt o' = mnt /\ rp_dentry o' = d /\
    path_ok o' /\
    (flags = REDIRFS_PATH_INCLUDE /\ member (rp_rinch o') f = true \/
     flags = REDIRFS_PATH_EXCLUDE /\ member (rp_rexch o') f = true).
Proof.
  intros Hinv H. pose proof H as H'.
  apply add_path_result_mode in H' as (o2 & Ho2 & Hmode).
  exists o2. split; [done|]. pose proof Hinv as [Hb _].
  eapply add_path_cases in H
    as [(e & ? & _)
       |[(a' & o & o' & [= <-] & Hal & Ho & Hm & Hd & Hh & _ & Hcase)
        |(a' & i & rroot & o' & [= <-] & _ & _ & _ & Hadd & Hh & _)]];
    [done| | |done];
    rewrite Hh, lookup_insert_eq in Ho2; simplify_eq.
  - destruct (bi_ok _ _ _ Hb a o Ho) as [Hok _].
    destruct Hcase as [(-> & _)|(Hadd & Hcit & _)]; [done|].
    by destruct (chain_added_facts _ _ _ Hadd Hcit Hok) as (? & _ & _ & ? & ? & _).
  - by destruct (chain_added_facts _ _ _ Hadd eq_refl (path_ok_new _ _ _ _ _))
      as (? & _ & _ & ? & ? & _).
Qed.

(** X19: on every reachable state, after a successful redirfs_add_path
    of a filter, redirfs_get_path_info for that filter and the returned
    path gives back, when its allocation succeeds, the mount, the entry
    and the mode that were registered. *)
Theorem get_path_info_after_add s f mnt d flags a s1 :
  reachable s ->
  redirfs_add_path (Some f) (add_info mnt d flags) s = Some (PTR a, s1) ->
  (kzalloc (world s1)).1 = true ->
  redirfs_get_path_info (Some f) (PTR a) s1 =
  Some (inr (mk_path_info (Some d) (Some mnt) flags),
        set_world s1 (kzalloc (world s1)).2).
Proof.
  intros Hinv%reachable_inv H Hok.
  apply (add_path_result_object _ _ _ _ _ _ _ Hinv) in H
    as (o & Ho & <- & <- & (_ & _ & Hex) & Hmode).
  unfold redirfs_get_path_info.
  rewrite (bind_run _ _ _ _ _ (alloc_run s1)), Hok.
  rewrite (bind_run _ _ _ _ _
             (deref_run a (set_world s1 (kzalloc (world s1)).2) o Ho)).
  fold (member (rp_rinch o) f). fold (member (rp_rexch o) f).
  destruct Hmode as [[-> Hm]|[-> Hm]]; rewrite Hm.
  - done.
  - assert (member (rp_rinch o) f = false) as ->; [|done].
    apply member_false. intros Hi. apply (Hex f). split; [done|].
    by apply member_spec.
Qed.

(** X20: on every reachable state, after a successful redirfs_rem_path
    of a filter from a path that is still allocated, redirfs_get_path_info
    for that filter and path returns -ENODATA when its allocation
    succeeds. *)
Theorem get_path_info_after_rem s f a s1 :
  reachable s ->
  redirfs_rem_path (Some f) (PTR a) s = Some (0%Z, s1) ->
  is_Some (heap s1 !! a) ->
  (kzalloc (world s1)).1 = true ->
  redirfs_get_path_info (Some f) (PTR a) s1 =
  Some (inl (- ENODATA)%Z, set_world s1 (kzalloc (world s1)).2).
Proof.
  intros Hinv%reachable_inv H [o1 Ho1] Hok.
  assert (cites o1 f = false) as Hcit.
  { eapply rem_path_cases in H
      as (o & Ho & Hal & [[? _]|(_ & o' & Hrem & _ & Hcase)]); [done| |done].
    destruct Hinv as [Hb _]. destruct (bi_ok _ _ _ Hb a o Ho) as [Hok' _].
    destruct (chain_removed_facts _ _ _ Hrem Hok') as (_ & _ & _ & Hcit' & _).
    destruct Hcase as [(_ & Hh & _)|(_ & _ & _ & _ & Hh & _)]; rewrite Hh in Ho1.
    - rewrite lookup_insert_eq in Ho1. by simplify_eq.
    - destruct (Z.eqb _ _).
      + by rewrite lookup_delete_eq in Ho1.
      + rewrite lookup_insert_eq in Ho1. by simplify_eq. }
  apply orb_false_elim in Hcit as [Hi He]. unfold member in Hi, He.
  unfold redirfs_get_path_info.
  rewrite (bind_run _ _ _ _ _ (alloc_run s1)), Hok.
  rewrite (bind_run _ _ _ _ _
             (deref_run a (set_world s1 (kzalloc (world s1)).2) o1 Ho1)).
  by rewrite Hi, He.
Qed.

(** ** No chain without filters *)

Lemma chains_set_insert h a o :
  rp_rinch o <> Some [] -> rp_rexch o <> Some [] ->
  chains_set h -> chains_set (<[a := o]> h).
Proof.
  intros Hi He Hs b ob. rewrite lookup_insert.
  destruct (decide (a = b)) as [<-|]; [by intros [= <-]|apply Hs].
Qed.

Lemma chains_set_delete h a : chains_set h -> chains_set (delete a h).
Proof. intros Hs b ob [_ Hb]%lookup_delete_Some. by apply (Hs b). Qed.

Lemma add_flt_set c f : add_flt c f <> Some [].
Proof. unfold add_flt. intros [= H]. by destruct (chain_list c). Qed.

Lemma rem_flt_set c f : rem_flt c f <> Some [].
Proof. unfold rem_flt. by destruct (flt_remove (chain_list c) f). Qed.

Lemma chain_added_set o o' f :
  chain_added o o' f -> rp_rinch o <> Some [] -> rp_rexch o <> Some [] ->
  rp_rinch o' <> Some [] /\ rp_rexch o' <> Some [].
Proof. intros [->| ->] Hi He; simpl; split; auto using add_flt_set. Qed.

Lemma chain_removed_set o o' f :
  chain_removed o o' f -> rp_rinch o <> Some [] -> rp_rexch o <> Some [] ->
  rp_rinch o' <> Some [] /\ rp_rexch o' <> Some [].
Proof.
  intros [[_ ->]|(_ & _ & ->)] Hi He; simpl; split; auto using rem_flt_set.
Qed.

Lemma get_chains_set p s r s' :
  rfs_path_get p s = Some (r, s') -> chains_set (heap s) -> chains_set (heap s').
Proof.
  intros H Hs. destruct p as [|e|a].
  - unfold rfs_path_get in H. by mstep H.
  - unfold rfs_path_get in H. destruct (_ || _); by mstep H.
  - apply path_get_spec in H as (o & Ho & _ & _ & ->). simpl.
    destruct (Hs a o Ho). by apply chains_set_insert.
Qed.

Lemma put_chains_set p s r s' :
  rfs_path_put p s = Some (r, s') -> chains_set (heap s) -> chains_set (heap s').
Proof.
  intros H Hs. destruct p as [|e|a].
  - unfold rfs_path_put in H. by mstep H.
  - unfold rfs_path_put in H. destruct (_ || _); by mstep H.
  - apply path_put_spec in H as (o & Ho & _ & ->). simpl.
    destruct (Hs a o Ho). destruct (Z.eqb _ _).
    + by apply chains_set_delete.
    + by apply chains_set_insert.
Qed.

Lemma add_path_chains_set filter info s r s' :
  inv s -> redirfs_add_path filter info s = Some (r, s') ->
  chains_set (heap s) -> chains_set (heap s').
Proof.
  intros Hinv H Hs.
  destruct filter as [f|]; [|unfold redirfs_add_path in H; by mstep H].
  destruct info as [[[d|] [mnt|] flags]|];
    try (unfold redirfs_add_path in H; simpl in H; by mstep H).
  eapply add_path_cases in H
    as [(e & -> & Hh & _)
       |[(a & o & o' & -> & Hal & Ho & Hm & Hd & Hh & Hl & Hcase)
        |(a & i & rroot & o' & -> & Hnp & Hfresh & Hid & Hadd & Hh & Hl & Hn)]];
    [| | |done]; rewrite Hh; [done| |].
  - destruct (Hs a o Ho) as [Hi He].
    destruct Hcase as [(-> & _)|(Hadd & _)].
    + by apply chains_set_insert.
    + destruct (chain_added_set _ _ _ Hadd Hi He). by apply chains_set_insert.
  - destruct (chain_added_set _ _ _ Hadd) as [Hi He]; [done|done|].
    by apply chains_set_insert.
Qed.

Lemma rem_path_chains_set filter path s rv s' :
  inv s -> redirfs_rem_path filter path s = Some (rv, s') ->
  chains_set (heap s) -> chains_set (heap s').
Proof.
  intros Hinv H Hs.
  destruct filter as [f|]; [|unfold redirfs_rem_path in H; by mstep H].
  destruct path as [|e|a].
  - unfold redirfs_rem_path in H. by mstep H.
  - unfold redirfs_rem_path in H. destruct (Z.eqb e 0); by mstep H.
  - eapply rem_path_cases in H
      as (o & Ho & Hal & [[_ (Hh & _)]|(_ & o' & Hrem & _ & Hcase)]); [| |done].
    { by rewrite Hh. }
    destruct (Hs a o Ho) as [Hi He].
    destruct (chain_removed_set _ _ _ Hrem Hi He) as [Hi' He'].
    destruct Hcase as [(_ & -> & _)|(_ & _ & _ & _ & -> & _)].
    + by apply chains_set_insert.
    + destruct (Z.eqb _ _); [by apply chains_set_delete|].
      by apply chains_set_insert.
Qed.

Lemma get_paths_scan_chains_set l f s paths s' :
  get_paths_scan l f s = Some (paths, s') ->
  chains_set (heap s) -> chains_set (heap s').
Proof.
  revert s paths. induction l as [|a l IH]; intros s paths H Hs; simpl in H.
  - by mstep H.
  - mbind H as o s0 Ho. mstep Ho. destruct (_ || _); [|by eapply IH].
    mbind H as p s1 Eget. mbind H as rest s2 Escan. mstep H.
    eapply IH; [done|]. by eapply (get_chains_set (PTR a)).
Qed.

Lemma get_paths_chains_set filter s r s' :
  redirfs_get_paths filter s = Some (r, s') ->
  chains_set (heap s) -> chains_set (heap s').
Proof.
  intros H Hs. unfold redirfs_get_paths in H.
  destruct filter as [f|]; [|by mstep H].
  mbind H as nr s0 Enr. mstep Enr. mbind H as ok s1 Ealloc.
  apply reg_pure_alloc in Ealloc as (Hh & _).
  destruct ok; [|mstep H; by rewrite Hh].
  mbind H as l s2 El. mstep El. mbind H as paths s3 Escan.
  apply get_paths_scan_chains_set in Escan; [|by rewrite Hh].
  destruct (array_fits _ _); by mstep H.
Qed.

Lemma rem_paths_loop_chains_set f paths rv s r s' :
  inv s -> rem_paths_loop f paths rv s = Some (r, s') ->
  chains_set (heap s) -> chains_set (heap s').
Proof.
  revert rv s. induction paths as [|a paths IH]; intros rv s Hinv H Hs;
    cbn [rem_paths_loop] in H.
  - by mstep H.
  - mbind H as rv1 s1 Erem.
    pose proof (rem_path_inv (Some f) (PTR a) _ _ _ Hinv Erem) as Hinv1.
    pose proof (rem_path_chains_set (Some f) (PTR a) _ _ _ Hinv Erem Hs) as Hs1.
    destruct (negb _); [by mstep H|]. by eapply IH.
Qed.

Lemma put_paths_loop_chains_set paths s r s' :
  put_paths_loop paths s = Some (r, s') ->
  chains_set (heap s) -> chains_set (heap s').
Proof.
  revert s. induction paths as [|a paths IH]; intros s H Hs; simpl in H.
  - by mstep H.
  - mbind H as u s1 Eput. eapply IH; [done|].
    by eapply (put_chains_set (PTR a)).
Qed.

Lemma rem_paths_chains_set filter s r s' :
  inv s -> redirfs_rem_paths filter s = Some (r, s') ->
  chains_set (heap s) -> chains_set (heap s').
Proof.
  intros Hinv H Hs. destruct filter as [f|]; simpl in H; [|by mstep H].
  mbind H as paths s1 Eget. fold (redirfs_get_paths (Some f)) in Eget.
  pose proof (get_paths_chains_set _ _ _ _ Eget Hs) as Hs1.
  apply (get_paths_spec _ _ _ _ Hinv) in Eget as [Hinv1 _].
  destruct paths as [e|paths]; [by mstep H|].
  mbind H as rv s2 Eloop. mbind H as u s3 Eput. mstep H.
  eapply put_paths_loop_chains_set; [done|].
  by eapply rem_paths_loop_chains_set.
Qed.

Lemma find_id_scan_chains_set l i s r s' :
  path_find_id_scan l i s = Some (r, s') ->
  chains_set (heap s) -> chains_set (heap s').
Proof.
  induction l as [|a l IH]; simpl; intros H Hs.
  - by mstep H.
  - mbind H as o s0 Ho. mstep Ho. destruct (negb _); [by apply IH|].
    by eapply (get_chains_set (PTR a)).
Qed.

Lemma get_paths_root_scan_chains_set l rroot f s r s' :
  get_paths_root_scan l rroot f s = Some (r, s') ->
  chains_set (heap s) -> chains_set (heap s').
Proof.
  revert s r. induction l as [|a l IH]; intros s r H Hs; simpl in H.
  - by mstep H.
  - destruct (_ || _); [|by eapply IH].
    mbind H as p s1 Eget. mbind H as rest s2 Escan. mstep H.
    eapply IH; [done|]. by eapply (get_chains_set (PTR a)).
Qed.

Lemma get_paths_root_chains_set filter root s r s' :
  redirfs_get_paths_root filter root s = Some (r, s') ->
  chains_set (heap s) -> chains_set (heap s').
Proof.
  intros H Hs. unfold redirfs_get_paths_root in H.
  destruct filter as [f|]; [|by mstep H].
  destruct root as [rt|]; [|by mstep H].
  mbind H as nr s0 Enr. mstep Enr. mbind H as ok s1 Ealloc.
  apply reg_pure_alloc in Ealloc as (Hh & _).
  destruct ok; [|mstep H; by rewrite Hh].
  mbind H as rroot s2 Er. mstep Er. mbind H as paths s3 Escan.
  apply get_paths_root_scan_chains_set in Escan; [|by rewrite Hh].
  destruct (array_fits _ _); by mstep H.
Qed.

Lemma step_chains_set s s' :
  step s s' -> inv s -> chains_set (heap s) -> chains_set (heap s').
Proof.
  intros Hstep Hinv Hs. destruct Hstep.
  - by eapply add_path_chains_set.
  - by eapply rem_path_chains_set.
  - by eapply rem_paths_chains_set.
  - by eapply get_chains_set.
  - by eapply put_chains_set.
  - unfold redirfs_get_path_id, rfs_path_find_id in *.
    match goal with H : bind _ _ _ = _ |- _ => mbind H as l s0 El; mstep El end.
    by eapply find_id_scan_chains_set.
  - by eapply get_paths_chains_set.
  - by eapply get_paths_root_chains_set.
  - match goal with H : rfs_fsrename _ _ _ _ _ = _ |- _ =>
      apply reg_pure_fsrename in H as (Hh & _) end.
    by rewrite Hh.
Qed.

Lemma reachable_chains_set s : reachable s -> chains_set (heap s).
Proof.
  intros [w Hrtc].
  apply (rtc_ind_r (R := step)
           (fun s : @state W => inv s /\ chains_set (heap s)) (init_state w));
    [| |done].
  - split; [apply inv_init|]. intros a o Ho. simpl in Ho.
    by rewrite lookup_empty in Ho.
  - intros s1 s2 _ Hstep [Hinv Hs]. split; [by eapply step_inv|].
    by eapply step_chains_set.
Qed.

Lemma chain_set_cites c : c <> None -> c <> Some [] -> exists f, member c f = true.
Proof.
  destruct c as [[|f l]|]; [done| |done]. intros _ _. exists f.
  apply member_spec. by left.
Qed.

(** X25: on every reachable state no path object carries a chain
    without filters: a chain pointer that is set points to a chain with
    at least one filter, so that the NULL tests of rfs_path_rem decide
    whether a path still cites a filter; a live path object is on the
    registry list exactly when it cites some filter. *)
Theorem registered_iff_cites_a_filter s a o :
  reachable s -> heap s !! a = Some o ->
  rp_rinch o <> Some [] /\ rp_rexch o <> Some [] /\
  (a ∈ rfs_path_list s <-> exists f, cites o f = true).
Proof.
  intros Hreach Ho. pose proof (reachable_inv _ Hreach) as [Hb Hne].
  destruct (reachable_chains_set _ Hreach a o Ho) as [Hi He].
  do 2 (split; [done|]). split.
  - intros Hal. destruct (Hne a o Hal Ho) as [Hc|Hc].
    + destruct (chain_set_cites _ Hc Hi) as [f Hf]. exists f.
      unfold cites. by rewrite Hf.
    + destruct (chain_set_cites _ Hc He) as [f Hf]. exists f.
      unfold cites. rewrite Hf. apply orb_true_r.
  - intros [f Hf]. destruct (decide (a ∈ rfs_path_list s)) as [|Hn]; [done|].
    destruct (bi_unlisted _ _ _ Hb a o Ho Hn) as (Hi' & He' & _).
    unfold cites in Hf. by rewrite Hi', He' in Hf.
Qed.

(** ** Registering and withdrawing a filter *)

Lemma flt_remove_app_last l f : f ∉ l -> flt_remove (l ++ [f]) f = l.
Proof.
  induction l as [|g l IH]; simpl; intros Hf.
  - by rewrite Nat.eqb_refl.
  - apply not_elem_of_cons in Hf as [Hfg Hf].
    destruct (Nat.eqb_spec g f) as [->|_]; [done|]. by rewrite IH.
Qed.

Lemma rem_add_flt c f :
  c <> Some [] -> member c f = false -> rem_flt (add_flt c f) f = c.
Proof.
  intros Hc Hm%member_false. unfold rem_flt, add_flt. simpl.
  rewrite flt_remove_app_last by done. by destruct c as [[|g l]|].
Qed.

Lemma member_add_flt_new c f : member (add_flt c f) f = true.
Proof. apply member_add_flt. by right. Qed.

Lemma wrap_int_round n :
  (0 <= n <= INT_MAX)%Z -> wrap_int (wrap_int (n + 1) - 1) = n.
Proof.
  intros Hn. unfold INT_MAX in Hn.
  destruct (decide (n = 2147483647%Z)) as [->|Hne]; [done|].
  rewrite (wrap_int_id (n + 1)) by lia.
  replace (n + 1 - 1)%Z with n by lia. apply wrap_int_id. lia.
Qed.

Lemma set_count_undo o n : set_count (set_count o n) (rp_count o) = o.
Proof. by destruct o. Qed.

Lemma chain_added_removed o o1 o2 f :
  rp_rinch o <> Some [] -> rp_rexch o <> Some [] -> cites o f = false ->
  chain_added o o1 f -> chain_removed o1 o2 f -> o2 = o.
Proof.
  intros Hi He Hc Hadd Hrem. unfold cites in Hc.
  apply orb_false_iff in Hc as [Hci Hce].
  destruct Hadd as [-> | ->]; simpl in Hrem.
  - destruct Hrem as [[_ ->]|(Hm & _)].
    + simpl. rewrite rem_add_flt by done. by destruct o.
    + simpl in Hm. by rewrite member_add_flt_new in Hm.
  - destruct Hrem as [[Hm _]|(_ & _ & ->)].
    + simpl in Hm. congruence.
    + simpl. rewrite rem_add_flt by done. by destruct o.
Qed.

(** X26: on a reachable state with room on the list, registering a
    filter on a path that does not cite it yet, then withdrawing it
    from the returned path, then releasing the returned reference puts
    the registry back: the same path objects with the same chains,
    roots and reference counts, the same registry list and the same
    [paths_nr] of every filter; a path object created by the
    registration is freed again. *)
Theorem add_rem_put_restores s f mnt d flags a s1 s2 u s3 :
  reachable s ->
  (Z.of_nat (length (rfs_path_list s)) < INT_MAX)%Z ->
  (forall b o, b ∈ rfs_path_list s -> heap s !! b = Some o ->
     rp_mnt o = mnt -> rp_dentry o = d -> cites o f = false) ->
  redirfs_add_path (Some f) (add_info mnt d flags) s = Some (PTR a, s1) ->
  redirfs_rem_path (Some f) (PTR a) s1 = Some (0%Z, s2) ->
  redirfs_put_path (PTR a) s2 = Some (u, s3) ->
  heap s3 = heap s /\ rfs_path_list s3 = rfs_path_list s /\
  forall g, paths_nr s3 g = paths_nr s g.
Proof.
  intros Hreach Hlen Hnew Eadd Erem Eput.
  pose proof (reachable_inv _ Hreach) as Hinv.
  pose proof (reachable_chains_set _ Hreach) as Hset.
  pose proof (add_path_inv _ _ _ _ _ Hinv Hlen Eadd) as Hinv1.
  pose proof Hinv as [Hb Hne].
  assert (forall g, default 0%Z (<[f := wrap_int (wrap_int (paths_nr s f + 1) - 1)]>
            (<[f := wrap_int (paths_nr s f + 1)]> (flt_nr s)) !! g) = paths_nr s g)
    as Hnr.
  { intros g. rewrite insert_insert_eq, lookup_insert.
    destruct (decide (f = g)) as [<-|]; [|done]. simpl.
    apply wrap_int_round. unfold paths_nr. rewrite (bi_nr _ _ _ Hb f).
    pose proof (citing_le (heap s) (rfs_path_list s) f). lia. }
  assert (flt_nr s1 = nr_set s f (paths_nr s f + 1) ->
          flt_nr s2 = nr_set s1 f (paths_nr s1 f - 1) ->
          forall g, default 0%Z (flt_nr s2 !! g) = paths_nr s g) as Hnr'.
  { intros Hn1 Hn2 g. rewrite Hn2. unfold nr_set, paths_nr at 1.
    rewrite Hn1. unfold nr_set. rewrite lookup_insert_eq. simpl. apply Hnr. }
  apply path_put_spec in Eput as (o3 & Ho3 & Hc3 & ->).
  apply (rem_path_cases _ _ _ _ _ Hinv1) in Erem
    as (o1 & Ho1 & Hal1 & [[Hrv _]|(_ & o2 & Hrem & Hn2 & Hcase)]); [done|].
  apply (add_path_cases _ _ _ _ _ _ _ Hinv) in Eadd
    as [(e & He & _)
       |[(a' & o & o' & [= <-] & Hal & Ho & Hm & Hd & Hh1 & Hl1 & Hmode)
        |(a' & i & rroot & o' & [= <-] & Hnp & Hfresh & Hid & Hadd & Hh1 & Hl1 & Hn1)]];
    [done| |].
  - (* the path was registered already *)
    destruct Hmode as [(_ & Hc & _)|(Hadd & _ & Hn1)];
      [by rewrite (Hnew a o Hal Ho Hm Hd) in Hc|].
    destruct (Hset a o Ho) as [Hi He].
    rewrite Hh1, lookup_insert_eq in Ho1. injection Ho1 as <-.
    assert (o2 = set_count o (rp_count o + 1)) as ->.
    { eapply chain_added_removed; [| | |exact Hadd|exact Hrem]; try done.
      exact (Hnew a o Hal Ho Hm Hd). }
    destruct (Hne a o Hal Ho) as [Hc|Hc];
      (destruct Hcase as [(_ & Hh2 & Hl2)|(Hi2 & He2 & _)]; [|done]).
    all: rewrite Hh2, lookup_insert_eq in Ho3; injection Ho3 as <-.
    all: simpl; rewrite Hh2, Hl2, Hl1, Hh1.
    all: destruct (bi_ok _ _ _ Hb a o Ho) as [_ Hpos].
    all: replace (rp_count o + 1 - 1)%Z with (rp_count o) by lia.
    all: rewrite (proj2 (Z.eqb_neq _ _)) by lia.
    all: rewrite !insert_insert_eq, set_count_undo, insert_id by done.
    all: do 2 (split; [done|]); by apply Hnr'.
  - (* the path is new *)
    rewrite Hh1, lookup_insert_eq in Ho1. injection Ho1 as <-.
    assert (o2 = mk_path i mnt d None None (Some rroot) 3) as ->.
    { eapply chain_added_removed; [| | |exact Hadd|exact Hrem]; done. }
    assert (a ∉ rfs_path_list s) as Hal.
    { intros Hin. apply (bi_live _ _ _ Hb) in Hin as [? ?]. congruence. }
    destruct Hcase as [([Hc|Hc] & _)|(_ & _ & _ & _ & Hh2 & Hl2)]; [done|done|].
    simpl in Hh2. rewrite Hh2, lookup_insert_eq in Ho3. injection Ho3 as <-.
    simpl. rewrite Hh2, Hl2, Hl1, Hh1, list_del_app_new by done.
    rewrite !insert_insert_eq, delete_insert_eq, delete_id by done.
    do 2 (split; [done|]). by apply Hnr'.
Qed.

End Proofs.

(** * File names *)

Lemma write_at_over pre old suf src :
  length old = length src ->
  write_at (pre ++ old ++ suf) (Z.of_nat (length pre)) src = Some (pre ++ src ++ suf).
Proof.
  intros Hlen. unfold write_at. rewrite !length_app.
  rewrite andb_true_intro by (split; apply Z.leb_le; lia).
  rewrite Nat2Z.id, take_app_length. do 3 f_equal.
  rewrite drop_app_add, <- Hlen. apply drop_app_length.
Qed.

Lemma slash_join_app names nm :
  slash_join (names ++ [nm]) = slash_join names ++ "/"%char :: nm.
Proof.
  induction names as [|n names IH]; simpl.
  - by rewrite app_nil_r.
  - rewrite IH. by rewrite <- app_assoc.
Qed.


(** The walk over components that fit before the cursor. *)
Lemma filename_walk_fits ns mnt d names k :
  components ns mnt d names k ->
  forall n pre gap suf,
    (k <= n)%nat ->
    length gap = length (slash_join names) ->
    (Z.of_nat (length pre + length gap) < 2 ^ 31)%Z ->
    filename_walk ns n mnt d
      (mk_cursor (pre ++ gap ++ suf)
         (Z.of_nat (length pre + length gap)) (Z.of_nat (length pre + length gap))) =
    Done (0%Z, mk_cursor (pre ++ slash_join names ++ suf)
                 (Z.of_nat (length pre)) (Z.of_nat (length pre))).
Proof.
  induction 1 as [mnt d Hd Hup|mnt d mnt' d' names k Hd Hup Hc IH
                 |mnt d names k Hd Hc IH];
    intros n pre gap suf Hn Hgap Hlt; (destruct n as [|n]; [lia|]);
    cbn [filename_walk nc_buf nc_end nc_size].
  - destruct gap; [|done]. simpl. rewrite Hd, Nat.eqb_refl. simpl.
    rewrite <- Hd, Hup. by rewrite Nat.add_0_r.
  - rewrite Hd, Nat.eqb_refl. simpl. rewrite <- Hd, Hup.
    apply IH; [lia|done|done].
  - destruct (Nat.eqb_spec d (mnt_root ns mnt)) as [|_]; [done|]. simpl negb. cbv iota.
    rewrite slash_join_app, length_app in Hgap. simpl in Hgap.
    set (nm := d_name ns d) in *. set (R := slash_join names) in *.
    set (g1 := take (length R) gap).
    set (g2 := take 1 (drop (length R) gap)).
    set (g3 := drop (S (length R)) gap).
    assert (gap = g1 ++ g2 ++ g3) as Hsplit.
    { unfold g1, g2, g3. rewrite <- (take_drop (length R) gap) at 1. f_equal.
      rewrite <- (take_drop 1 (drop (length R) gap)) at 1. f_equal.
      rewrite drop_drop. f_equal. lia. }
    assert (length g1 = length R) as H1 by (unfold g1; rewrite length_take; lia).
    assert (length g2 = 1) as H2
      by (unfold g2; rewrite length_take, length_drop; lia).
    assert (length g3 = length nm) as H3 by (unfold g3; rewrite length_drop; lia).
    rewrite wrap_int_id by lia.
    destruct (Z.ltb_spec (Z.of_nat (length pre + length gap) -
                          (Z.of_nat (length nm) + 1)) 0) as [|_]; [lia|].
    replace (Z.of_nat (length pre + length gap) - Z.of_nat (length nm))%Z
      with (Z.of_nat (length ((pre ++ g1) ++ g2))) by (rewrite !length_app; lia).
    rewrite Hsplit.
    replace (pre ++ (g1 ++ g2 ++ g3) ++ suf) with (((pre ++ g1) ++ g2) ++ g3 ++ suf)
      by (by rewrite <- !app_assoc).
    rewrite write_at_over by done.
    replace (Z.of_nat (length ((pre ++ g1) ++ g2)) - 1)%Z
      with (Z.of_nat (length (pre ++ g1))) by (rewrite !length_app; lia).
    rewrite <- (app_assoc (pre ++ g1)).
    rewrite (write_at_over (pre ++ g1) g2 _ ["/"%char]) by done.
    replace (Z.of_nat (length pre + length (g1 ++ g2 ++ g3)) - (Z.of_nat (length nm) + 1))%Z
      with (Z.of_nat (length pre + length g1)) by (rewrite !length_app; lia).
    rewrite length_app. rewrite <- (app_assoc pre g1).
    rewrite (IH n pre g1 _); [|lia|done|lia].
    rewrite slash_join_app. by rewrite <- !app_assoc.
Qed.

Lemma read_at_middle pre x suf :
  read_at (pre ++ x :: suf) (Z.of_nat (length pre)) = Some x.
Proof.
  unfold read_at. rewrite (proj2 (Z.leb_le _ _)) by lia.
  rewrite Nat2Z.id. by apply list_lookup_middle.
Qed.

Lemma move_front_middle pre mid suf :
  move_front (pre ++ mid ++ suf) (Z.of_nat (length pre)) (Z.of_nat (length mid)) =
  Some (mid ++ drop (length mid) (pre ++ mid ++ suf)).
Proof.
  unfold move_front. rewrite !length_app.
  rewrite !(proj2 (Z.leb_le _ _)) by lia. simpl.
  rewrite !Nat2Z.id, drop_app_length, take_app_length. done.
Qed.

Lemma drop_moved (pre mid suf : list ascii) :
  drop (length pre + length mid) (mid ++ drop (length mid) (pre ++ mid ++ suf)) = suf.
Proof.
  rewrite drop_app_ge by lia. rewrite drop_drop.
  replace (length mid + (length pre + length mid - length mid))%nat
    with (length (pre ++ mid)) by (rewrite length_app; lia).
  rewrite app_assoc. apply drop_app_length.
Qed.

(** A buffer cut at two offsets. *)
Lemma buffer_split (buf : list ascii) i j :
  (i <= j)%nat -> (j <= length buf)%nat ->
  exists pre gap suf, buf = pre ++ gap ++ suf /\
    length pre = i /\ length gap = (j - i)%nat /\ length suf = (length buf - j)%nat.
Proof.
  intros Hij Hj. exists (take i buf), (take (j - i) (drop i buf)), (drop j buf).
  split; [|rewrite !length_take, !length_drop; lia].
  rewrite <- (take_drop i buf) at 1. f_equal.
  rewrite <- (take_drop (j - i) (drop i buf)) at 1. f_equal.
  rewrite drop_drop. f_equal. lia.
Qed.

Lemma path_of_length names : (1 <= length (path_of names))%nat.
Proof. destruct names; simpl; lia. Qed.

(** The whole call when the file name fits. *)
Lemma get_filename_fits ns mnt d names k n buf size :
  components ns mnt d names k -> (k <= n)%nat ->
  (Z.of_nat (length (path_of names)) + 1 <= size)%Z ->
  (size <= Z.of_nat (length buf))%Z -> (size < 2 ^ 31)%Z ->
  exists buf',
    redirfs_get_filename ns n mnt d buf size = Done (0%Z, buf') /\
    length buf' = length buf /\
    take (length (path_of names) + 1) buf' = path_of names ++ [zero] /\
    drop (Z.to_nat size) buf' = drop (Z.to_nat size) buf.
Proof.
  intros Hc Hn Hfit Hbuf Hint.
  pose proof (path_of_length names) as HP.
  set (R := slash_join names).
  assert (length R <= length (path_of names))%nat as HR
    by (unfold R; destruct names; simpl; lia).
  destruct (buffer_split buf (Z.to_nat size - 1 - length R) (Z.to_nat size - 1))
    as (pre & gap & tl & -> & Hpre & Hgap & Htl); [lia|lia|].
  destruct tl as [|x rest]; [simpl in Htl; rewrite !length_app in *; lia|].
  assert (size - 1 = Z.of_nat (length pre + length gap))%Z as Hsz by lia.
  unfold redirfs_get_filename.
  destruct (Z.ltb_spec size 2) as [|_]; [lia|].
  rewrite Hsz. rewrite <- length_app.
  rewrite (app_assoc pre gap). change (x :: rest) with ([x] ++ rest).
  rewrite (write_at_over (pre ++ gap) [x] rest [zero]) by done.
  rewrite <- (app_assoc pre gap), length_app.
  rewrite (filename_walk_fits ns mnt d names k Hc n pre gap _ Hn);
    [|unfold R in *; lia|lia].
  cbn [negb Z.eqb nc_buf nc_end nc_size]. fold R.
  destruct names as [|nm names].
  - (* the entry is the top of the name space *)
    assert (gap = []) as -> by (destruct gap; [done|simpl in *; lia]).
    unfold R. cbn [slash_join app]. rewrite app_nil_r.
    rewrite read_at_middle. simpl negb. cbv iota.
    destruct (buffer_split pre (length pre - 1) (length pre))
      as (pre0 & y & e & -> & Hp0 & Hy & He); [lia|lia|].
    assert (e = []) as -> by (destruct e; [done|simpl in *; lia]).
    rewrite app_nil_r in *. rewrite length_app in *.
    replace (Z.of_nat (length pre0 + length y) - 1)%Z
      with (Z.of_nat (length pre0)) by lia.
    rewrite <- (app_assoc pre0 y).
    rewrite (write_at_over pre0 y _ ["/"%char]) by (simpl; lia).
    cbn [nc_buf nc_end nc_size].
    replace (size - Z.of_nat (length pre0))%Z
      with (Z.of_nat (length ["/"%char; zero])) by (simpl in *; lia).
    change (pre0 ++ ["/"%char] ++ zero :: rest)
      with (pre0 ++ ["/"%char; zero] ++ rest).
    rewrite move_front_middle.
    eexists. split; [done|]. split; [|split].
    + rewrite !length_app, length_drop, !length_app. simpl in *. lia.
    + simpl. done.
    + replace (Z.to_nat size) with (length pre0 + length ["/"%char; zero])%nat
        by (simpl in *; lia).
      rewrite drop_moved.
      replace (length pre0 + length ["/"%char; zero])%nat
        with (length ((pre0 ++ y) ++ [x])) by (rewrite !length_app; simpl; lia).
      change (x :: rest) with ([x] ++ rest). rewrite app_assoc.
      by rewrite drop_app_length.
  - (* at least one component *)
    unfold R. cbn [slash_join app].
    rewrite read_at_middle. simpl negb. cbv iota.
    cbn [nc_buf nc_end nc_size].
    set (P := "/"%char :: nm ++ slash_join names) in *.
    replace (size - Z.of_nat (length pre))%Z
      with (Z.of_nat (length (P ++ [zero])))
      by (rewrite length_app; simpl length in *; lia).
    replace (pre ++ "/"%char :: (nm ++ slash_join names) ++ zero :: rest)
      with (pre ++ (P ++ [zero]) ++ rest)
      by (unfold P; cbn [app]; by rewrite <- !app_assoc).
    rewrite move_front_middle.
    eexists. split; [done|]. split; [|split].
    + rewrite !length_app, length_drop, !length_app. simpl in *.
      rewrite !length_app in *. simpl in *. lia.
    + change (path_of (nm :: names)) with P.
      replace (length P + 1)%nat with (length (P ++ [zero]))
        by (rewrite length_app; simpl; lia).
      by rewrite take_app_length.
    + replace (Z.to_nat size) with (length pre + length (P ++ [zero]))%nat
        by (rewrite length_app; simpl length in *; lia).
      rewrite drop_moved.
      replace (length pre + length (P ++ [zero]))%nat
        with (length ((pre ++ gap) ++ [x]))
        by (rewrite !length_app; simpl length in *; lia).
      change (x :: rest) with ([x] ++ rest). rewrite !app_assoc.
      by rewrite drop_app_length.
Qed.

(** X21: when the walk from the entry ends at the top of the name
    space, its bound is not reached and the file name with its
    terminator fits into [size] bytes, redirfs_get_filename returns 0
    and the buffer starts with the file name, a slash before every
    component from the top down (a single slash for the top itself),
    followed by the terminator; the bytes of the buffer from [size] on
    are untouched. *)
Theorem get_filename_writes_path ns mnt d names k n buf size :
  components ns mnt d names k -> (k <= n)%nat ->
  (Z.of_nat (length (path_of names)) + 1 <= size)%Z ->
  (size <= Z.of_nat (length buf))%Z -> (size < 2 ^ 31)%Z ->
  exists buf',
    redirfs_get_filename ns n mnt d buf size = Done (0%Z, buf') /\
    length buf' = length buf /\
    take (length (path_of names) + 1) buf' = path_of names ++ [zero] /\
    drop (Z.to_nat size) buf' = drop (Z.to_nat size) buf.
Proof. apply get_filename_fits. Qed.

(** The walk over components that do not fit before the cursor. *)
Lemma filename_walk_too_long ns mnt d names k :
  components ns mnt d names k ->
  forall n pre suf,
    (k <= n)%nat ->
    (length pre < length (slash_join names))%nat ->
    Forall (fun nm => (Z.of_nat (length nm) < 2 ^ 31)%Z) names ->
    (Z.of_nat (length pre) < 2 ^ 31)%Z ->
    exists q e sz,
      filename_walk ns n mnt d
        (mk_cursor (pre ++ suf) (Z.of_nat (length pre)) (Z.of_nat (length pre))) =
      Done ((- ENAMETOOLONG)%Z, mk_cursor (q ++ suf) e sz) /\
      length q = length pre.
Proof.
  induction 1 as [mnt d Hd Hup|mnt d mnt' d' names k Hd Hup Hc IH
                 |mnt d names k Hd Hc IH];
    intros n pre suf Hn Hlong Hshort Hlt; (destruct n as [|n]; [lia|]);
    cbn [filename_walk nc_buf nc_end nc_size].
  - simpl in Hlong. lia.
  - rewrite Hd, Nat.eqb_refl. simpl. rewrite <- Hd, Hup.
    apply IH; [lia|done|done|done].
  - destruct (Nat.eqb_spec d (mnt_root ns mnt)) as [|_]; [done|]. simpl negb. cbv iota.
    rewrite slash_join_app, length_app in Hlong. simpl in Hlong.
    apply Forall_app in Hshort as [Hshort Hnm]. rewrite Forall_singleton in Hnm.
    set (nm := d_name ns d) in *.
    rewrite wrap_int_id by lia.
    destruct (Z.ltb_spec (Z.of_nat (length pre) - (Z.of_nat (length nm) + 1)) 0)
      as [|Hge]; [by eexists _, _, _|].
    destruct (buffer_split pre (length pre - length nm - 1) (length pre - length nm))
      as (p1 & g2 & g3 & -> & Hp1 & Hg2 & Hg3); [lia|lia|].
    rewrite !length_app in *.
    replace (Z.of_nat (length p1 + (length g2 + length g3)) - Z.of_nat (length nm))%Z
      with (Z.of_nat (length (p1 ++ g2))) by (rewrite length_app; lia).
    replace ((p1 ++ g2 ++ g3) ++ suf) with ((p1 ++ g2) ++ g3 ++ suf)
      by (by rewrite <- !app_assoc).
    rewrite write_at_over by lia.
    replace (Z.of_nat (length (p1 ++ g2)) - 1)%Z with (Z.of_nat (length p1))
      by (rewrite length_app; lia).
    rewrite <- (app_assoc p1 g2).
    rewrite (write_at_over p1 g2 _ ["/"%char]) by (simpl; lia).
    replace (Z.of_nat (length p1 + (length g2 + length g3)) - (Z.of_nat (length nm) + 1))%Z
      with (Z.of_nat (length p1)) by lia.
    destruct (IH n p1 (["/"%char] ++ nm ++ suf)) as (q & e & sz & Hrun & Hq);
      [lia|lia|done|lia|].
    exists (q ++ ["/"%char] ++ nm), e, sz. rewrite Hrun. split.
    + by rewrite <- !app_assoc.
    + rewrite !length_app. simpl. lia.
Qed.

(** X22: when the file name with its terminator does not fit into
    [size] bytes, redirfs_get_filename returns -ENAMETOOLONG, and the
    bytes of the buffer from [size] on are untouched. *)
Theorem get_filename_too_long ns mnt d names k n buf size :
  components ns mnt d names k -> (k <= n)%nat ->
  (size < Z.of_nat (length (path_of names)) + 1)%Z ->
  (size <= Z.of_nat (length buf))%Z -> (size < 2 ^ 31)%Z ->
  Forall (fun nm => (Z.of_nat (length nm) < 2 ^ 31)%Z) names ->
  exists buf',
    redirfs_get_filename ns n mnt d buf size = Done ((- ENAMETOOLONG)%Z, buf') /\
    length buf' = length buf /\
    drop (Z.to_nat size) buf' = drop (Z.to_nat size) buf.
Proof.
  intros Hc Hn Hlong Hbuf Hint Hshort. unfold redirfs_get_filename.
  destruct (Z.ltb_spec size 2) as [|Hsize]; [by eexists|].
  assert (path_of names = slash_join names) as HP.
  { destruct names; [simpl in Hlong; lia|done]. }
  rewrite HP in Hlong.
  destruct (buffer_split buf (Z.to_nat size - 1) (Z.to_nat size))
    as (pre & x & rest & -> & Hpre & Hx & Hrest); [lia|lia|].
  replace (size - 1)%Z with (Z.of_nat (length pre)) by lia.
  rewrite (write_at_over pre x rest [zero]) by (simpl; lia).
  destruct (filename_walk_too_long ns mnt d names k Hc n pre ([zero] ++ rest))
    as (q & e & sz & Hrun & Hq); [done|lia|done|lia|].
  rewrite Hrun. simpl negb. cbv iota. cbn [nc_buf].
  eexists. split; [done|]. split.
  - rewrite !length_app. simpl. lia.
  - replace (Z.to_nat size) with (length (q ++ [zero])) at 1
      by (rewrite length_app; simpl; lia).
    replace (Z.to_nat size) with (length (pre ++ x))
      by (rewrite length_app; simpl; lia).
    rewrite !app_assoc. by rewrite !drop_app_length.
Qed.

(** Where every name is shorter than 2^31 bytes, the walk writes before
    the cursor only. *)
Lemma filename_walk_in_bounds ns n :
  (forall e, (Z.of_nat (length (d_name ns e)) < 2 ^ 31)%Z) ->
  forall mnt d pre suf,
    (Z.of_nat (length pre) < 2 ^ 31)%Z ->
    match filename_walk ns n mnt d
            (mk_cursor (pre ++ suf) (Z.of_nat (length pre)) (Z.of_nat (length pre)))
    with
    | Done (rv, c) =>
        exists q, nc_buf c = q ++ suf /\ length q = length pre /\
          (rv = 0%Z \/ rv = (- ENAMETOOLONG)%Z) /\
          (rv = 0%Z ->
           nc_size c = nc_end c /\ (0 <= nc_end c <= Z.of_nat (length pre))%Z /\
           (nc_end c = Z.of_nat (length pre) \/
            read_at (nc_buf c) (nc_end c) = Some "/"%char))
    | Crash => False
    | Cut => True
    end.
Proof.
  intros Hshort. induction n as [|n IH]; intros mnt d pre suf Hlt; [done|].
  cbn [filename_walk nc_buf nc_end nc_size].
  destruct (Nat.eqb d (mnt_root ns mnt)); simpl negb; cbv iota.
  { destruct (follow_up ns mnt d) as [[mnt' d']|]; [by apply IH|].
    exists pre. split; [done|]. split; [done|]. split; [by left|].
    intros _. simpl. split; [done|]. split; [lia|by left]. }
  pose proof (Hshort d) as Hnm. set (nm := d_name ns d) in *.
  rewrite wrap_int_id by lia.
  destruct (Z.ltb_spec (Z.of_nat (length pre) - (Z.of_nat (length nm) + 1)) 0)
    as [|Hge].
  { exists pre. split; [done|]. split; [done|]. split; [by right|]. done. }
  destruct (buffer_split pre (length pre - length nm - 1) (length pre - length nm))
    as (p1 & g2 & g3 & -> & Hp1 & Hg2 & Hg3); [lia|lia|].
  rewrite !length_app in *.
  replace (Z.of_nat (length p1 + (length g2 + length g3)) - Z.of_nat (length nm))%Z
    with (Z.of_nat (length (p1 ++ g2))) by (rewrite length_app; lia).
  replace ((p1 ++ g2 ++ g3) ++ suf) with ((p1 ++ g2) ++ g3 ++ suf)
    by (by rewrite <- !app_assoc).
  rewrite write_at_over by lia.
  replace (Z.of_nat (length (p1 ++ g2)) - 1)%Z with (Z.of_nat (length p1))
    by (rewrite length_app; lia).
  rewrite <- (app_assoc p1 g2).
  rewrite (write_at_over p1 g2 _ ["/"%char]) by (simpl; lia).
  replace (Z.of_nat (length p1 + (length g2 + length g3)) - (Z.of_nat (length nm) + 1))%Z
    with (Z.of_nat (length p1)) by lia.
  assert (Z.of_nat (length p1) < 2 ^ 31)%Z as Hlt1 by lia.
  specialize (IH mnt (d_parent ns d) p1 (["/"%char] ++ nm ++ suf) Hlt1).
  revert IH. destruct (filename_walk _ _ _ _ _) as [[rv c]| |]; intros IH;
    [|done|done].
  destruct IH as (q & Hbuf & Hq & Hrv & Hcur).
  exists (q ++ ["/"%char] ++ nm). split; [by rewrite Hbuf, <- !app_assoc|].
  split; [rewrite !length_app; simpl; lia|]. split; [done|].
  intros Hz. destruct (Hcur Hz) as (Hsz & Hrange & Hat).
  split; [done|]. split; [lia|]. right.
  destruct Hat as [He|Hat]; [|done].
  rewrite Hbuf, He, <- Hq. apply read_at_middle.
Qed.

(** X23: in a name space whose names are all shorter than 2^31 bytes
    (with a longer name the subtraction from [size] wraps), whatever
    the bound on the walk, a call of redirfs_get_filename with an [int]
    [size] and a buffer of at least [size] bytes makes no access
    outside the buffer; when it returns, the result is 0 or
    -ENAMETOOLONG, the buffer has kept its length and its bytes from
    [size] on are untouched. *)
Theorem get_filename_stays_in_buffer ns n mnt d buf size :
  (forall e, (Z.of_nat (length (d_name ns e)) < 2 ^ 31)%Z) ->
  (size <= Z.of_nat (length buf))%Z -> (size < 2 ^ 31)%Z ->
  match redirfs_get_filename ns n mnt d buf size with
  | Done (rv, buf') =>
      (rv = 0%Z \/ rv = (- ENAMETOOLONG)%Z) /\
      length buf' = length buf /\
      drop (Z.to_nat size) buf' = drop (Z.to_nat size) buf
  | Crash => False
  | Cut => True
  end.
Proof.
  intros Hshort Hbuf Hint. unfold redirfs_get_filename.
  destruct (Z.ltb_spec size 2) as [|Hsize]; [by split; [right|]|].
  destruct (buffer_split buf (Z.to_nat size - 1) (Z.to_nat size))
    as (pre & x & rest & -> & Hpre & Hx & Hrest); [lia|lia|].
  replace (size - 1)%Z with (Z.of_nat (length pre)) by lia.
  rewrite (write_at_over pre x rest [zero]) by (simpl; lia).
  assert (Z.of_nat (length pre) < 2 ^ 31)%Z as Hlt by lia.
  pose proof (filename_walk_in_bounds ns n Hshort mnt d pre ([zero] ++ rest) Hlt)
    as Hwalk.
  revert Hwalk. destruct (filename_walk _ _ _ _ _) as [[rv c]| |]; intros Hwalk;
    [|done|done].
  destruct Hwalk as (q & Hq & Hlen & Hrv & Hcur).
  assert (drop (Z.to_nat size) ((pre ++ x) ++ rest) = rest) as Hrest'.
  { apply drop_app_length'. rewrite length_app. lia. }
  rewrite <- (app_assoc pre x) in Hrest'. rewrite Hrest'.
  destruct (Z.eqb_spec rv 0) as [->|Hne]; simpl negb; cbv iota.
  2:{ split; [done|]. rewrite Hq. split.
      - rewrite !length_app. simpl. lia.
      - change ([zero] ++ rest) with (zero :: rest).
        replace (q ++ zero :: rest) with ((q ++ [zero]) ++ rest)
          by (by rewrite <- app_assoc).
        apply drop_app_length'. rewrite length_app. simpl. lia. }
  destruct (Hcur eq_refl) as (Hsz & Hrange & Hat).
  destruct c as [cb ce cs]. simpl in Hq, Hsz, Hrange, Hat. subst cb cs.
  cbn [nc_buf nc_end nc_size].
  destruct Hat as [->|Hat].
  - (* nothing was written: the terminator is read *)
    rewrite <- Hlen. change ([zero] ++ rest) with (zero :: rest).
    rewrite read_at_middle. simpl negb. cbv iota.
    destruct (buffer_split q (length q - 1) (length q))
      as (q0 & y & e & -> & Hq0 & Hy & He); [lia|lia|].
    assert (e = []) as -> by (destruct e; [done|simpl in *; lia]).
    rewrite app_nil_r in *. rewrite length_app in *.
    replace (Z.of_nat (length q0 + length y) - 1)%Z
      with (Z.of_nat (length q0)) by lia.
    rewrite <- (app_assoc q0 y).
    rewrite (write_at_over q0 y _ ["/"%char]) by (simpl; lia).
    cbn [nc_buf nc_end nc_size].
    replace (size - Z.of_nat (length q0))%Z
      with (Z.of_nat (length ["/"%char; zero])) by (simpl in *; lia).
    change (q0 ++ ["/"%char] ++ zero :: rest)
      with (q0 ++ ["/"%char; zero] ++ rest).
    rewrite move_front_middle. split; [by left|]. split.
    + rewrite !length_app, length_drop, !length_app. simpl in *. lia.
    + replace (Z.to_nat size) with (length q0 + length ["/"%char; zero])%nat
        by (simpl in *; lia).
      apply drop_moved.
  - (* a component was written: a slash is read *)
    rewrite Hat. simpl negb. cbv iota. cbn [nc_buf nc_end nc_size].
    destruct (buffer_split q (Z.to_nat ce) (length q))
      as (q1 & q2 & e & -> & Hq1 & Hq2 & He); [lia|lia|].
    assert (e = []) as -> by (destruct e; [done|simpl in *; lia]).
    rewrite app_nil_r in *. rewrite length_app in *.
    replace ce with (Z.of_nat (length q1)) by lia.
    replace (size - Z.of_nat (length q1))%Z
      with (Z.of_nat (length (q2 ++ [zero])))
      by (rewrite length_app; simpl in *; lia).
    replace ((q1 ++ q2) ++ zero :: rest) with (q1 ++ (q2 ++ [zero]) ++ rest)
      by (by rewrite <- !app_assoc).
    rewrite move_front_middle. split; [by left|]. split.
    + rewrite !length_app, length_drop, !length_app. simpl in *. lia.
    + replace (Z.to_nat size) with (length q1 + length (q2 ++ [zero]))%nat
        by (rewrite length_app; simpl in *; lia).
      apply drop_moved.
Qed.


(** * The listing of the paths of a filter *)

Lemma c_string_prefix P rest : zero ∉ P -> c_string (P ++ zero :: rest) = Some P.
Proof.
  induction P as [|c P IH]; intros Hz; simpl.
  - done.
  - apply not_elem_of_cons in Hz as [Hc Hz].
    destruct (Ascii.eqb_spec c zero) as [->|_]; [done|].
    by rewrite IH.
Qed.

Lemma slash_join_no_zero names :
  Forall (fun nm => zero ∉ nm) names -> zero ∉ slash_join names.
Proof.
  induction 1 as [|nm names Hnm _ IH]; simpl; [apply not_elem_of_nil|].
  apply not_elem_of_cons. split; [done|].
  rewrite elem_of_app. tauto.
Qed.

Lemma path_of_no_zero names :
  Forall (fun nm => zero ∉ nm) names -> zero ∉ path_of names.
Proof.
  intros H. destruct names as [|nm names].
  - simpl. apply not_elem_of_cons. split; [done|apply not_elem_of_nil].
  - by apply slash_join_no_zero.
Qed.

Lemma snprintf_at_fits pre gap rest n txt :
  length gap = S (length txt) -> (Z.of_nat (length gap) <= n)%Z ->
  snprintf_at (pre ++ gap ++ rest) (Z.of_nat (length pre)) n txt =
  Some (pre ++ (txt ++ [zero]) ++ rest, Z.of_nat (length txt)).
Proof.
  intros Hgap Hn. unfold snprintf_at.
  destruct (Z.ltb_spec n 0) as [|_]; [lia|].
  destruct (Z.eqb_spec n 0) as [|_]; [lia|].
  rewrite take_ge by lia.
  rewrite write_at_over; [done|]. rewrite length_app. simpl. lia.
Qed.

Lemma prefix_split (l : list ascii) i :
  (i <= length l)%nat ->
  exists g1 g2, l = g1 ++ g2 /\ length g1 = i /\ length g2 = (length l - i)%nat.
Proof.
  intros Hi. exists (take i l), (drop i l).
  split; [by rewrite take_drop|]. rewrite length_take, length_drop. lia.
Qed.

Lemma join_records_nil recs : length (join_records recs) = 0 -> recs = [].
Proof.
  destruct recs as [|r recs]; [done|]. simpl. rewrite length_app. simpl. lia.
Qed.

Section InfoProofs.

Context {W : Type} `{HostW : Host W}.

Implicit Types (s : @state W).

Lemma get_info_loop_fits ns n f s l recs :
  info_records ns n f (heap s) l recs ->
  forall page pre gap rest size,
    (PAGE_SIZE <= Z.of_nat (length page))%Z ->
    length gap = length (join_records recs) ->
    (Z.of_nat (length pre + length gap) <= size)%Z ->
    (size < 2 ^ 31)%Z ->
    get_info_loop ns n f l page (pre ++ gap ++ rest) size (Z.of_nat (length pre)) s =
    Some (Done (Z.of_nat (length pre + length gap),
                pre ++ join_records recs ++ rest), s).
Proof.
  induction 1 as [|a o l recs Ho Hcit Hrecs IH
                 |a o l recs names k Ho Hcit Hc Hk Hz Hpage Hrecs IH];
    intros page pre gap rest size Hpg Hgap Hfit Hint.
  - destruct gap; [|done]. simpl. unfold ret. by rewrite Nat.add_0_r.
  - cbn [get_info_loop]. rewrite (bind_run _ _ _ _ _ (deref_run _ _ _ Ho)).
    apply orb_false_elim in Hcit as [Hi He]. unfold member in Hi, He.
    rewrite Hi, He. by apply IH.
  - cbn [get_info_loop]. rewrite (bind_run _ _ _ _ _ (deref_run _ _ _ Ho)).
    fold (member (rp_rinch o) f). fold (member (rp_rexch o) f).
    set (type := if member (rp_rinch o) f then "i"%char else "e"%char) in *.
    assert ((if member (rp_rinch o) f then Some "i"%char
             else if member (rp_rexch o) f then Some "e"%char else None)
            = Some type) as ->.
    { unfold type, cites in *. destruct (member (rp_rinch o) f); [done|].
      simpl in Hcit. by rewrite Hcit. }
    destruct (get_filename_fits ns (rp_mnt o) (rp_dentry o) names k n page PAGE_SIZE)
      as (page' & -> & Hlen' & Htake & _); [done|done|done|done|done|].
    cbn [negb Z.eqb].
    set (P := path_of names) in *.
    assert (page' = P ++ zero :: drop (length P + 1) page') as ->.
    { rewrite <- (take_drop (length P + 1) page') at 1. rewrite Htake.
      by rewrite <- app_assoc. }
    rewrite c_string_prefix by by apply path_of_no_zero.
    set (txt := info_text type (rp_id o) P) in *.
    cbn [join_records] in Hgap. rewrite length_app in Hgap. cbn [length] in Hgap.
    destruct (prefix_split gap (S (length txt))) as (g1 & g2 & -> & Hg1 & Hg2);
      [lia|].
    rewrite length_app in *.
    rewrite <- (app_assoc g1 g2 rest).
    rewrite (snprintf_at_fits pre g1 (g2 ++ rest) _ txt); [|lia|lia].
    rewrite wrap_int_id by lia.
    destruct (Z.leb_spec size (Z.of_nat (length pre) + (Z.of_nat (length txt) + 1)))
      as [Hfull|Hmore].
    + assert (length g2 = 0) as Hg0 by lia.
      assert (recs = []) as -> by (apply join_records_nil; lia).
      destruct g2; [|done]. unfold ret. cbn [join_records].
      rewrite !app_nil_l. change (txt ++ [zero]) with (txt ++ zero :: []).
      do 4 f_equal. cbn [length] in *. lia.
    + replace (Z.of_nat (length pre) + (Z.of_nat (length txt) + 1))%Z
        with (Z.of_nat (length (pre ++ txt ++ [zero])))
        by (rewrite !length_app; simpl; lia).
      replace (pre ++ (txt ++ [zero]) ++ g2 ++ rest)
        with ((pre ++ txt ++ [zero]) ++ g2 ++ rest) by (by rewrite <- !app_assoc).
      rewrite (IH _ (pre ++ txt ++ [zero]) g2 rest size).
      * do 4 f_equal.
        -- rewrite !length_app. cbn [length]. lia.
        -- cbn [join_records]. by rewrite <- !app_assoc.
      * rewrite length_app. cbn [length]. rewrite length_drop. lia.
      * lia.
      * rewrite !length_app. cbn [length]. lia.
      * done.
Qed.

(** X24: when every registered path that cites the filter has a file
    name that its walk finds and that fits into a page, the page can be
    allocated and all records with their terminators fit into [size]
    bytes, rfs_path_get_info returns the number of bytes written and
    the buffer starts with one record per citing path, in the order of
    the registry list: [i] or [e] for the chain that holds the filter,
    the id in decimal and the file name, separated by colons and
    followed by a terminator; the rest of the buffer is untouched and
    the registry is not changed. *)
Theorem path_get_info_writes_records ns n f s recs buf size :
  info_records ns n f (heap s) (rfs_path_list s) recs ->
  (kzalloc (world s)).1 = true ->
  (Z.of_nat (length (join_records recs)) <= size)%Z ->
  (size <= Z.of_nat (length buf))%Z -> (size < 2 ^ 31)%Z ->
  exists buf',
    rfs_path_get_info ns n f buf size s =
      Some (Done (Z.of_nat (length (join_records recs)), buf'),
            set_world s (kzalloc (world s)).2) /\
    length buf' = length buf /\
    take (length (join_records recs)) buf' = join_records recs /\
    drop (length (join_records recs)) buf' = drop (length (join_records recs)) buf.
Proof.
  intros Hrecs Hok Hfit Hbuf Hint.
  set (T := length (join_records recs)) in *.
  destruct (prefix_split buf T) as (gap & rest & -> & Hgap & Hrest); [lia|].
  unfold rfs_path_get_info.
  rewrite (bind_run _ _ _ _ _ (alloc_run s)), Hok.
  unfold bind at 1. unfold gets at 1.
  pose proof (get_info_loop_fits ns n f (set_world s (kzalloc (world s)).2)
                (rfs_path_list s) recs Hrecs
                (replicate (Z.to_nat PAGE_SIZE) zero) [] gap rest size) as Hloop.
  rewrite !app_nil_l in Hloop. cbn [length] in Hloop.
  change (Z.of_nat 0) with 0%Z in Hloop.
  change (rfs_path_list (set_world s (kzalloc (world s)).2))
    with (rfs_path_list s).
  rewrite Hloop; [|rewrite length_replicate; lia|unfold T in *; lia|lia|done].
  eexists. split; [do 4 f_equal; lia|].
  split; [rewrite !length_app; unfold T in *; lia|].
  split.
  - unfold T. by rewrite take_app_length.
  - rewrite <- Hgap at 2. rewrite drop_app_length.
    unfold T. by rewrite drop_app_length.
Qed.

End InfoProofs.


(** * Executions on the host modelled from the spec *)

(** ** Id assignment *)

(** C4 (the code departs from it): with the ids 1 and 0 on the list, in
    this order, rfs_path_get_id returns 1, and the path created next
    carries the id 1 of a registered path, not the smallest unused
    id 2. *)
Theorem get_id_returns_id_in_use :
  fst <$> get_id_scenario s0 =
  Some ([Some 1%Z; Some 0%Z], 1%Z, 1%Z, [Some 1%Z; Some 0%Z; Some 1%Z]).
Proof. vm_compute. reflexivity. Qed.

(** ** Registration followed by removal *)

(** C5 (the code departs from it): the path at address 4 is created
    with id 1, removed again with success, its chains are empty and it
    is off the list, yet the lookup of id 1 returns the path at
    address 2, which carries the same id. *)
Theorem round_trip_lookup_finds_other_path :
  fst <$> round_trip_scenario s0 =
  Some (PTR 4, 1%Z, 0%Z, (None, None), [2%positive; 3%positive], PTR 2).
Proof. vm_compute. reflexivity. Qed.

(** ** Removal of all paths of a filter *)

(** C8 (the code departs from it): for a filter that no path cites,
    redirfs_rem_paths returns its variable [rv] without having assigned
    it. *)
Theorem rem_paths_without_paths_returns_unassigned :
  redirfs_rem_paths (Some 7) s0 = Some (None, s0).
Proof. vm_compute. reflexivity. Qed.

(** ** Paths of a filter under a root *)

(** C9 (the code departs from it): asked for the paths of filter 7 under
    the root of entry 10, redirfs_get_paths_root also returns the path
    at address 2, whose include chain holds only filter 8 and whose
    exclude chain is empty. *)
Theorem get_paths_root_returns_path_not_citing :
  fst <$> paths_root_scenario s0 =
  Some (inr [1%positive; 2%positive], (Some [8], None)).
Proof. vm_compute. reflexivity. Qed.

(** ** Rename with no record of the new parent *)

(** C10 (the code departs from it): with distinct parent directories
    and no identity-cache record of the new parent, rfs_fsrename reads
    through the missing record and faults. *)
Theorem fsrename_without_inode_record_faults :
  rfs_fsrename 1 5 2 6 s0 = None.
Proof. vm_compute. reflexivity. Qed.

(** ** Rename of a registered entry between two unfiltered parents *)

(** C3, as the spec states it, fails: entry 5 carries filter 7 by its
    own registration and moves from parent 1 to parent 2, neither
    parent carrying a chain, so that the roots of the two parents are
    equal (both none); rfs_fsrename returns 0 but detaches filter 7 from
    the root of the entry, so that the state has changed. *)
Lemma fsrename_equal_parent_roots_changes_state :
  ~ (forall (s : @state world_t) od oe nd ne,
       reachable s ->
       parent_root (world s) od = parent_root (world s) nd ->
       rfs_fsrename od oe nd ne s = Some (0%Z, s)).
Proof.
  intros Hclaim.
  destruct registered_entry as [[p s]|] eqn:E; [|by vm_compute in E].
  assert (reachable s) as Hreach.
  { exists w_dirs. eapply rtc_l; [|apply rtc_refl].
    eapply (step_add_path _ _ p); [|exact E]. by vm_compute. }
  specialize (Hclaim s 1 5 2 6 Hreach).
  vm_compute in E. injection E as _ <-.
  specialize (Hclaim eq_refl).
  apply (f_equal (fun r => match r with
                           | Some (_, s') => trace s'
                           | None => []
                           end)) in Hclaim.
  vm_compute in Hclaim. discriminate Hclaim.
Qed.

(** ** Rename of an entry that is a root of its own *)

Lemma detached_app t t' : detached (t ++ t') = detached t ++ detached t'.
Proof.
  induction t as [|c t IH]; [done|]. destruct c; simpl; by rewrite ?IH.
Qed.

Lemma detached_none t :
  Forall (fun c => is_set c = true \/ is_attach c = true) t -> detached t = [].
Proof.
  induction 1 as [|c t Hc _ IH]; [done|].
  destruct c; simpl; try done; by destruct Hc.
Qed.


(** * The theorems at concrete inputs *)

Lemma reachable_s_excl : reachable s_excl.
Proof.
  exists empty_world. eapply rtc_l; [|apply rtc_refl].
  eapply (step_add_path (Some 7) (add_info 1 10 REDIRFS_PATH_EXCLUDE) (PTR 1)).
  - by vm_compute.
  - vm_compute. reflexivity.
Qed.

Lemma add_path_opposite_mode_rejected_witness :
  reachable s_excl /\ 1%positive ∈ rfs_path_list s_excl /\
  heap s_excl !! 1%positive = Some o_excl /\
  (~ (7 ∈ chain_list (rp_rinch o_excl) /\ 7 ∈ chain_list (rp_rexch o_excl)) /\
   (7 ∈ chain_list (rp_rexch o_excl) ->
    redirfs_add_path (Some 7)
      (add_info (rp_mnt o_excl) (rp_dentry o_excl) REDIRFS_PATH_INCLUDE) s_excl =
    Some (ERR (- EEXIST)%Z, s_excl)) /\
   (7 ∈ chain_list (rp_rinch o_excl) ->
    redirfs_add_path (Some 7)
      (add_info (rp_mnt o_excl) (rp_dentry o_excl) REDIRFS_PATH_EXCLUDE) s_excl =
    Some (ERR (- EEXIST)%Z, s_excl))).
Proof.
  assert (1%positive ∈ rfs_path_list s_excl) as Hin by (vm_compute; constructor).
  assert (heap s_excl !! 1%positive = Some o_excl) as Ho by (vm_compute; reflexivity).
  split; [exact reachable_s_excl|]. split; [exact Hin|]. split; [exact Ho|].
  exact (add_path_opposite_mode_rejected s_excl 1%positive o_excl 7
           reachable_s_excl Hin Ho).
Defined.

Lemma reachable_s_fail : reachable s_fail.
Proof. eexists. apply rtc_refl. Qed.

Lemma add_path_failure_leaves_registry_witness :
  reachable s_fail /\
  redirfs_add_path (Some 7) (add_info 1 10 REDIRFS_PATH_INCLUDE) s_fail =
    Some (ERR (-12)%Z, s_failed) /\
  (rfs_path_list s_failed = rfs_path_list s_fail /\ heap s_failed = heap s_fail /\
   flt_nr s_failed = flt_nr s_fail).
Proof.
  assert (redirfs_add_path (Some 7) (add_info 1 10 REDIRFS_PATH_INCLUDE) s_fail =
          Some (ERR (-12)%Z, s_failed)) as Hrun by (vm_compute; reflexivity).
  split; [exact reachable_s_fail|]. split; [exact Hrun|].
  exact (add_path_failure_leaves_registry s_fail _ _ _ _ reachable_s_fail Hrun).
Defined.

Lemma paths_nr_counts_citing_paths_witness :
  reachable s_excl /\
  (paths_nr s_excl 7 = Z.of_nat (citing (heap s_excl) (rfs_path_list s_excl) 7) /\
   (forall mnt d flags a s',
      (Z.of_nat (length (rfs_path_list s_excl)) < INT_MAX)%Z ->
      (forall b o, b ∈ rfs_path_list s_excl -> heap s_excl !! b = Some o ->
         rp_mnt o = mnt -> rp_dentry o = d -> cites o 7 = false) ->
      redirfs_add_path (Some 7) (add_info mnt d flags) s_excl = Some (PTR a, s') ->
      paths_nr s' 7 = (paths_nr s_excl 7 + 1)%Z) /\
   (forall a s',
      redirfs_rem_path (Some 7) (PTR a) s_excl = Some (0%Z, s') ->
      paths_nr s' 7 = (paths_nr s_excl 7 - 1)%Z)).
Proof.
  split; [exact reachable_s_excl|].
  exact (paths_nr_counts_citing_paths s_excl 7 reachable_s_excl).
Defined.


Lemma fsrename_same_root_unchanged_witness :
  (1 = 2 \/
   exists ri, rfs_inode_find (world (init_state w_dirs)) 2 = Some ri /\
     entry_root (world (init_state w_dirs)) 5 = chain_root ri) /\
  rfs_fsrename 1 5 2 6 (init_state w_dirs) = Some (0%Z, init_state w_dirs).
Proof.
  assert (1 = 2 \/
          exists ri, rfs_inode_find (world (init_state w_dirs)) 2 = Some ri /\
            entry_root (world (init_state w_dirs)) 5 = chain_root ri) as H.
  { right. exists (mk_info None None). split; reflexivity. }
  split; [exact H|].
  exact (fsrename_same_root_unchanged (init_state w_dirs) 1 5 2 6 H).
Defined.

(** ** The further properties at concrete inputs *)

Lemma reachable_s0 : reachable s0.
Proof. eexists. apply rtc_refl. Qed.

Lemma get_path_id_first_match_witness :
  reachable s_excl /\
  (((forall a o, a ∈ rfs_path_list s_excl -> heap s_excl !! a = Some o ->
       rp_id o <> 0%Z) /\
    redirfs_get_path_id 0 s_excl = Some (NULL, s_excl)) \/
   (exists l1 a l2 o,
      rfs_path_list s_excl = l1 ++ a :: l2 /\ heap s_excl !! a = Some o /\
      rp_id o = 0%Z /\
      (forall b ob, b ∈ l1 -> heap s_excl !! b = Some ob -> rp_id ob <> 0%Z) /\
      redirfs_get_path_id 0 s_excl =
        Some (PTR a, set_heap s_excl
                       (<[a := set_count o (rp_count o + 1)]> (heap s_excl))))).
Proof.
  split; [exact reachable_s_excl|].
  exact (get_path_id_first_match s_excl 0%Z reachable_s_excl).
Defined.

Lemma get_put_path_restores_witness :
  reachable s_excl /\ is_Some (heap s_excl !! 1%positive) /\
  (let* p := redirfs_get_path (PTR 1) in redirfs_put_path p) s_excl =
  Some (tt, s_excl).
Proof.
  assert (is_Some (heap s_excl !! 1%positive)) as Hlive by (by exists o_excl).
  split; [exact reachable_s_excl|]. split; [exact Hlive|].
  exact (get_put_path_restores s_excl 1%positive reachable_s_excl Hlive).
Defined.

Lemma add_path_again_same_mode_witness :
  reachable s_excl /\ 1%positive ∈ rfs_path_list s_excl /\
  heap s_excl !! 1%positive = Some o_excl /\
  (REDIRFS_PATH_EXCLUDE = REDIRFS_PATH_INCLUDE /\ 7 ∈ chain_list (rp_rinch o_excl) \/
   REDIRFS_PATH_EXCLUDE = REDIRFS_PATH_EXCLUDE /\ 7 ∈ chain_list (rp_rexch o_excl)) /\
  redirfs_add_path (Some 7)
    (add_info (rp_mnt o_excl) (rp_dentry o_excl) REDIRFS_PATH_EXCLUDE) s_excl =
  Some (PTR 1, set_heap s_excl
                 (<[1%positive := set_count o_excl (rp_count o_excl + 1)]>
                    (heap s_excl))).
Proof.
  assert (1%positive ∈ rfs_path_list s_excl) as Hin by (vm_compute; constructor).
  assert (heap s_excl !! 1%positive = Some o_excl) as Ho by (vm_compute; reflexivity).
  assert (REDIRFS_PATH_EXCLUDE = REDIRFS_PATH_INCLUDE /\
            7 ∈ chain_list (rp_rinch o_excl) \/
          REDIRFS_PATH_EXCLUDE = REDIRFS_PATH_EXCLUDE /\
            7 ∈ chain_list (rp_rexch o_excl)) as Hmode.
  { right. split; [reflexivity|]. simpl. constructor. }
  split; [exact reachable_s_excl|]. split; [exact Hin|]. split; [exact Ho|].
  split; [exact Hmode|].
  exact (add_path_again_same_mode s_excl 1%positive o_excl 7 REDIRFS_PATH_EXCLUDE
           reachable_s_excl Hin Ho Hmode).
Defined.

Lemma add_path_unknown_mode_registers_nothing_witness :
  reachable s0 /\ 3%Z <> REDIRFS_PATH_INCLUDE /\ 3%Z <> REDIRFS_PATH_EXCLUDE /\
  redirfs_add_path (Some 7) (add_info 1 10 3) s0 = Some (ERR (-22)%Z, s_unknown) /\
  exists e, ERR (-22)%Z = ERR e /\
    heap s_unknown = heap s0 /\ rfs_path_list s_unknown = rfs_path_list s0 /\
    flt_nr s_unknown = flt_nr s0.
Proof.
  assert (3%Z <> REDIRFS_PATH_INCLUDE) as Hi by (vm_compute; discriminate).
  assert (3%Z <> REDIRFS_PATH_EXCLUDE) as He by (vm_compute; discriminate).
  assert (redirfs_add_path (Some 7) (add_info 1 10 3) s0 =
          Some (ERR (-22)%Z, s_unknown)) as Hrun by (vm_compute; reflexivity).
  split; [exact reachable_s0|]. split; [exact Hi|]. split; [exact He|].
  split; [exact Hrun|].
  exact (add_path_unknown_mode_registers_nothing s0 7 1 10 3%Z _ _
           reachable_s0 Hi He Hrun).
Defined.

Lemma add_path_creates_object_witness :
  reachable s0 /\ no_path_for s0 1 10 /\
  redirfs_add_path (Some 7) (add_info 1 10 REDIRFS_PATH_EXCLUDE) s0 =
    Some (PTR 1, s_excl) /\
  heap s0 !! 1%positive = None /\
  rfs_path_list s_excl = rfs_path_list s0 ++ [1%positive] /\
  (forall b, b <> 1%positive -> heap s_excl !! b = heap s0 !! b) /\
  exists i rroot,
    heap s_excl !! 1%positive =
    Some (mk_path i 1 10
            (if Z.eqb REDIRFS_PATH_EXCLUDE REDIRFS_PATH_INCLUDE then Some [7] else None)
            (if Z.eqb REDIRFS_PATH_EXCLUDE REDIRFS_PATH_INCLUDE then None else Some [7])
            (Some rroot) 3).
Proof.
  assert (no_path_for s0 1 10) as Hnp.
  { intros a o Ha. vm_compute in Ha. by apply elem_of_nil in Ha. }
  assert (redirfs_add_path (Some 7) (add_info 1 10 REDIRFS_PATH_EXCLUDE) s0 =
          Some (PTR 1, s_excl)) as Hrun by (vm_compute; reflexivity).
  split; [exact reachable_s0|]. split; [exact Hnp|]. split; [exact Hrun|].
  exact (add_path_creates_object s0 7 1 10 REDIRFS_PATH_EXCLUDE 1%positive s_excl
           reachable_s0 Hnp Hrun).
Defined.

Lemma rem_path_not_cited_rejected_witness :
  reachable s_excl /\ 1%positive ∈ rfs_path_list s_excl /\
  heap s_excl !! 1%positive = Some o_excl /\ cites o_excl 8 = false /\
  redirfs_rem_path (Some 8) (PTR 1) s_excl = Some ((- EINVAL)%Z, s_excl).
Proof.
  assert (1%positive ∈ rfs_path_list s_excl) as Hin by (vm_compute; constructor).
  assert (heap s_excl !! 1%positive = Some o_excl) as Ho by (vm_compute; reflexivity).
  assert (cites o_excl 8 = false) as Hc by reflexivity.
  split; [exact reachable_s_excl|]. split; [exact Hin|]. split; [exact Ho|].
  split; [exact Hc|].
  exact (rem_path_not_cited_rejected s_excl 1%positive o_excl 8
           reachable_s_excl Hin Ho Hc).
Defined.

Lemma rem_path_success_effect_witness :
  reachable s_excl /\
  redirfs_rem_path (Some 7) (PTR 1) s_excl = Some (0%Z, s_rem) /\
  exists o o',
    heap s_excl !! 1%positive = Some o /\ 1%positive ∈ rfs_path_list s_excl /\
    chain_removed o o' 7 /\
    cites o 7 = true /\ cites o' 7 = false /\
    (forall g, g <> 7 -> cites o' g = cites o g) /\
    (forall b, b <> 1%positive -> heap s_rem !! b = heap s_excl !! b) /\
    if chain_null (rp_rinch o') && chain_null (rp_rexch o') then
      rfs_path_list s_rem = list_del 1%positive (rfs_path_list s_excl) /\
      heap s_rem !! 1%positive =
        (if Z.eqb (rp_count o) 2 then None
         else Some (set_rroot (set_count o' (rp_count o - 2)) None))
    else
      rfs_path_list s_rem = rfs_path_list s_excl /\
      heap s_rem !! 1%positive = Some o'.
Proof.
  assert (redirfs_rem_path (Some 7) (PTR 1) s_excl = Some (0%Z, s_rem)) as Hrun
    by (vm_compute; reflexivity).
  split; [exact reachable_s_excl|]. split; [exact Hrun|].
  exact (rem_path_success_effect s_excl 7 1%positive s_rem reachable_s_excl Hrun).
Defined.

Lemma get_paths_returns_citing_paths_witness :
  reachable s_excl /\
  exists r s',
    redirfs_get_paths (Some 7) s_excl = Some (r, s') /\
    rfs_path_list s' = rfs_path_list s_excl /\ flt_nr s' = flt_nr s_excl /\
    if (kzalloc (world s_excl)).1 then
      r = inr (citing_paths (heap s_excl) (rfs_path_list s_excl) 7) /\
      forall b, heap s' !! b =
        with_refs (citing_paths (heap s_excl) (rfs_path_list s_excl) 7) 1 b
          <$> heap s_excl !! b
    else r = inl (- ENOMEM)%Z /\ heap s' = heap s_excl.
Proof.
  split; [exact reachable_s_excl|].
  exact (get_paths_returns_citing_paths s_excl 7 reachable_s_excl).
Defined.

Lemma get_put_paths_restores_witness :
  reachable s_excl /\
  redirfs_get_paths (Some 7) s_excl = Some (inr [1%positive], s_got) /\
  exists s2,
    redirfs_put_paths (Some [1%positive]) s_got = Some (tt, s2) /\
    heap s2 = heap s_excl /\ rfs_path_list s2 = rfs_path_list s_excl /\
    flt_nr s2 = flt_nr s_excl.
Proof.
  assert (redirfs_get_paths (Some 7) s_excl = Some (inr [1%positive], s_got))
    as Hrun by (vm_compute; reflexivity).
  split; [exact reachable_s_excl|]. split; [exact Hrun|].
  exact (get_put_paths_restores s_excl 7 [1%positive] s_got reachable_s_excl Hrun).
Defined.

Lemma rem_paths_success_clears_filter_witness :
  reachable s_excl /\
  redirfs_rem_paths (Some 7) s_excl = Some (Some 0%Z, s_cleared) /\
  (forall a, a ∈ rfs_path_list s_cleared -> cites_at (heap s_cleared) a 7 = false) /\
  paths_nr s_cleared 7 = 0%Z /\
  (forall g, g <> 7 -> paths_nr s_cleared g = paths_nr s_excl g).
Proof.
  assert (redirfs_rem_paths (Some 7) s_excl = Some (Some 0%Z, s_cleared)) as Hrun
    by (vm_compute; reflexivity).
  split; [exact reachable_s_excl|]. split; [exact Hrun|].
  exact (rem_paths_success_clears_filter s_excl 7 s_cleared reachable_s_excl Hrun).
Defined.

Lemma fsrename_leaves_registry_witness :
  rfs_fsrename 1 5 2 6 s_move = Some (0%Z, s_moved) /\
  heap s_moved = heap s_move /\ rfs_path_list s_moved = rfs_path_list s_move /\
  flt_nr s_moved = flt_nr s_move.
Proof.
  assert (rfs_fsrename 1 5 2 6 s_move = Some (0%Z, s_moved)) as Hrun
    by (vm_compute; reflexivity).
  split; [exact Hrun|].
  exact (fsrename_leaves_registry s_move 1 5 2 6 0%Z s_moved Hrun).
Defined.

Lemma fsrename_out_of_root_detaches_chain_witness :
  1 <> 2 /\
  rfs_inode_find (world s_out) 2 = Some (mk_info None None) /\
  chain_root (mk_info None None) = None /\
  entry_root (world s_out) 5 = Some 4 /\
  rfs_fsrename 1 5 2 6 s_out = Some (0%Z, s_left) /\
  trace s_left = [InfoRem 5 (mk_info None (Some 4)) 7] /\
  exists t, trace s_left = trace s_out ++ t /\
    phase_ok is_detach detached (rchain_of (world s_out) 4) 0%Z t.
Proof.
  assert (1 <> 2) as H1 by lia.
  assert (rfs_inode_find (world s_out) 2 = Some (mk_info None None)) as H2
    by (vm_compute; reflexivity).
  assert (chain_root (mk_info None None) = None) as H3 by reflexivity.
  assert (entry_root (world s_out) 5 = Some 4) as H4 by (vm_compute; reflexivity).
  assert (rfs_fsrename 1 5 2 6 s_out = Some (0%Z, s_left)) as H5
    by (vm_compute; reflexivity).
  do 5 (split; [assumption|]). split; [vm_compute; reflexivity|].
  exact (fsrename_out_of_root_detaches_chain s_out 1 5 2 6 _ 4 0%Z s_left
           H1 H2 H3 H4 H5).
Defined.

Lemma fsrename_into_root_attaches_chain_witness :
  1 <> 2 /\
  rfs_inode_find (world s_in) 2 = Some ri_move /\
  chain_root ri_move = Some 9 /\
  entry_root (world s_in) 5 = None /\
  rfs_fsrename 1 5 2 6 s_in = Some (0%Z, s_entered) /\
  trace s_entered =
    [InfoAdd 5 (mk_info (Some [8]) (Some 9)) 8;
     InfoReset 5 (mk_info (Some [8]) (Some 9))] /\
  exists t, trace s_entered = trace s_in ++ t /\
    phase_ok is_attach attached (rchain_of (world s_in) 9) 0%Z t.
Proof.
  assert (1 <> 2) as H1 by lia.
  assert (rfs_inode_find (world s_in) 2 = Some ri_move) as H2
    by (vm_compute; reflexivity).
  assert (chain_root ri_move = Some 9) as H3 by reflexivity.
  assert (entry_root (world s_in) 5 = None) as H4 by (vm_compute; reflexivity).
  assert (rfs_fsrename 1 5 2 6 s_in = Some (0%Z, s_entered)) as H5
    by (vm_compute; reflexivity).
  do 5 (split; [assumption|]). split; [vm_compute; reflexivity|].
  exact (fsrename_into_root_attaches_chain s_in 1 5 2 6 ri_move 9 0%Z s_entered
           H1 H2 H3 H4 H5).
Defined.

Lemma path_get_id_skips_no_free_id_witness :
  reachable s_excl /\
  exists i, rfs_path_get_id s_excl = Some (i, s_excl) /\
    (0 <= i <= Z.of_nat (length (rfs_path_list s_excl)))%Z /\
    forall j, (0 <= j < i)%Z -> j ∈ path_ids (heap s_excl) (rfs_path_list s_excl).
Proof.
  split; [exact reachable_s_excl|].
  exact (path_get_id_skips_no_free_id s_excl reachable_s_excl).
Defined.

Lemma path_get_id_unused_when_ids_increase_witness :
  reachable s_excl /\
  StronglySorted Z.lt (path_ids (heap s_excl) (rfs_path_list s_excl)) /\
  rfs_path_get_id s_excl = Some (1%Z, s_excl) /\
  1%Z ∉ path_ids (heap s_excl) (rfs_path_list s_excl).
Proof.
  assert (StronglySorted Z.lt (path_ids (heap s_excl) (rfs_path_list s_excl)))
    as Hs by (vm_compute; repeat constructor).
  assert (rfs_path_get_id s_excl = Some (1%Z, s_excl)) as Hrun
    by (vm_compute; reflexivity).
  split; [exact reachable_s_excl|]. split; [exact Hs|]. split; [exact Hrun|].
  exact (path_get_id_unused_when_ids_increase s_excl 1%Z s_excl
           reachable_s_excl Hs Hrun).
Defined.

Lemma get_paths_root_all_or_nothing_witness :
  redirfs_get_paths_root (Some 7) (Some 10) s_two =
    Some (inr [1%positive; 2%positive], s_two_listed) /\
  [1%positive; 2%positive] =
    (if member (rr_rinch (root_obj (world s_two_listed) 10)) 7
        || member (rr_rexch (root_obj (world s_two_listed) 10)) 7
     then rr_rpaths (root_obj (world s_two_listed) 10) else []).
Proof.
  assert (redirfs_get_paths_root (Some 7) (Some 10) s_two =
          Some (inr [1%positive; 2%positive], s_two_listed)) as Hrun
    by (vm_compute; reflexivity).
  split; [exact Hrun|].
  exact (get_paths_root_all_or_nothing s_two 7 10 _ s_two_listed Hrun).
Defined.

Lemma registered_paths_have_distinct_keys_witness :
  reachable s_excl /\
  NoDup (rfs_path_list s_excl) /\
  forall a b oa ob,
    a ∈ rfs_path_list s_excl -> b ∈ rfs_path_list s_excl ->
    heap s_excl !! a = Some oa -> heap s_excl !! b = Some ob ->
    rp_mnt oa = rp_mnt ob -> rp_dentry oa = rp_dentry ob -> a = b.
Proof.
  split; [exact reachable_s_excl|].
  exact (registered_paths_have_distinct_keys s_excl reachable_s_excl).
Defined.

Lemma registered_iff_chain_set_witness :
  reachable s_excl /\
  (forall a, a ∈ rfs_path_list s_excl -> is_Some (heap s_excl !! a)) /\
  forall a o, heap s_excl !! a = Some o ->
    (0 < rp_count o)%Z /\
    (a ∈ rfs_path_list s_excl <-> rp_rinch o <> None \/ rp_rexch o <> None) /\
    (a ∉ rfs_path_list s_excl -> rp_rroot o = None).
Proof.
  split; [exact reachable_s_excl|].
  exact (registered_iff_chain_set s_excl reachable_s_excl).
Defined.

Lemma get_path_info_after_add_witness :
  reachable s0 /\
  redirfs_add_path (Some 7) (add_info 1 10 REDIRFS_PATH_EXCLUDE) s0 =
    Some (PTR 1, s_excl) /\
  (kzalloc (world s_excl)).1 = true /\
  redirfs_get_path_info (Some 7) (PTR 1) s_excl =
  Some (inr (mk_path_info (Some 10) (Some 1) REDIRFS_PATH_EXCLUDE),
        set_world s_excl (kzalloc (world s_excl)).2).
Proof.
  assert (redirfs_add_path (Some 7) (add_info 1 10 REDIRFS_PATH_EXCLUDE) s0 =
          Some (PTR 1, s_excl)) as Hrun by (vm_compute; reflexivity).
  assert ((kzalloc (world s_excl)).1 = true) as Hok by reflexivity.
  split; [exact reachable_s0|]. split; [exact Hrun|]. split; [exact Hok|].
  exact (get_path_info_after_add s0 7 1 10 REDIRFS_PATH_EXCLUDE 1%positive s_excl
           reachable_s0 Hrun Hok).
Defined.

Lemma get_path_info_after_rem_witness :
  reachable s_excl /\
  redirfs_rem_path (Some 7) (PTR 1) s_excl = Some (0%Z, s_rem) /\
  is_Some (heap s_rem !! 1%positive) /\
  (kzalloc (world s_rem)).1 = true /\
  redirfs_get_path_info (Some 7) (PTR 1) s_rem =
  Some (inl (- ENODATA)%Z, set_world s_rem (kzalloc (world s_rem)).2).
Proof.
  assert (redirfs_rem_path (Some 7) (PTR 1) s_excl = Some (0%Z, s_rem)) as Hrun
    by (vm_compute; reflexivity).
  assert (is_Some (heap s_rem !! 1%positive)) as Hlive by (vm_compute; eauto).
  assert ((kzalloc (world s_rem)).1 = true) as Hok by reflexivity.
  split; [exact reachable_s_excl|]. split; [exact Hrun|]. split; [exact Hlive|].
  split; [exact Hok|].
  exact (get_path_info_after_rem s_excl 7 1%positive s_rem
           reachable_s_excl Hrun Hlive Hok).
Defined.

Lemma components_ls : components ns_two_mounts 1 4 names_ls 5.
Proof.
  apply (below_root ns_two_mounts 1 4 [_; _]); [by vm_compute|].
  eapply at_mount_root; [reflexivity|reflexivity|].
  apply (below_root ns_two_mounts 0 2 [_]); [by vm_compute|].
  apply (below_root ns_two_mounts 0 1 []); [by vm_compute|].
  by apply at_top.
Qed.

Lemma get_filename_writes_path_witness :
  components ns_two_mounts 1 4 names_ls 5 /\ (5 <= 8)%nat /\
  (Z.of_nat (length (path_of names_ls)) + 1 <= 12)%Z /\
  (12 <= Z.of_nat (length (blank 16)))%Z /\ (12 < 2 ^ 31)%Z /\
  redirfs_get_filename ns_two_mounts 8 1 4 (blank 16) 12 =
    Done (0%Z, String.list_ascii_of_string "/usr/bin/ls" ++ zero :: blank 4) /\
  exists buf',
    redirfs_get_filename ns_two_mounts 8 1 4 (blank 16) 12 = Done (0%Z, buf') /\
    length buf' = length (blank 16) /\
    take (length (path_of names_ls) + 1) buf' = path_of names_ls ++ [zero] /\
    drop (Z.to_nat 12) buf' = drop (Z.to_nat 12) (blank 16).
Proof.
  assert (5 <= 8)%nat as H1 by lia.
  assert (Z.of_nat (length (path_of names_ls)) + 1 <= 12)%Z as H2
    by (vm_compute; discriminate).
  assert (12 <= Z.of_nat (length (blank 16)))%Z as H3 by (vm_compute; discriminate).
  assert (12 < 2 ^ 31)%Z as H4 by lia.
  split; [exact components_ls|]. do 4 (split; [assumption|]).
  split; [vm_compute; reflexivity|].
  exact (get_filename_writes_path ns_two_mounts 1 4 names_ls 5 8 (blank 16) 12
           components_ls H1 H2 H3 H4).
Defined.

Lemma names_ls_short :
  Forall (fun nm => (Z.of_nat (length nm) < 2 ^ 31)%Z) names_ls.
Proof. repeat constructor. Qed.

Lemma get_filename_too_long_witness :
  components ns_two_mounts 1 4 names_ls 5 /\ (5 <= 8)%nat /\
  (11 < Z.of_nat (length (path_of names_ls)) + 1)%Z /\
  (11 <= Z.of_nat (length (blank 16)))%Z /\ (11 < 2 ^ 31)%Z /\
  Forall (fun nm => (Z.of_nat (length nm) < 2 ^ 31)%Z) names_ls /\
  exists buf',
    redirfs_get_filename ns_two_mounts 8 1 4 (blank 16) 11 =
      Done ((- ENAMETOOLONG)%Z, buf') /\
    length buf' = length (blank 16) /\
    drop (Z.to_nat 11) buf' = drop (Z.to_nat 11) (blank 16).
Proof.
  assert (5 <= 8)%nat as H1 by lia.
  assert (11 < Z.of_nat (length (path_of names_ls)) + 1)%Z as H2
    by (vm_compute; reflexivity).
  assert (11 <= Z.of_nat (length (blank 16)))%Z as H3 by (vm_compute; discriminate).
  assert (11 < 2 ^ 31)%Z as H4 by lia.
  split; [exact components_ls|]. do 4 (split; [assumption|]).
  split; [exact names_ls_short|].
  exact (get_filename_too_long ns_two_mounts 1 4 names_ls 5 8 (blank 16) 11
           components_ls H1 H2 H3 H4 names_ls_short).
Defined.

Lemma ns_two_mounts_short e :
  (Z.of_nat (length (d_name ns_two_mounts e)) < 2 ^ 31)%Z.
Proof. do 5 (destruct e as [|e]; [by vm_compute|]). by vm_compute. Qed.

Lemma get_filename_stays_in_buffer_witness :
  (forall e, (Z.of_nat (length (d_name ns_two_mounts e)) < 2 ^ 31)%Z) /\
  (12 <= Z.of_nat (length (blank 16)))%Z /\ (12 < 2 ^ 31)%Z /\
  match redirfs_get_filename ns_two_mounts 8 1 4 (blank 16) 12 with
  | Done (rv, buf') =>
      (rv = 0%Z \/ rv = (- ENAMETOOLONG)%Z) /\
      length buf' = length (blank 16) /\
      drop (Z.to_nat 12) buf' = drop (Z.to_nat 12) (blank 16)
  | Crash => False
  | Cut => True
  end.
Proof.
  assert (12 <= Z.of_nat (length (blank 16)))%Z as H1 by (vm_compute; discriminate).
  assert (12 < 2 ^ 31)%Z as H2 by lia.
  split; [exact ns_two_mounts_short|]. do 2 (split; [assumption|]).
  exact (get_filename_stays_in_buffer ns_two_mounts 8 1 4 (blank 16) 12
           ns_two_mounts_short H1 H2).
Defined.

Lemma info_records_excl :
  info_records ns_data 4 7 (heap s_excl) (rfs_path_list s_excl) recs_excl.
Proof.
  apply (records_cons ns_data 4 7 (heap s_excl) 1%positive o_excl [] []
           [String.list_ascii_of_string "data"] 2).
  - vm_compute. reflexivity.
  - reflexivity.
  - apply (below_root ns_data 1 10 []); [by vm_compute|]. by apply at_top.
  - lia.
  - apply (bool_decide_unpack _). by vm_compute.
  - by vm_compute.
  - apply records_nil.
Qed.

Lemma path_get_info_writes_records_witness :
  info_records ns_data 4 7 (heap s_excl) (rfs_path_list s_excl) recs_excl /\
  (kzalloc (world s_excl)).1 = true /\
  (Z.of_nat (length (join_records recs_excl)) <= 16)%Z /\
  (16 <= Z.of_nat (length (blank 16)))%Z /\ (16 < 2 ^ 31)%Z /\
  rfs_path_get_info ns_data 4 7 (blank 16) 16 s_excl =
    Some (Done (10%Z, String.list_ascii_of_string "e:0:/data" ++ zero :: blank 6),
          s_excl_page) /\
  exists buf',
    rfs_path_get_info ns_data 4 7 (blank 16) 16 s_excl =
      Some (Done (Z.of_nat (length (join_records recs_excl)), buf'),
            set_world s_excl (kzalloc (world s_excl)).2) /\
    length buf' = length (blank 16) /\
    take (length (join_records recs_excl)) buf' = join_records recs_excl /\
    drop (length (join_records recs_excl)) buf' =
      drop (length (join_records recs_excl)) (blank 16).
Proof.
  assert ((kzalloc (world s_excl)).1 = true) as H1 by reflexivity.
  assert (Z.of_nat (length (join_records recs_excl)) <= 16)%Z as H2
    by (vm_compute; discriminate).
  assert (16 <= Z.of_nat (length (blank 16)))%Z as H3 by (vm_compute; discriminate).
  assert (16 < 2 ^ 31)%Z as H4 by lia.
  split; [exact info_records_excl|]. do 4 (split; [assumption|]).
  split; [vm_compute; reflexivity|].
  exact (path_get_info_writes_records ns_data 4 7 s_excl recs_excl (blank 16) 16
           info_records_excl H1 H2 H3 H4).
Defined.

Lemma registered_iff_cites_a_filter_witness :
  reachable s_excl /\ heap s_excl !! 1%positive = Some o_excl /\
  rp_rinch o_excl <> Some [] /\ rp_rexch o_excl <> Some [] /\
  (1%positive ∈ rfs_path_list s_excl <-> exists f, cites o_excl f = true).
Proof.
  assert (heap s_excl !! 1%positive = Some o_excl) as Ho by reflexivity.
  split; [exact reachable_s_excl|]. split; [exact Ho|].
  exact (registered_iff_cites_a_filter s_excl 1%positive o_excl
           reachable_s_excl Ho).
Defined.

Lemma add_rem_put_restores_witness :
  reachable s_excl /\
  (Z.of_nat (length (rfs_path_list s_excl)) < INT_MAX)%Z /\
  (forall b o, b ∈ rfs_path_list s_excl -> heap s_excl !! b = Some o ->
     rp_mnt o = 1 -> rp_dentry o = 10 -> cites o 8 = false) /\
  redirfs_add_path (Some 8) (add_info 1 10 REDIRFS_PATH_EXCLUDE) s_excl =
    Some (PTR 1, s_second) /\
  redirfs_rem_path (Some 8) (PTR 1) s_second = Some (0%Z, s_second_rem) /\
  redirfs_put_path (PTR 1) s_second_rem = Some (tt, s_second_put) /\
  heap s_second_put = heap s_excl /\
  rfs_path_list s_second_put = rfs_path_list s_excl /\
  forall g, paths_nr s_second_put g = paths_nr s_excl g.
Proof.
  assert ((Z.of_nat (length (rfs_path_list s_excl)) < INT_MAX)%Z) as Hlen
    by (vm_compute; reflexivity).
  assert (forall b o, b ∈ rfs_path_list s_excl -> heap s_excl !! b = Some o ->
            rp_mnt o = 1 -> rp_dentry o = 10 -> cites o 8 = false) as Hnew.
  { intros b o Hb Ho _ _.
    assert (rfs_path_list s_excl = [1%positive]) as Hl by reflexivity.
    rewrite Hl in Hb. apply list_elem_of_singleton in Hb as ->.
    assert (heap s_excl !! 1%positive = Some o_excl) as Ho' by reflexivity.
    rewrite Ho' in Ho. injection Ho as <-. reflexivity. }
  assert (redirfs_add_path (Some 8) (add_info 1 10 REDIRFS_PATH_EXCLUDE) s_excl =
          Some (PTR 1, s_second)) as Eadd by (vm_compute; reflexivity).
  assert (redirfs_rem_path (Some 8) (PTR 1) s_second = Some (0%Z, s_second_rem))
    as Erem by (vm_compute; reflexivity).
  assert (redirfs_put_path (PTR 1) s_second_rem = Some (tt, s_second_put))
    as Eput by (vm_compute; reflexivity).
  split; [exact reachable_s_excl|]. split; [exact Hlen|]. split; [exact Hnew|].
  split; [exact Eadd|]. split; [exact Erem|]. split; [exact Eput|].
  exact (add_rem_put_restores s_excl 8 1 10 REDIRFS_PATH_EXCLUDE 1%positive
           s_second s_second_rem tt s_second_put
           reachable_s_excl Hlen Hnew Eadd Erem Eput).
Defined.
